(** * A from-scratch neural network trainer: model and verification

    Shallow embedding of [My_NN_Implementation/NeuralNetwork.py] (class
    [NeuralNet]): forward and backward propagation with inverted dropout,
    cross-entropy cost with L2 penalty, gradient descent with momentum over
    mini-batches, and prediction.

    Conventions of the embedding.
    - A 2-D array is the list of its rows.  Its shape is read off the list:
      the number of rows and the length of the first row, so an array with
      no rows has shape (0, 0).
    - The element type of float arrays is a parameter [F] with the
      operations the array backend provides (class [Scalar]); the instance
      [R_scalar] interprets them in the real numbers.  Results that depend
      on the laws of arithmetic are stated for that instance.
    - A Python exception is a value [Raise e] of the type [result].
    - Dictionaries keyed by strings such as ['W' + str(l)] are [gmap string].
    - The random generators are an oracle [Entropy] (the value of the k-th
      call of each kind) and a state [RandomState] counting the calls.
    - The pandas inputs of [init_mini_batches] are a [DataFrame] with
      labelled columns and a [Series] with labelled entries; selection is
      by label.
    - [fit] reads the names [keep_prob] and [plt] from the module's global
      namespace, which the module never binds; they are the record
      [Globals], and an unbound name is a [NameError]. *)

From Stdlib Require Import Reals Lra.
From stdpp Require Import gmap strings list pretty.

(** ** Exceptions and fallible computations *)

Inductive exception : Type :=
  | KeyError (key : string)
  | IndexError
  | ValueError
  | AssertionError
  | ZeroDivisionError
  | NameError (name : string)
  | UnboundLocalError (name : string).

Inductive result (A : Type) : Type :=
  | OK (a : A)
  | Raise (e : exception).
Arguments OK {A} a.
Arguments Raise {A} e.

#[global] Instance result_ret : MRet result := λ A a, OK a.
#[global] Instance result_bind : MBind result := λ A B f m,
  match m with OK a => f a | Raise e => Raise e end.

Definition succeeds {A} (m : result A) : bool :=
  match m with OK _ => true | Raise _ => false end.

Definition py_assert (b : bool) : result unit :=
  if b then OK tt else Raise AssertionError.

(** [d[k]] on a dictionary and [l[i]] on a list. *)
Definition getitem {V} (d : gmap string V) (k : string) : result V :=
  match d !! k with Some v => OK v | None => Raise (KeyError k) end.

Definition index {A} (l : list A) (i : nat) : result A :=
  match l !! i with Some x => OK x | None => Raise IndexError end.

(** [prefix + str(l)] *)
Definition key (prefix : string) (l : nat) : string := prefix +:+ pretty l.

(** A loop [for x in xs: acc = body(acc, x)] whose body may raise. *)
Fixpoint for_each {A S} (xs : list A) (body : S → A → result S) (acc : S)
  : result S :=
  match xs with
  | [] => OK acc
  | x :: xs' => acc' ← body acc x; for_each xs' body acc'
  end.

(** ** Scalars of the array backend *)

Class Scalar (F : Type) := {
  of_Z : Z → F;
  fadd : F → F → F;
  fsub : F → F → F;
  fmul : F → F → F;
  fdiv : F → F → F;
  fneg : F → F;
  fexp : F → F;
  flog : F → F;
  flt : F → F → bool;
  fle : F → F → bool
}.

Definition Rltb (x y : R) : bool := if Rlt_dec x y then true else false.
Definition Rleb (x y : R) : bool := if Rle_dec x y then true else false.

#[global] Instance R_scalar : Scalar R := {|
  of_Z := IZR;
  fadd := Rplus;
  fsub := Rminus;
  fmul := Rmult;
  fdiv := Rdiv;
  fneg := Ropp;
  fexp := exp;
  flog := ln;
  flt := Rltb;
  fle := Rleb
|}.

(** ** Arrays *)

Definition ndarray (A : Type) : Type := list (list A).

Definition nrows {A} (M : ndarray A) : nat := length M.
Definition ncols {A} (M : ndarray A) : nat :=
  match M with [] => 0 | r :: _ => length r end.
Definition shape {A} (M : ndarray A) : nat * nat := (nrows M, ncols M).

(** Every row has [c] entries and there are [r] rows. *)
Definition has_shape {A} (r c : nat) (M : ndarray A) : Prop :=
  length M = r ∧ Forall (λ row, length row = c) M.

(** NumPy broadcasting of one axis: equal lengths, or one of them is 1. *)
Definition broadcast_dim (n m : nat) : result nat :=
  if decide (n = m) then OK n
  else if decide (n = 1) then OK m
  else if decide (m = 1) then OK n
  else Raise ValueError.

Definition stretch {A} (n : nat) (l : list A) : list A :=
  match l with [x] => replicate n x | _ => l end.

Definition broadcast2 {A B C} (f : A → B → C) (M : ndarray A) (N : ndarray B)
  : result (ndarray C) :=
  r ← broadcast_dim (nrows M) (nrows N);
  c ← broadcast_dim (ncols M) (ncols N);
  OK (zip_with (λ x y, zip_with f (stretch c x) (stretch c y))
        (stretch r M) (stretch r N)).

(** [M[:, a:b]], with Python's clamping of the bounds. *)
Definition slice_cols {A} (a b : nat) (M : ndarray A) : ndarray A :=
  map (λ row, take (b - a) (drop a row)) M.

(** [M[:, a:]] *)
Definition slice_cols_from {A} (a : nat) (M : ndarray A) : ndarray A :=
  map (drop a) M.

(** [M[:, idx]] for a list of column positions. *)
Definition take_cols {A} (idx : list nat) (M : ndarray A) : result (ndarray A) :=
  mapM (λ row, mapM (index row) idx) M.

(** Rows side by side. *)
Definition hstack {A} (Ms : list (ndarray A)) (r : nat) : ndarray A :=
  foldr (zip_with app) (replicate r []) Ms.

(** [a.reshape((r, c))]: row-major regrouping of the same elements. *)
Fixpoint chunks {A} (r c : nat) (l : list A) : ndarray A :=
  match r with
  | 0 => []
  | S r' => take c l :: chunks r' c (drop c l)
  end.

Definition reshape {A} (s : nat * nat) (M : ndarray A) : result (ndarray A) :=
  let flat := concat M in
  if decide (length flat = s.1 * s.2) then OK (chunks s.1 s.2 flat)
  else Raise ValueError.

Section ScalarArrays.
Context {F : Type} `{Scalar F}.

Definition fzero : F := of_Z 0.
Definition fone : F := of_Z 1.
Definition of_nat (n : nat) : F := of_Z (Z.of_nat n).
Definition of_bool (b : bool) : F := if b then fone else fzero.
(** The float literals of the source *)
Definition lit_0_01 : F := fdiv (of_Z 1) (of_Z 100).
Definition lit_0_001 : F := fdiv (of_Z 1) (of_Z 1000).
Definition lit_0_5 : F := fdiv (of_Z 1) (of_Z 2).

Definition fsum (l : list F) : F := foldl fadd fzero l.

Definition zeros (r c : nat) : ndarray F := replicate r (replicate c fzero).

Definition amap (f : F → F) (M : ndarray F) : ndarray F := map (map f) M.

Definition column (j : nat) (M : ndarray F) : list F :=
  map (λ row, nth j row fzero) M.

(** [M.T] *)
Definition transpose (M : ndarray F) : ndarray F :=
  map (λ j, column j M) (seq 0 (ncols M)).

Definition vdot (u v : list F) : F := fsum (zip_with fmul u v).

(** [cp.dot(M, N)] for 2-D arrays *)
Definition dot (M N : ndarray F) : result (ndarray F) :=
  if decide (ncols M = nrows N)
  then OK (map (λ row, map (vdot row) (transpose N)) M)
  else Raise ValueError.

(** [cp.sum(M)] and [cp.sum(M, axis=1, keepdims=True)] *)
Definition sum_all (M : ndarray F) : F := fsum (concat M).
Definition sum_axis1 (M : ndarray F) : ndarray F := map (λ row, [fsum row]) M.

(** [cp.multiply(M, D)] for a boolean array [D] *)
Definition multiply_mask (M : ndarray F) (D : ndarray bool)
  : result (ndarray F) :=
  broadcast2 (λ x b, fmul x (of_bool b)) M D.

(** [M -= N]: the result must fit the array that is updated in place. *)
Definition isub (M N : ndarray F) : result (ndarray F) :=
  M' ← broadcast2 fsub M N;
  if decide (shape M' = shape M) then OK M' else Raise ValueError.
End ScalarArrays.

(** ** Random sources

    [cp.random.randn], [cp.random.rand] and [np.random.permutation] are
    modelled by an oracle giving the outcome of the k-th call of each kind;
    the state counts the calls made so far. *)

Record Entropy (F : Type) := {
  randn_sample : nat → nat → nat → F;
  rand_sample : nat → nat → nat → F;
  permutation_sample : nat → list nat → list nat
}.
Arguments randn_sample {F}.
Arguments rand_sample {F}.
Arguments permutation_sample {F}.

Record RandomState := {
  randn_calls : nat;
  rand_calls : nat;
  permutation_calls : nat
}.

Definition tabulate {A} (r c : nat) (f : nat → nat → A) : ndarray A :=
  map (λ i, map (f i) (seq 0 c)) (seq 0 r).

Definition randn {F} (ω : Entropy F) (r c : nat) (s : RandomState)
  : ndarray F * RandomState :=
  (tabulate r c (randn_sample ω (randn_calls s)),
   {| randn_calls := S (randn_calls s);
      rand_calls := rand_calls s;
      permutation_calls := permutation_calls s |}).

Definition rand {F} (ω : Entropy F) (r c : nat) (s : RandomState)
  : ndarray F * RandomState :=
  (tabulate r c (rand_sample ω (rand_calls s)),
   {| randn_calls := randn_calls s;
      rand_calls := S (rand_calls s);
      permutation_calls := permutation_calls s |}).

Definition permutation {F} (ω : Entropy F) (labels : list nat) (s : RandomState)
  : list nat * RandomState :=
  (permutation_sample ω (permutation_calls s) labels,
   {| randn_calls := randn_calls s;
      rand_calls := rand_calls s;
      permutation_calls := S (permutation_calls s) |}).

(** The oracle is a legitimate random source: uniform samples lie in
    [0, 1) and a permutation rearranges the labels it is given. *)
Definition uniform_in_unit_interval (ω : Entropy R) : Prop :=
  ∀ k i j, (0 <= rand_sample ω k i j < 1)%R.
Definition permutes {F : Type} (ω : Entropy F) : Prop :=
  ∀ k labels, Permutation (permutation_sample ω k labels) labels.

(** ** Pandas inputs of [init_mini_batches] *)

(** A data frame of shape (number of rows, number of columns) with labelled
    columns, and a series with labelled entries. *)
Record DataFrame (F : Type) := {
  columns : list nat;
  values : ndarray F
}.
Arguments columns {F}.
Arguments values {F}.

Record Series (F : Type) := {
  s_index : list nat;
  s_values : list F
}.
Arguments s_index {F}.
Arguments s_values {F}.

(** Positions carrying label [q]: every match, in index order. *)
Fixpoint positions_from (start : nat) (labels : list nat) (q : nat) : list nat :=
  match labels with
  | [] => []
  | x :: labels' =>
      if decide (x = q) then start :: positions_from (S start) labels' q
      else positions_from (S start) labels' q
  end.

Definition positions (labels : list nat) (q : nat) : list nat :=
  positions_from 0 labels q.

(** Label-based selection with a list of labels; a label that is absent
    is a [KeyError]. *)
Fixpoint get_indexer (labels : list nat) (wanted : list nat)
  : result (list nat) :=
  match wanted with
  | [] => OK []
  | q :: qs =>
      match positions labels q with
      | [] => Raise (KeyError (pretty q))
      | ps => rest ← get_indexer labels qs; OK (ps ++ rest)
      end
  end.

(** [X.loc[:, wanted].to_numpy()] *)
Definition loc_columns {F} (X : DataFrame F) (wanted : list nat)
  : result (ndarray F) :=
  idx ← get_indexer (columns X) wanted;
  take_cols idx (values X).

(** [y[wanted].to_numpy()] *)
Definition series_getitem {F} (y : Series F) (wanted : list nat)
  : result (list F) :=
  idx ← get_indexer (s_index y) wanted;
  mapM (index (s_values y)) idx.

(** ** The class [NeuralNet] *)

Record NeuralNet (F : Type) := {
  layer_dims : list nat;
  lr : F;
  num_epochs : nat;
  lambd : F;
  beta : F;
  print_cost : bool;
  trained_params : gmap string (ndarray F);
  fitted : bool
}.
Arguments layer_dims {F}.
Arguments lr {F}.
Arguments num_epochs {F}.
Arguments lambd {F}.
Arguments beta {F}.
Arguments print_cost {F}.
Arguments trained_params {F}.
Arguments fitted {F}.

(** Names that [fit] reads from the module's global namespace; the module
    itself binds neither of them. *)
Record Globals (F : Type) := {
  g_keep_prob : option (list F);
  g_plt : bool
}.
Arguments g_keep_prob {F}.
Arguments g_plt {F}.

Section NeuralNet.
Context {F : Type} `{Scalar F}.

Abbreviation dict := (gmap string (ndarray F)).
Abbreviation linear_cache := (ndarray F * ndarray F * ndarray F)%type.
Abbreviation cache := (linear_cache * ndarray F)%type.
Abbreviation dropout := (gmap string (ndarray bool) * list F)%type.

(** [__init__] *)
Definition init (layer_dims : list nat) (lr : F) (num_epochs : nat)
    (lambd beta : F) (print_cost : bool) : NeuralNet F :=
  {| layer_dims := layer_dims; lr := lr; num_epochs := num_epochs;
     lambd := lambd; beta := beta; print_cost := print_cost;
     trained_params := ∅; fitted := false |}.

(** *** Cost *)

(** The two summands that [compute_cost] stores in its locals
    [cross_entropy] and [L2_regularization]. *)
Definition cost_terms (self : NeuralNet F) (Y_true Y_pred : ndarray F)
    (parameters : dict) : result (F * F) :=
  let m := ncols Y_true in
  let L := size parameters / 2 in
  if decide (m = 0) then Raise ZeroDivisionError else
  t1 ← broadcast2 fmul Y_true (amap flog Y_pred);
  t2 ← broadcast2 fmul (amap (fsub fone) Y_true)
         (amap (λ p, flog (fsub fone p)) Y_pred);
  t ← broadcast2 fadd t1 t2;
  let cross_entropy := fmul (fneg (fdiv fone (of_nat m))) (sum_all t) in
  L2_norm ← for_each (seq 0 L) (λ acc l,
      W ← getitem parameters (key "W" (l + 1));
      OK (fadd acc (sum_all (amap (λ w, fmul w w) W)))) fzero;
  let L2_regularization := fmul (fdiv (lambd self) (of_nat (2 * m))) L2_norm in
  OK (cross_entropy, L2_regularization).

Definition compute_cost (self : NeuralNet F) (Y_true Y_pred : ndarray F)
    (parameters : dict) : result F :=
  '(cross_entropy, L2_regularization) ← cost_terms self Y_true Y_pred parameters;
  OK (fadd cross_entropy L2_regularization).

(** *** Activations *)

Definition relu (Z : ndarray F) : result (ndarray F) :=
  let A := amap (λ z, if flt fzero z then z else fzero) Z in
  _ ← py_assert (bool_decide (shape A = shape Z));
  OK A.

Definition leaky_relu (Z : ndarray F) : result (ndarray F) :=
  let A := amap (λ z, if fle fzero z then z else fmul z lit_0_01) Z in
  _ ← py_assert (bool_decide (shape A = shape Z));
  OK A.

Definition sigmoid (Z : ndarray F) : ndarray F :=
  amap (λ z, fdiv fone (fadd fone (fexp (fneg z)))) Z.

Definition relu_backward (dA Z : ndarray F) : result (ndarray F) :=
  if decide (shape Z = shape dA) then
    let dZ := zip_with (zip_with (λ d z, if fle z fzero then fzero else d)) dA Z in
    _ ← py_assert (bool_decide (shape dZ = shape Z));
    OK dZ
  else Raise IndexError.

Definition lrelu_backward (dA Z : ndarray F) : result (ndarray F) :=
  let derivative := amap (λ z, if fle fzero z then fone else lit_0_01) Z in
  broadcast2 fmul dA derivative.

Definition sigmoid_derivative (Z : ndarray F) : result (ndarray F) :=
  broadcast2 fmul (sigmoid Z) (amap (fsub fone) (sigmoid Z)).

Definition sigmoid_backward (dA Z : ndarray F) : result (ndarray F) :=
  d ← sigmoid_derivative Z;
  broadcast2 fmul dA d.

(** *** Initialisation *)

Definition init_params (ω : Entropy F) (n : list nat) (s : RandomState)
  : result (dict * RandomState) :=
  let L := length n in
  for_each (seq 1 (L - 1)) (λ '(params, s) l,
      nl ← index n l;
      nl1 ← index n (l - 1);
      let '(G, s') := randn ω nl nl1 s in
      let W := amap (λ g, fmul g lit_0_001) G in
      let b := zeros nl 1 in
      _ ← py_assert (bool_decide (shape W = (nl, nl1)));
      _ ← py_assert (bool_decide (shape b = (nl, 1)));
      OK (<[key "b" l := b]> (<[key "W" l := W]> params), s'))
    (∅, s).

Definition init_v (n : list nat) : result dict :=
  let L := length n in
  for_each (seq 1 (L - 1)) (λ v l,
      nl ← index n l;
      nl1 ← index n (l - 1);
      OK (<[key "db" l := zeros nl 1]> (<[key "dW" l := zeros nl nl1]> v)))
    ∅.

(** The body of the loop of [init_dropout], for the layer [l] *)
Definition init_dropout_layer (ω : Entropy F) (self : NeuralNet F)
    (keep_prob : list F) (m : nat)
    (state : gmap string (ndarray bool) * RandomState) (l : nat)
  : result (gmap string (ndarray bool) * RandomState) :=
  let '(D, s) := state in
  nl ← index (layer_dims self) l;
  let '(U, s') := rand ω nl m s in
  kp ← index keep_prob l;
  let Dl := map (map (λ u, flt u kp)) U in
  _ ← py_assert (bool_decide (shape Dl = (nl, m)));
  OK (<[pretty l := Dl]> D, s').

Definition init_dropout (ω : Entropy F) (self : NeuralNet F)
    (keep_prob : list F) (m : nat) (s : RandomState)
  : result (dropout * RandomState) :=
  let L := length (layer_dims self) in
  '(D, s) ← for_each (seq 0 L) (init_dropout_layer ω self keep_prob m) (∅, s);
  OK ((D, keep_prob), s).

(** *** Mini-batches *)

Definition init_mini_batches (ω : Entropy F) (X : DataFrame F) (y : Series F)
    (mb_size : nat) (s : RandomState)
  : result (list (ndarray F * ndarray F) * RandomState) :=
  let m := length (columns X) in
  let '(perm, s') := permutation ω (columns X) s in
  shuffled_X ← loc_columns X perm;
  ys ← series_getitem y perm;
  shuffled_y ← reshape (1, m) [ys];
  if decide (mb_size = 0) then Raise ZeroDivisionError else
  let num_batches := m / mb_size in
  let full := map (λ n,
      (slice_cols (n * mb_size) ((n + 1) * mb_size) shuffled_X,
       slice_cols (n * mb_size) ((n + 1) * mb_size) shuffled_y))
      (seq 0 num_batches) in
  let mini_batches :=
    if decide (m `mod` mb_size ≠ 0)
    then full ++ [(slice_cols_from (num_batches * mb_size) shuffled_X,
                   slice_cols_from (num_batches * mb_size) shuffled_y)]
    else full in
  OK (mini_batches, s').

(** *** Forward propagation *)

(** The nested function [linear_forward] reads the variable [A] of the
    enclosing call in its assertion; it is passed here as [A]. *)
Definition linear_forward (A : ndarray F) (A_prev W b : ndarray F)
  : result (ndarray F * linear_cache) :=
  WA ← dot W A_prev;
  Z ← broadcast2 fadd WA b;
  _ ← py_assert (bool_decide (shape Z = (nrows W, ncols A)));
  OK (Z, (A_prev, W, b)).

Definition activation_forward (A : ndarray F) (A_prev W b : ndarray F)
    (activation : string) : result (ndarray F * cache) :=
  '(Z, lin_cache) ← linear_forward A A_prev W b;
  A' ← (if decide (activation = "ReLU") then relu Z
        else if decide (activation = "Sigmoid") then OK (sigmoid Z)
        else if decide (activation = "Leaky ReLU") then leaky_relu Z
        else Raise (UnboundLocalError "A"));
  _ ← py_assert (bool_decide (shape A' = (nrows W, ncols A_prev)));
  OK (A', (lin_cache, Z)).

(** Inverted dropout applied to an activation in training mode:
    [A = cp.multiply(A, D[str(l)]); A /= keep_prob[l]]. *)
Definition apply_dropout (mode : string) (dropout_params : dropout)
    (l : nat) (A : ndarray F) : result (ndarray F) :=
  if decide (mode = "train") then
    let '(D, keep_prob) := dropout_params in
    Dl ← getitem D (pretty l);
    A' ← multiply_mask A Dl;
    kp ← index keep_prob l;
    OK (amap (λ a, fdiv a kp) A')
  else OK A.

(** The body of the loop over the hidden layers, for the layer [l] *)
Definition hidden_layer_forward (parameters : dict) (dropout_params : dropout)
    (mode : string) (state : ndarray F * list cache) (l : nat)
  : result (ndarray F * list cache) :=
  let '(A, caches) := state in
  let A_prev := A in
  W ← getitem parameters (key "W" l);
  b ← getitem parameters (key "b" l);
  '(A, c) ← activation_forward A A_prev W b "Leaky ReLU";
  A ← apply_dropout mode dropout_params l A;
  OK (A, caches ++ [c]).

Definition L_model_forward (X : ndarray F) (parameters : dict)
    (dropout_params : dropout) (mode : string)
  : result (ndarray F * list cache) :=
  let L := size parameters / 2 in
  '(A, caches) ← for_each (seq 1 (L - 1))
                   (hidden_layer_forward parameters dropout_params mode)
                   (X, []);
  W ← getitem parameters (key "W" L);
  b ← getitem parameters (key "b" L);
  '(AL, c) ← activation_forward A A W b "Sigmoid";
  AL ← apply_dropout mode dropout_params L AL;
  let caches := caches ++ [c] in
  _ ← py_assert (bool_decide (shape AL = (1, ncols X)));
  OK (AL, caches).

(** *** Backward propagation *)

Definition linear_back (self : NeuralNet F) (dZ : ndarray F) (c : linear_cache)
  : result (ndarray F * ndarray F * ndarray F) :=
  let '(A_prev, W, b) := c in
  let m := ncols A_prev in
  g ← dot dZ (transpose A_prev);
  dW ← broadcast2 fadd (amap (λ x, fdiv x (of_nat m)) g)
         (amap (λ w, fdiv (fmul (lambd self) w) (of_nat m)) W);
  let db := amap (λ x, fdiv x (of_nat m)) (sum_axis1 dZ) in
  dA_prev ← dot (transpose W) dZ;
  _ ← py_assert (bool_decide (shape dA_prev = shape A_prev));
  _ ← py_assert (bool_decide (shape dW = shape W));
  OK (dA_prev, dW, db).

Definition activation_back (self : NeuralNet F) (dA : ndarray F) (c : cache)
    (activation : string) : result (ndarray F * ndarray F * ndarray F) :=
  let '(lin_cache, Z) := c in
  dZ ← (if decide (activation = "ReLU") then relu_backward dA Z
        else if decide (activation = "Sigmoid") then sigmoid_backward dA Z
        else if decide (activation = "Leaky ReLU") then lrelu_backward dA Z
        else Raise (UnboundLocalError "dZ"));
  linear_back self dZ lin_cache.

(** The body of the loop [for l in reversed(range(L-1))] *)
Definition hidden_layer_backward (self : NeuralNet F) (caches : list cache)
    (dropout_params : dropout) (grads : dict) (l : nat) : result dict :=
  let '(D, keep_prob) := dropout_params in
  dA ← getitem grads (key "dA" (l + 2));
  c ← index caches l;
  '(dA_prev, dW, db) ← activation_back self dA c "Leaky ReLU";
  let grads := <[key "db" (l + 1) := db]> (<[key "dW" (l + 1) := dW]>
                 (<[key "dA" (l + 1) := dA_prev]> grads)) in
  g ← getitem grads (key "dA" (l + 1));
  Dl ← getitem D (pretty l);
  g ← multiply_mask g Dl;
  let grads := <[key "dA" (l + 1) := g]> grads in
  g ← getitem grads (key "dA" (l + 1));
  kp ← index keep_prob (l + 1);
  OK (<[key "dA" (l + 1) := amap (λ a, fdiv a kp) g]> grads).

Definition L_model_backward (self : NeuralNet F) (AL Y : ndarray F)
    (caches : list cache) (dropout_params : dropout) : result dict :=
  let '(D, keep_prob) := dropout_params in
  let grads : dict := ∅ in
  let L := length caches in
  Y ← reshape (shape AL) Y;
  t1 ← broadcast2 fdiv Y AL;
  t2 ← broadcast2 fdiv (amap (fsub fone) Y) (amap (fsub fone) AL);
  t ← broadcast2 fsub t1 t2;
  let dAL := amap fneg t in
  DL ← getitem D (pretty L);
  dAL ← multiply_mask dAL DL;
  kp ← index keep_prob L;
  let dAL := amap (λ a, fdiv a kp) dAL in
  c ← (match last caches with Some c => OK c | None => Raise IndexError end);
  '(dA_prev, dW, db) ← activation_back self dAL c "Sigmoid";
  let grads := <[key "db" L := db]> (<[key "dW" L := dW]>
                 (<[key "dA" L := dA_prev]> grads)) in
  for_each (rev (seq 0 (L - 1)))
    (hidden_layer_backward self caches dropout_params) grads.

(** *** Parameter update *)

(** [beta*v + (1 - beta)*g] on arrays *)
Definition momentum_step (self : NeuralNet F) (v g : ndarray F)
  : result (ndarray F) :=
  broadcast2 fadd (amap (fmul (beta self)) v)
    (amap (fmul (fsub fone (beta self))) g).

(** The body of the loop of [update_params], for the layer [l + 1] *)
Definition update_layer (self : NeuralNet F) (grads : dict) (lr : F)
    (stores : dict * dict) (l : nat) : result (dict * dict) :=
  let '(parameters, v) := stores in
  vdW ← getitem v (key "dW" (l + 1));
  gdW ← getitem grads (key "dW" (l + 1));
  vdW' ← momentum_step self vdW gdW;
  let v := <[key "dW" (l + 1) := vdW']> v in
  vdb ← getitem v (key "db" (l + 1));
  gdb ← getitem grads (key "db" (l + 1));
  vdb' ← momentum_step self vdb gdb;
  let v := <[key "db" (l + 1) := vdb']> v in
  W ← getitem parameters (key "W" (l + 1));
  vdW ← getitem v (key "dW" (l + 1));
  W' ← isub W (amap (λ x, fmul x lr) vdW);
  let parameters := <[key "W" (l + 1) := W']> parameters in
  b ← getitem parameters (key "b" (l + 1));
  vdb ← getitem v (key "db" (l + 1));
  b' ← isub b (amap (λ x, fmul x lr) vdb);
  let parameters := <[key "b" (l + 1) := b']> parameters in
  OK (parameters, v).

Definition update_params (self : NeuralNet F) (parameters grads v : dict)
    (lr : F) : result (dict * dict) :=
  let L := size parameters / 2 in
  for_each (seq 0 L) (update_layer self grads lr) (parameters, v).

(** *** Training *)

Definition fit (g : Globals F) (ω : Entropy F) (self : NeuralNet F)
    (X_train : DataFrame F) (Y_train : Series F) (mb_size : nat)
    (s : RandomState) : result (dict * NeuralNet F * RandomState) :=
  '(parameters, s) ← init_params ω (layer_dims self) s;
  v ← init_v (layer_dims self);
  '(mini_batches, s) ← init_mini_batches ω X_train Y_train mb_size s;
  let costs : list F := [] in
  '(parameters, v, cost, costs, s) ←
    for_each (seq 0 (num_epochs self)) (λ '(parameters, v, cost, costs, s) i,
      '(parameters, v, cost, s) ←
        for_each (seq 0 (length mini_batches)) (λ '(parameters, v, cost, s) b,
          '(X_train, Y_train) ← index mini_batches b;
          keep_prob ← (match g_keep_prob g with
                       | Some kp => OK kp
                       | None => Raise (NameError "keep_prob")
                       end);
          '(dropout_params, s) ←
            init_dropout ω self keep_prob (ncols X_train) s;
          '(AL, caches) ←
            L_model_forward X_train parameters dropout_params "train";
          cost ← compute_cost self Y_train AL parameters;
          grads ← L_model_backward self AL Y_train caches dropout_params;
          '(parameters, v) ← update_params self parameters grads v (lr self);
          OK (parameters, v, Some cost, s))
        (parameters, v, cost, s);
      if print_cost self && bool_decide (i `mod` 10 = 0) then
        match cost with
        | Some c => OK (parameters, v, cost, costs ++ [c], s)
        | None => Raise (UnboundLocalError "cost")
        end
      else OK (parameters, v, cost, costs, s))
    (parameters, v, None, costs, s);
  if g_plt g then
    OK (parameters,
        {| layer_dims := layer_dims self; lr := lr self;
           num_epochs := num_epochs self; lambd := lambd self;
           beta := beta self; print_cost := print_cost self;
           trained_params := parameters; fitted := true |},
        s)
  else Raise (NameError "plt").

(** *** Prediction *)

(** [M[i, j]] and [M[i, j] = x] *)
Definition getitem2 (M : ndarray F) (i j : nat) : result F :=
  row ← index M i; index row j.

Definition setitem2 (M : ndarray F) (i j : nat) (x : F) : result (ndarray F) :=
  row ← index M i;
  _ ← index row j;
  OK (<[i := <[j := x]> row]> M).

Definition predict (self : NeuralNet F) (X : ndarray F)
  : result (ndarray F * ndarray F) :=
  let m := ncols X in
  let y := zeros 1 m in
  '(probas, caches) ← L_model_forward X (trained_params self) (∅, []) "test";
  y ← for_each (seq 0 (ncols probas)) (λ y i,
      p ← getitem2 probas 0 i;
      if flt lit_0_5 p then setitem2 y 0 i fone else setitem2 y 0 i fzero)
    y;
  OK (y, probas).

(** *** Objects a program can hold

    A [NeuralNet] object is created by [__init__]; the only method that
    assigns to its attributes is [fit], in its last two statements.  A
    call of [fit] that raises and a call of [predict] leave the object
    as it was. *)
Inductive reachable : NeuralNet F → Prop :=
  | reachable_init layer_dims lr num_epochs lambd beta print_cost :
      reachable (init layer_dims lr num_epochs lambd beta print_cost)
  | reachable_fit g ω self X Y mb_size s parameters self' s' :
      reachable self →
      fit g ω self X Y mb_size s = OK (parameters, self', s') →
      reachable self'.
End NeuralNet.

(** ** Reference formulas

    Index-based statements of the formulas that the specification gives
    for the gradients, the update rule and the cost; the theorems below
    compare them with what the code computes on lists. *)
Section Formulas.
Context {F : Type} `{Scalar F}.

(** Entry (i, j) of an array *)
Definition entry (M : ndarray F) (i j : nat) : F := nth j (nth i M []) fzero.

(** f 0 + f 1 + ... + f (n - 1) *)
Fixpoint big_sum (f : nat → F) (n : nat) : F :=
  match n with
  | 0 => fzero
  | S n' => fadd (big_sum f n') (f n')
  end.

(** dW = (dZ · A_prev^T)/m + (lambda · W)/m, entry (i, j) *)
Definition dW_formula (lambda : F) (dZ A_prev W : ndarray F) (m i j : nat) : F :=
  fadd (fdiv (big_sum (λ t, fmul (entry dZ i t) (entry A_prev j t)) m) (of_nat m))
       (fdiv (fmul lambda (entry W i j)) (of_nat m)).

(** db = sum(dZ, axis=examples)/m, entry (i, 0) *)
Definition db_formula (dZ : ndarray F) (m i : nat) : F :=
  fdiv (big_sum (λ t, entry dZ i t) m) (of_nat m).

(** dA_prev = W^T · dZ, entry (j, t), for [n] rows of W *)
Definition dA_prev_formula (W dZ : ndarray F) (n j t : nat) : F :=
  big_sum (λ i, fmul (entry W i j) (entry dZ i t)) n.

(** Elementwise combination of two arrays of one shape *)
Definition elementwise (f : F → F → F) (M N : ndarray F) : ndarray F :=
  zip_with (zip_with f) M N.

(** momentum := beta·momentum + (1 − beta)·gradient *)
Definition momentum_formula (beta : F) (V G : ndarray F) : ndarray F :=
  elementwise (λ v g, fadd (fmul beta v) (fmul (fsub fone beta) g)) V G.

(** parameter := parameter − learningRate·momentum *)
Definition descent_formula (lr : F) (P V : ndarray F) : ndarray F :=
  elementwise (λ p v, fsub p (fmul lr v)) P V.

(** −(1/m)·Σ_j [Y_j·log(P_j) + (1 − Y_j)·log(1 − P_j)] for arrays of
    shape (1, m) *)
Definition cross_entropy_formula (Y P : ndarray F) (m : nat) : F :=
  fmul (fneg (fdiv fone (of_nat m)))
    (big_sum (λ j,
       fadd (fmul (entry Y 0 j) (flog (entry P 0 j)))
            (fmul (fsub fone (entry Y 0 j)) (flog (fsub fone (entry P 0 j)))))
       m).

(** The squared Frobenius norm: Σ_i Σ_j W_ij² *)
Definition frobenius_sq (W : ndarray F) : F :=
  fsum (map (λ row, fsum (map (λ w, fmul w w) row)) W).

(** The weight matrix of layer [l] *)
Definition weights (parameters : gmap string (ndarray F)) (l : nat) : ndarray F :=
  default [] (parameters !! key "W" l).

(** (lambda/(2m))·Σ_l ‖W_l‖²_F over the layers 1..[len(parameters) // 2] *)
Definition L2_formula (lambda : F) (m : nat)
    (parameters : gmap string (ndarray F)) : F :=
  fmul (fdiv lambda (of_nat (2 * m)))
    (big_sum (λ l, frobenius_sq (weights parameters (l + 1)))
       (size parameters / 2)).

(** Parameters laid out as [layer_dims] prescribes: for each layer l in
    1..L a weight matrix of shape (dims[l], dims[l-1]) and a bias of
    shape (dims[l], 1), all widths positive, and [len(parameters) // 2]
    equal to the number L of layers. *)
Definition well_shaped (dims : list nat) (parameters : gmap string (ndarray F))
  : Prop :=
  size parameters / 2 = length dims - 1 ∧
  Forall (λ d, 0 < d) dims ∧
  ∀ l, 1 ≤ l < length dims →
    ∃ W b nl nl1,
      dims !! l = Some nl ∧ dims !! (l - 1) = Some nl1 ∧
      parameters !! key "W" l = Some W ∧ parameters !! key "b" l = Some b ∧
      has_shape nl nl1 W ∧ has_shape nl 1 b.

(** The momentum and gradient stores hold, for each layer, arrays of
    the shapes of that layer's weight and bias. *)
Definition stores_match (L : nat) (parameters grads v : gmap string (ndarray F))
  : Prop :=
  ∀ l, 1 ≤ l ≤ L →
    ∃ W b gW gb vW vb r c,
      parameters !! key "W" l = Some W ∧ parameters !! key "b" l = Some b ∧
      grads !! key "dW" l = Some gW ∧ grads !! key "db" l = Some gb ∧
      v !! key "dW" l = Some vW ∧ v !! key "db" l = Some vb ∧
      has_shape r c W ∧ has_shape r c gW ∧ has_shape r c vW ∧
      has_shape r 1 b ∧ has_shape r 1 gb ∧ has_shape r 1 vb.

(** Layer [l] of the stores [parameters'] and [v'] holds the momentum
    and the parameters that one update step computes from the layer's
    entries in [parameters], [grads] and [v]. *)
Definition layer_updated (beta lr : F)
    (parameters grads v parameters' v' : gmap string (ndarray F)) (l : nat)
  : Prop :=
  ∀ W b gW gb vW vb,
    parameters !! key "W" l = Some W → parameters !! key "b" l = Some b →
    grads !! key "dW" l = Some gW → grads !! key "db" l = Some gb →
    v !! key "dW" l = Some vW → v !! key "db" l = Some vb →
    v' !! key "dW" l = Some (momentum_formula beta vW gW) ∧
    v' !! key "db" l = Some (momentum_formula beta vb gb) ∧
    parameters' !! key "W" l
      = Some (descent_formula lr W (momentum_formula beta vW gW)) ∧
    parameters' !! key "b" l
      = Some (descent_formula lr b (momentum_formula beta vb gb)).

(** Dropout parameters that keep every unit: for each layer a mask of
    the layer's shape whose entries are all true, and keep probability 1. *)
Definition keeps_all (dims : list nat) (m : nat)
    (dropout_params : gmap string (ndarray bool) * list F) : Prop :=
  ∀ l nl, dims !! l = Some nl →
    ∃ Dl, dropout_params.1 !! pretty l = Some Dl ∧
          has_shape nl m Dl ∧
          Forall (Forall (λ keep, keep = true)) Dl ∧
          dropout_params.2 !! l = Some fone.

(** [self] with another L2 strength *)
Definition with_lambd (lambda : F) (self : NeuralNet F) : NeuralNet F :=
  {| layer_dims := layer_dims self; lr := lr self;
     num_epochs := num_epochs self; lambd := lambda;
     beta := beta self; print_cost := print_cost self;
     trained_params := trained_params self; fitted := fitted self |}.
End Formulas.

(** Some weight of some layer is not zero. *)
Definition has_nonzero_weight (parameters : gmap string (ndarray R)) : Prop :=
  ∃ l W row w,
    1 ≤ l ≤ size parameters / 2 ∧ parameters !! key "W" l = Some W ∧
    row ∈ W ∧ w ∈ row ∧ w ≠ 0%R.

(** ** Sample inputs *)
Section Samples.
Context {F : Type} `{Scalar F}.

(** An oracle whose normal samples are 1, whose uniform samples are 0
    and whose permutations reverse the labels. *)
Definition sample_entropy : Entropy F :=
  {| randn_sample := λ _ _ _, fone;
     rand_sample := λ _ _ _, fzero;
     permutation_sample := λ _ labels, rev labels |}.


Definition fresh_state : RandomState :=
  {| randn_calls := 0; rand_calls := 0; permutation_calls := 0 |}.

(** A network with one hidden unit, trained for [epochs] epochs. *)
Definition small_net (epochs : nat) : NeuralNet F :=
  init [1; 1; 1] lit_0_01 epochs fzero lit_0_5 true.

(** Three examples with one feature *)
Definition sample_X : DataFrame F :=
  {| columns := [0; 1; 2]; values := [[fone; fzero; fone]] |}.
Definition sample_Y : Series F :=
  {| s_index := [0; 1; 2]; s_values := [fone; fzero; fzero] |}.

(** One layer with one unit whose weight and bias are zero *)
Definition zero_parameters : gmap string (ndarray F) :=
  <["b1" := [[fzero]]]> (<["W1" := [[fzero]]]> ∅).

(** A network with one input, one hidden unit and one output unit *)
Definition tiny_parameters (w1 b1 w2 b2 : F) : gmap string (ndarray F) :=
  <["b2" := [[b2]]]> (<["W2" := [[w2]]]>
    (<["b1" := [[b1]]]> (<["W1" := [[w1]]]> ∅))).

(** Dropout parameters for one example: a mask entry and a keep
    probability for the input, the hidden unit and the output unit *)
Definition tiny_dropout (d0 d1 d2 : bool) (k0 k1 k2 : F)
  : gmap string (ndarray bool) * list F :=
  (<["2" := [[d2]]]> (<["1" := [[d1]]]> (<["0" := [[d0]]]> ∅)),
   [k0; k1; k2]).

(** Closed forms of what propagation computes on this network for one
    example [x] with label [y] (theorems [tiny_forward] and
    [tiny_backward] below): pre-activations and activations of the two
    layers, the gradient with respect to the hidden activation that is
    handed to the first layer, and the gradient of the first weight. *)
Definition tiny_Z1 (x w1 b1 : F) : F := fadd (fadd fzero (fmul w1 x)) b1.
Definition tiny_A1 (z1 : F) (d1 : bool) (k1 : F) : F :=
  fdiv (fmul (if fle fzero z1 then z1 else fmul z1 lit_0_01) (of_bool d1)) k1.
Definition tiny_Z2 (a1 w2 b2 : F) : F := fadd (fadd fzero (fmul w2 a1)) b2.
Definition tiny_AL (z2 : F) (d2 : bool) (k2 : F) : F :=
  fdiv (fmul (fdiv fone (fadd fone (fexp (fneg z2)))) (of_bool d2)) k2.
Definition tiny_dA_hidden (y aL z2 w2 : F) (d2 : bool) (k2 : F) : F :=
  let dAL := fdiv (fmul (fneg (fsub (fdiv y aL)
                                 (fdiv (fsub fone y) (fsub fone aL))))
                     (of_bool d2)) k2 in
  let s := fdiv fone (fadd fone (fexp (fneg z2))) in
  let dZ2 := fmul dAL (fmul s (fsub fone s)) in
  fadd fzero (fmul w2 dZ2).
Definition tiny_dW1 (lambda dA_hidden x z1 w1 : F) : F :=
  let dZ1 := fmul dA_hidden (if fle fzero z1 then fone else lit_0_01) in
  fadd (fdiv (fadd fzero (fmul dZ1 x)) (of_nat 1))
    (fdiv (fmul lambda w1) (of_nat 1)).

(** Gradients (or momentum) of that network with every entry [g] *)
Definition tiny_grads (g : F) : gmap string (ndarray F) :=
  <["db2" := [[g]]]> (<["dW2" := [[g]]]>
    (<["db1" := [[g]]]> (<["dW1" := [[g]]]> ∅))).

(** An object whose training has stored the given parameters *)
Definition trained_net (parameters : gmap string (ndarray F)) : NeuralNet F :=
  {| layer_dims := [1; 1; 1]; lr := lit_0_01; num_epochs := 1;
     lambd := fzero; beta := lit_0_5; print_cost := false;
     trained_params := parameters; fitted := true |}.

Definition sample_globals : Globals F :=
  {| g_keep_prob := Some [fone; fone; fone]; g_plt := true |}.
End Samples.


(** ** Views of the array functions *)
Section Views.
Context {F : Type} `{Scalar F}.

(** The scalar function that an array operation applies to each entry:
    its value on the array [[z]] of shape (1, 1). *)
Definition pointwise (f : ndarray F → result (ndarray F)) (z : F) : F :=
  match f [[z]] with OK A => entry A 0 0 | Raise _ => z end.
End Views.

(** ** Layouts of the stores that training passes around *)
Section Layouts.
Context {F : Type} `{Scalar F}.

(** A gradient or momentum store laid out as [layer_dims] prescribes:
    for each layer l in 1..L an array of the shape of the layer's
    weights under ['dW' + str(l)] and one of the shape of its bias
    under ['db' + str(l)]. *)
Definition gradients_shaped (dims : list nat) (g : gmap string (ndarray F))
  : Prop :=
  ∀ l, 1 ≤ l < length dims →
    ∃ gW gb nl nl1,
      dims !! l = Some nl ∧ dims !! (l - 1) = Some nl1 ∧
      g !! key "dW" l = Some gW ∧ g !! key "db" l = Some gb ∧
      has_shape nl nl1 gW ∧ has_shape nl 1 gb.

(** Dropout parameters for a batch of [m] examples: a mask of shape
    (dims[l], m) for every layer l in 0..L, the input included, and a
    keep probability for each of them. *)
Definition masks_shaped (dims : list nat) (m : nat)
    (dropout_params : gmap string (ndarray bool) * list F) : Prop :=
  length dims ≤ length dropout_params.2 ∧
  ∀ l nl, dims !! l = Some nl →
    ∃ Dl, dropout_params.1 !! pretty l = Some Dl ∧ has_shape nl m Dl.

(** The cache of layer [l], at position l - 1 of the list: the layer's
    input, its weights and bias, and its pre-activation, for a batch of
    [m] examples. *)
Definition layer_cached (dims : list nat)
    (parameters : gmap string (ndarray F)) (m : nat)
    (caches : list (ndarray F * ndarray F * ndarray F * ndarray F))
    (l : nat) : Prop :=
  ∃ A_prev W b Z nl nl1,
    dims !! l = Some nl ∧ dims !! (l - 1) = Some nl1 ∧
    caches !! (l - 1) = Some ((A_prev, W, b), Z) ∧
    parameters !! key "W" l = Some W ∧ parameters !! key "b" l = Some b ∧
    has_shape nl1 m A_prev ∧ has_shape nl nl1 W ∧ has_shape nl 1 b ∧
    has_shape nl m Z.

(** The list of caches that forward propagation returns: one per layer. *)
Definition caches_shaped (dims : list nat)
    (parameters : gmap string (ndarray F)) (m : nat)
    (caches : list (ndarray F * ndarray F * ndarray F * ndarray F)) : Prop :=
  length caches = length dims - 1 ∧
  ∀ l, 1 ≤ l < length dims → layer_cached dims parameters m caches l.

(** The gradient store while back-propagation walks down the layers,
    for a batch of [m] examples: the layers above [j] have their
    gradients, and the gradient that layer [j + 1] hands to the layer
    below it is stored under ['dA' + str(j + 1)]. *)
Definition gradients_from (dims : list nat) (m j : nat)
    (g : gmap string (ndarray F)) : Prop :=
  (∀ l, j + 1 ≤ l < length dims →
     ∃ gW gb nl nl1,
       dims !! l = Some nl ∧ dims !! (l - 1) = Some nl1 ∧
       g !! key "dW" l = Some gW ∧ g !! key "db" l = Some gb ∧
       has_shape nl nl1 gW ∧ has_shape nl 1 gb) ∧
  ∃ dA nj,
    dims !! j = Some nj ∧ g !! key "dA" (j + 1) = Some dA ∧
    has_shape nj m dA.
End Layouts.

(** ** The two loops of [fit] *)
Section Training.
Context {F : Type} `{Scalar F}.

(** The body of the loop over the mini-batches, for the batch number
    [b]: the state is the parameters, the momentum, the last cost (the
    local [cost] is unbound until a batch has been processed) and the
    state of the random source. *)
Definition train_batch (g : Globals F) (ω : Entropy F) (self : NeuralNet F)
    (mini_batches : list (ndarray F * ndarray F))
  : gmap string (ndarray F) * gmap string (ndarray F) * option F
    * RandomState → nat →
    result (gmap string (ndarray F) * gmap string (ndarray F) * option F
            * RandomState) :=
  λ '(parameters, v, cost, s) b,
  '(X_train, Y_train) ← index mini_batches b;
  keep_prob ← (match g_keep_prob g with
               | Some kp => OK kp
               | None => Raise (NameError "keep_prob")
               end);
  '(dropout_params, s) ← init_dropout ω self keep_prob (ncols X_train) s;
  '(AL, caches) ← L_model_forward X_train parameters dropout_params "train";
  cost ← compute_cost self Y_train AL parameters;
  grads ← L_model_backward self AL Y_train caches dropout_params;
  '(parameters, v) ← update_params self parameters grads v (lr self);
  OK (parameters, v, Some cost, s).

(** The body of the loop over the epochs, for the epoch number [i] *)
Definition train_epoch (g : Globals F) (ω : Entropy F) (self : NeuralNet F)
    (mini_batches : list (ndarray F * ndarray F))
  : gmap string (ndarray F) * gmap string (ndarray F) * option F
    * list F * RandomState → nat →
    result (gmap string (ndarray F) * gmap string (ndarray F) * option F
            * list F * RandomState) :=
  λ '(parameters, v, cost, costs, s) i,
  '(parameters, v, cost, s) ←
    for_each (seq 0 (length mini_batches))
      (train_batch g ω self mini_batches) (parameters, v, cost, s);
  if print_cost self && bool_decide (i `mod` 10 = 0) then
    match cost with
    | Some c => OK (parameters, v, cost, costs ++ [c], s)
    | None => Raise (UnboundLocalError "cost")
    end
  else OK (parameters, v, cost, costs, s).

(** The number of mini-batches of size [mb_size] that [m] examples
    give: the full ones and, if any example remains, a shorter last one *)
Definition num_mini_batches (m mb_size : nat) : nat :=
  m / mb_size + (if decide (m `mod` mb_size = 0) then 0 else 1).
End Training.

(** ** The module's global namespace as the file leaves it *)
Section ModuleGlobals.
Context {F : Type} `{Scalar F}.


(** A data frame without examples, for a network with one input *)
Definition empty_X : DataFrame F := {| columns := []; values := [[]] |}.
Definition empty_Y : Series F := {| s_index := []; s_values := [] |}.
End ModuleGlobals.

(** ** More sample inputs *)
Section MoreSamples.
Context {F : Type} `{Scalar F}.

(** A network with one input and two output units *)
Definition wide_parameters : gmap string (ndarray F) :=
  <["b1" := [[fzero]; [fzero]]]> (<["W1" := [[fone]; [fone]]]> ∅).

(** Labels for the first two examples of [sample_X] only *)
Definition short_Y : Series F :=
  {| s_index := [0; 1]; s_values := [fone; fzero] |}.

(** Caches of the network with one hidden unit for one example *)
Definition tiny_caches (x w1 b1 z1 a1 w2 b2 z2 : F)
  : list (ndarray F * ndarray F * ndarray F * ndarray F) :=
  [(([[x]], [[w1]], [[b1]]), [[z1]]); (([[a1]], [[w2]], [[b2]]), [[z2]])].

(** The network with one hidden unit, without momentum *)
Definition plain_net : NeuralNet F :=
  init [1; 1; 1] lit_0_01 1 fzero fzero true.
End MoreSamples.

(** ** One example of a batch *)
Section Examples.
Context {F : Type} `{Scalar F}.

(** [M[:, j:j+1]]: the j-th example of a batch, as a batch of one *)
Definition example (j : nat) (M : ndarray F) : ndarray F :=
  slice_cols j (j + 1) M.

(** W·A + b on lists, the bias column added to every column of W·A *)
Definition affine (W A b : ndarray F) : ndarray F :=
  zip_with (λ x y, map (λ a, fadd a (nth 0 y fzero)) x)
    (map (λ row, map (vdot row) (transpose A)) W) b.
End Examples.

(** ** Forward propagation in closed form

    What forward propagation computes when no step fails, written as a
    function of the input: the theorems below show that on well-shaped
    parameters [L_model_forward] returns exactly this. *)
Section ForwardTrace.
Context {F : Type} `{Scalar F}.

(** The two activations on one entry *)
Definition leaky_relu_scalar (z : F) : F :=
  if fle fzero z then z else fmul z lit_0_01.
Definition sigmoid_scalar (z : F) : F :=
  fdiv fone (fadd fone (fexp (fneg z))).

(** The bias of layer [l] *)
Definition biases (parameters : gmap string (ndarray F)) (l : nat)
  : ndarray F :=
  default [] (parameters !! key "b" l).

(** Inverted dropout of layer [l]: in training mode the activation is
    multiplied by the layer's mask and divided by its keep probability;
    in any other mode it is left as it is. *)
Definition dropout_formula (mode : string)
    (dropout_params : gmap string (ndarray bool) * list F) (l : nat)
    (A : ndarray F) : ndarray F :=
  if decide (mode = "train") then
    amap (λ a, fdiv a (nth l dropout_params.2 fzero))
      (zip_with (zip_with (λ x keep, fmul x (of_bool keep))) A
         (default [] (dropout_params.1 !! pretty l)))
  else A.

(** The activation and the caches after the hidden layers 1..k: layer
    k takes the activation A of layer k - 1 (the input X for k = 1),
    caches ((A, W_k, b_k), Z_k) with Z_k = W_k·A + b_k, and hands on
    the leaky ReLU of Z_k after dropout. *)
Fixpoint hidden_trace (parameters : gmap string (ndarray F))
    (dropout_params : gmap string (ndarray bool) * list F) (mode : string)
    (X : ndarray F) (k : nat)
  : ndarray F * list (ndarray F * ndarray F * ndarray F * ndarray F) :=
  match k with
  | 0 => (X, [])
  | S k' =>
      let '(A, caches) :=
        hidden_trace parameters dropout_params mode X k' in
      let W := weights parameters (S k') in
      let b := biases parameters (S k') in
      let Z := affine W A b in
      (dropout_formula mode dropout_params (S k')
         (amap leaky_relu_scalar Z),
       caches ++ [((A, W, b), Z)])
  end.

(** The output and the caches of a network with [L] layers: the hidden
    layers 1..L-1, then the output layer with the sigmoid. *)
Definition forward_trace (parameters : gmap string (ndarray F))
    (dropout_params : gmap string (ndarray bool) * list F) (mode : string)
    (X : ndarray F) (L : nat)
  : ndarray F * list (ndarray F * ndarray F * ndarray F * ndarray F) :=
  let '(A, caches) := hidden_trace parameters dropout_params mode X (L - 1) in
  let W := weights parameters L in
  let b := biases parameters L in
  let Z := affine W A b in
  (dropout_formula mode dropout_params L (amap sigmoid_scalar Z),
   caches ++ [((A, W, b), Z)]).
End ForwardTrace.


(** * Verification *)

(** ** Reasoning about fallible computations *)

Lemma bind_OK {A B} (m : result A) (f : A → result B) b :
  m ≫= f = OK b ↔ ∃ a, m = OK a ∧ f a = OK b.
Proof.
  destruct m as [a|e]; simpl; split.
  - eauto.
  - intros (a' & [= ->] & ?); done.
  - done.
  - intros (a' & ? & ?); done.
Qed.

Ltac inv_binds H :=
  repeat (apply bind_OK in H; destruct H as (? & ? & H);
          repeat case_match; simplify_eq).


Lemma for_each_app {A S} (xs ys : list A) (body : S → A → result S) acc :
  for_each (xs ++ ys) body acc = for_each xs body acc ≫= for_each ys body.
Proof.
  revert acc. induction xs as [|x xs IH]; simpl; intros acc; [done|].
  destruct (body acc x); simpl; [apply IH | done].
Qed.

Lemma OK_bind {A B} (a : A) (f : A → result B) : OK a ≫= f = f a.
Proof. reflexivity. Qed.

Lemma for_each_snoc {A S} (xs : list A) (x : A) (body : S → A → result S) acc :
  for_each (xs ++ [x]) body acc = for_each xs body acc ≫= λ a, body a x.
Proof.
  rewrite for_each_app. destruct (for_each xs body acc) as [a|e]; [|done].
  simpl. by destruct (body a x).
Qed.


(** ** Initialisation of short layer lists (C3) *)

(** C3, as the code behaves: for a [layerDims] argument with fewer than
    two entries the initialisation loop runs zero times, nothing is drawn
    from the random source, and the empty parameter dictionary is returned
    without any error. *)
Theorem init_params_short_layer_dims {F : Type} `{Scalar F}
    (ω : Entropy F) (n : list nat) (s : RandomState) :
  length n < 2 → init_params ω n s = OK (∅, s).
Proof.
  intros Hn. unfold init_params.
  replace (length n - 1) with 0 by lia. reflexivity.
Qed.

(** C3 as stated fails: with the single-entry list [5] the call returns
    normally. *)
Lemma init_params_single_entry_returns :
  length [5] < 2 ∧
  succeeds (init_params (F:=R) sample_entropy [5] fresh_state) = true.
Proof. split; [simpl; lia | reflexivity]. Qed.

(** ** Use before training (C4) *)

Section Untrained.
Context {F : Type} `{Scalar F}.

Lemma L_model_forward_no_parameters (X : ndarray F) dropout_params mode :
  L_model_forward X ∅ dropout_params mode = Raise (KeyError "W0").
Proof.
  unfold L_model_forward. rewrite map_size_empty. simpl.
  unfold getitem. rewrite lookup_empty. reflexivity.
Qed.

Lemma predict_no_parameters (self : NeuralNet F) X :
  trained_params self = ∅ → predict self X = Raise (KeyError "W0").
Proof.
  intros E. unfold predict.
  rewrite E, L_model_forward_no_parameters. reflexivity.
Qed.

(** [fit] assigns the attributes only when it returns. *)
Lemma fit_returns_fitted g ω (self : NeuralNet F) X Y mb s p self' s' :
  fit g ω self X Y mb s = OK (p, self', s') →
  fitted self' = true ∧ trained_params self' = p.
Proof.
  unfold fit. intros Hf. inv_binds Hf; done.
Qed.

Lemma unfitted_has_no_parameters (self : NeuralNet F) :
  reachable self → fitted self = false → trained_params self = ∅.
Proof.
  induction 1 as [|g ω self X Y mb s p self' s' _ _ Hfit]; [done|].
  apply fit_returns_fitted in Hfit as [-> _]. done.
Qed.
End Untrained.

(** C4: on an object on which no call of [fit] has completed, [predict]
    raises (the lookup of ['W0'] in the empty parameter dictionary fails)
    for every input, so no labels or probabilities are returned. *)
Theorem predict_before_fit_raises {F : Type} `{Scalar F}
    (self : NeuralNet F) (X : ndarray F) :
  reachable self → fitted self = false →
  predict self X = Raise (KeyError "W0").
Proof.
  intros Hr Hf. apply predict_no_parameters.
  by apply unfitted_has_no_parameters.
Qed.

(** ** One partition per training run (C2) *)

Section Partitioning.
Context {F : Type} `{Scalar F}.









End Partitioning.




(** ** Facts about arrays *)

Lemma stretch_id {A} (n : nat) (l : list A) : length l = n → stretch n l = l.
Proof. destruct l as [|x [|y l]]; simpl; intros <-; done. Qed.

Lemma has_shape_shape {A} (r c : nat) (M : ndarray A) :
  has_shape r c M → 0 < r → shape M = (r, c).
Proof.
  intros [Hr Hc] Hpos. unfold shape, nrows, ncols.
  destruct M as [|row M]; simpl in *; [lia|].
  apply Forall_cons in Hc as [-> _]. by rewrite Hr.
Qed.

Lemma has_shape_nrows {A} (r c : nat) (M : ndarray A) :
  has_shape r c M → nrows M = r.
Proof. by intros [Hr _]. Qed.

Lemma has_shape_ncols {A} (r c : nat) (M : ndarray A) :
  has_shape r c M → 0 < r → ncols M = c.
Proof. intros HM Hr. by apply has_shape_shape in HM as [= _ ->]. Qed.

Lemma has_shape_map {A B} (f : list A → list B) (r c c' : nat) (M : ndarray A) :
  (∀ row, length row = c → length (f row) = c') →
  has_shape r c M → has_shape r c' (map f M).
Proof.
  intros Hf [Hr Hc]. split; [by rewrite length_map|].
  apply Forall_fmap. eapply Forall_impl; [exact Hc|]. intros row. apply Hf.
Qed.

(** Rows side by side: every row of the result is the concatenation of
    the corresponding rows. *)
Lemma hstack_map {A} (gs : list (list A → list A)) (M : ndarray A) :
  hstack (map (λ g, map g M) gs) (length M)
  = map (λ row, concat (map (λ g, g row) gs)) M.
Proof.
  unfold hstack. induction gs as [|g gs IH]; simpl.
  - induction M as [|row M IHM]; simpl; [done | by rewrite IHM].
  - rewrite IH. clear IH.
    induction M as [|row M IHM]; simpl; [done | by rewrite IHM].
Qed.

(** Contiguous chunks of a list, put back together. *)
Lemma concat_full_chunks {A} (l : list A) (size k : nat) :
  concat (map (λ n, take ((n + 1) * size - n * size) (drop (n * size) l)) (seq 0 k))
  = take (k * size) l.
Proof.
  induction k as [|k IH].
  - simpl. by rewrite take_0.
  - rewrite seq_S, map_app, concat_app, IH. simpl.
    rewrite app_nil_r, take_take_drop. f_equal. lia.
Qed.

(** ** Label-based selection *)

Lemma positions_from_absent start labels q :
  q ∉ labels → positions_from start labels q = [].
Proof.
  revert start. induction labels as [|x labels IH]; simpl; intros start Hq; [done|].
  apply not_elem_of_cons in Hq as [Hne Hq].
  destruct (decide (x = q)); [done | by apply IH].
Qed.

Lemma positions_from_unique start labels q i :
  NoDup labels → labels !! i = Some q →
  positions_from start labels q = [start + i].
Proof.
  revert start i. induction labels as [|x labels IH]; simpl; intros start i Hnd Hi.
  - done.
  - apply NoDup_cons in Hnd as [Hx Hnd]. destruct i as [|i]; simpl in Hi.
    + simplify_eq. rewrite decide_True by done.
      rewrite positions_from_absent by done. f_equal. lia.
    + rewrite decide_False.
      * rewrite (IH (S start) i) by done. f_equal. lia.
      * intros ->. apply Hx. by eapply list_elem_of_lookup_2.
Qed.

Lemma get_indexer_unique labels wanted :
  NoDup labels → wanted ⊆ labels →
  ∃ idx, get_indexer labels wanted = OK idx ∧
         (λ i, labels !! i) <$> idx = Some <$> wanted.
Proof.
  intros Hnd. induction wanted as [|q qs IH]; intros Hsub; simpl.
  - by exists [].
  - destruct IH as (idx & -> & Hidx); [set_solver|].
    assert (q ∈ labels) as Hq by set_solver.
    apply list_elem_of_lookup in Hq as [i Hi].
    unfold positions. rewrite (positions_from_unique 0 labels q i) by done.
    simpl. exists (i :: idx). split; [done|]. by rewrite !fmap_cons, Hi, Hidx.
Qed.

(** The positions selected for a permutation of distinct labels are a
    permutation of all positions. *)
Lemma indexer_is_permutation (labels wanted idx : list nat) :
  NoDup labels → wanted ≡ₚ labels →
  (λ i, labels !! i) <$> idx = Some <$> wanted →
  idx ≡ₚ seq 0 (length labels).
Proof.
  intros Hnd Hperm Hidx.
  assert (length idx = length labels) as Hlen.
  { rewrite <- (length_fmap (λ i, labels !! i)), Hidx, length_fmap. by rewrite Hperm. }
  apply submseteq_length_Permutation; [|by rewrite length_seq, Hlen].
  apply NoDup_submseteq.
  - apply (NoDup_fmap_1 (λ i, labels !! i)). rewrite Hidx.
    apply (NoDup_fmap_2 _). by rewrite Hperm.
  - intros i Hi. apply elem_of_seq. split; [lia|]. simpl.
    assert (labels !! i ∈ (λ i, labels !! i) <$> idx) as Hin
      by (by apply (list_elem_of_fmap_2 (λ i, labels !! i))).
    rewrite Hidx in Hin. apply list_elem_of_fmap in Hin as (q & Hq & _).
    by eapply lookup_lt_Some.
Qed.

Lemma index_OK {A} (l : list A) (i : nat) (x : A) :
  l !! i = Some x → index l i = OK x.
Proof. unfold index. by intros ->. Qed.

Lemma mapM_result_cons {A B} (f : A → result B) (x : A) (l : list A) :
  mapM f (x :: l) = y ← f x; k ← mapM f l; OK (y :: k).
Proof. reflexivity. Qed.

Lemma mapM_index_OK {A} (row : list A) (idx : list nat) :
  Forall (λ i, i < length row) idx →
  ∃ out, mapM (index row) idx = OK out ∧ length out = length idx.
Proof.
  induction 1 as [|i idx Hi _ (out & Hout & Hlen)].
  - by exists [].
  - apply lookup_lt_is_Some_2 in Hi as [x Hx].
    rewrite mapM_result_cons, (index_OK _ _ _ Hx), Hout. simpl.
    exists (x :: out). by rewrite <- Hlen.
Qed.

Lemma take_cols_OK {A} (r c : nat) (M : ndarray A) (idx : list nat) :
  has_shape r c M → Forall (λ i, i < c) idx →
  ∃ S, take_cols idx M = OK S ∧ has_shape r (length idx) S.
Proof.
  intros [<- Hc] Hidx. unfold take_cols.
  induction M as [|row M IH].
  - exists []. by split.
  - apply Forall_cons in Hc as [Hrow Hc].
    destruct (mapM_index_OK row idx) as (out & Hrowout & Hout); [by rewrite Hrow|].
    destruct (IH Hc) as (S & HS & HS1 & HS2).
    rewrite mapM_result_cons, Hrowout, HS. simpl.
    exists (out :: S). split; [done|]. split; simpl; [by rewrite HS1|].
    by apply Forall_cons.
Qed.


(** ** Mini-batch partitioning (C5) *)

Lemma Forall2_seq_replicate {B} (P : B → nat → Prop) (f : nat → B) (k c : nat) :
  (∀ n, n < k → P (f n) c) → Forall2 P (map f (seq 0 k)) (replicate k c).
Proof.
  induction k as [|k IH]; intros Hf; [constructor|].
  rewrite seq_S, map_app, replicate_S_end. apply Forall2_app.
  - apply IH. intros n Hn. apply Hf. lia.
  - repeat constructor. apply Hf. lia.
Qed.

Lemma full_chunk_length {A} (row : list A) (mb n : nat) :
  n < length row / mb →
  length (take ((n + 1) * mb - n * mb) (drop (n * mb) row)) = mb.
Proof.
  intros Hn. rewrite length_take, length_drop.
  destruct (decide (mb = 0)) as [->|Hmb]; [lia|].
  pose proof (Nat.div_mod_eq (length row) mb).
  assert ((n + 1) * mb ≤ mb * (length row / mb)) by nia. lia.
Qed.

Lemma last_chunk_length {A} (row : list A) (mb : nat) :
  length (drop (length row / mb * mb) row) = length row `mod` mb.
Proof.
  rewrite length_drop. pose proof (Nat.div_mod_eq (length row) mb). lia.
Qed.

Lemma chunks_cover {A} (row : list A) (mb : nat) :
  concat (map (λ g, g row)
            (map (λ n (r : list A), take ((n + 1) * mb - n * mb) (drop (n * mb) r))
               (seq 0 (length row / mb))
             ++ [drop (length row / mb * mb)]))
  = row.
Proof.
  rewrite map_app, concat_app, map_map, concat_full_chunks. simpl.
  by rewrite app_nil_r, take_drop.
Qed.

Lemma chunks_cover_exact {A} (row : list A) (mb : nat) :
  length row `mod` mb = 0 →
  concat (map (λ g, g row)
            (map (λ n (r : list A), take ((n + 1) * mb - n * mb) (drop (n * mb) r))
               (seq 0 (length row / mb))))
  = row.
Proof.
  intros Hrem. rewrite map_map, concat_full_chunks.
  apply take_ge. pose proof (Nat.div_mod_eq (length row) mb). lia.
Qed.

Section Partition.
Context {F : Type} `{Scalar F}.

(** What the slicing loop of [init_mini_batches] builds from the
    shuffled arrays. *)
Lemma slices_cover (r m mb : nat) (SX SY : ndarray F) :
  has_shape r m SX → has_shape 1 m SY →
  let full := map (λ n,
      (slice_cols (n * mb) ((n + 1) * mb) SX,
       slice_cols (n * mb) ((n + 1) * mb) SY)) (seq 0 (m / mb)) in
  let mini_batches :=
    if decide (m `mod` mb ≠ 0)
    then full ++ [(slice_cols_from (m / mb * mb) SX,
                   slice_cols_from (m / mb * mb) SY)]
    else full in
  hstack (mini_batches.*1) r = SX ∧
  hstack (mini_batches.*2) 1 = SY ∧
  Forall2 (λ batch k, has_shape r k batch.1 ∧ has_shape 1 k batch.2)
    mini_batches
    (replicate (m / mb) mb
     ++ (if decide (m `mod` mb = 0) then [] else [m `mod` mb])).
Proof.
  intros HX HY full mini_batches.
  set (gs := map (λ n (row : list F),
                take ((n + 1) * mb - n * mb) (drop (n * mb) row))
               (seq 0 (m / mb))).
  assert (full.*1 = map (λ g, map g SX) gs) as Hfull1.
  { unfold full, gs. rewrite <- list_fmap_compose, map_map. done. }
  assert (full.*2 = map (λ g, map g SY) gs) as Hfull2.
  { unfold full, gs. rewrite <- list_fmap_compose, map_map. done. }
  assert (∀ (k : nat) (M : ndarray F), has_shape k m M →
            map (λ row, concat (map (λ g, g row) (gs ++ [drop (m / mb * mb)]))) M = M)
    as Hcover.
  { intros k M [_ HM]. rewrite <- (map_id M) at 2. apply map_ext_Forall.
    eapply Forall_impl; [exact HM|]. intros row Hrow. unfold gs.
    rewrite <- Hrow. apply chunks_cover. }
  assert (m `mod` mb = 0 → ∀ (k : nat) (M : ndarray F), has_shape k m M →
            map (λ row, concat (map (λ g, g row) gs)) M = M)
    as Hexact.
  { intros Hrem k M [_ HM]. rewrite <- (map_id M) at 2. apply map_ext_Forall.
    eapply Forall_impl; [exact HM|]. intros row Hrow. unfold gs.
    rewrite <- Hrow in Hrem |- *. by apply chunks_cover_exact. }
  assert (Forall2 (λ batch k, has_shape r k batch.1 ∧ has_shape 1 k batch.2)
            full (replicate (m / mb) mb)) as Hsizes.
  { apply Forall2_seq_replicate. intros n Hn. simpl. split.
    - eapply has_shape_map; [|exact HX]. intros row Hrow.
      rewrite <- Hrow in Hn. by apply full_chunk_length.
    - eapply has_shape_map; [|exact HY]. intros row Hrow.
      rewrite <- Hrow in Hn. by apply full_chunk_length. }
  unfold mini_batches. destruct (decide (m `mod` mb ≠ 0)) as [Hrem|Hrem].
  - rewrite decide_False by done.
    rewrite !fmap_app, Hfull1, Hfull2. simpl.
    change ([slice_cols_from (m / mb * mb) SX])
      with (map (λ g : list F → list F, map g SX) [drop (m / mb * mb)]).
    change ([slice_cols_from (m / mb * mb) SY])
      with (map (λ g : list F → list F, map g SY) [drop (m / mb * mb)]).
    rewrite <- !map_app.
    destruct HX as [HXr HXc]; destruct HY as [HYr HYc].
    rewrite <- HXr at 1. rewrite <- HYr at 1. rewrite !hstack_map.
    split; [by apply (Hcover r)|]. split; [by apply (Hcover 1)|].
    apply Forall2_app; [done|]. constructor; [|constructor]. simpl. split.
    + eapply has_shape_map; [|by split]. intros row Hrow.
      rewrite <- Hrow. apply last_chunk_length.
    + eapply has_shape_map; [|by split]. intros row Hrow.
      rewrite <- Hrow. apply last_chunk_length.
  - apply dec_stable in Hrem. rewrite decide_True by done.
    rewrite Hfull1, Hfull2, app_nil_r.
    destruct HX as [HXr HXc]; destruct HY as [HYr HYc].
    rewrite <- HXr at 1. rewrite <- HYr at 1. rewrite !hstack_map.
    split; [by apply (Hexact Hrem r)|]. split; [by apply (Hexact Hrem 1)|].
    done.
Qed.
End Partition.

(** C5: given a legitimate permutation source, distinct column labels
    shared by X (numFeatures x m) and Y (m labels), and a positive batch
    size, [init_mini_batches] returns batches such that, for one
    permutation [π] of the positions 0..m-1, the batches' X parts put side
    by side are the columns of X in the order [π] and their Y parts put
    side by side are the labels of Y in the same order [π]; so every
    example occurs exactly once, next to its own label.  The first
    [m / mb_size] batches have exactly [mb_size] columns, and when
    [m mod mb_size] is not zero one more batch holds that remainder. *)
Theorem init_mini_batches_partition {F : Type} `{Scalar F} (ω : Entropy F)
    (X : DataFrame F) (y : Series F) (mb_size r : nat) (s : RandomState) :
  permutes ω →
  NoDup (columns X) →
  s_index y = columns X →
  length (s_values y) = length (columns X) →
  has_shape r (length (columns X)) (values X) →
  0 < mb_size →
  ∃ mini_batches s' π,
    init_mini_batches ω X y mb_size s = OK (mini_batches, s') ∧
    π ≡ₚ seq 0 (length (columns X)) ∧
    take_cols π (values X) = OK (hstack (mini_batches.*1) r) ∧
    take_cols π [s_values y] = OK (hstack (mini_batches.*2) 1) ∧
    Forall2 (λ batch k, has_shape r k batch.1 ∧ has_shape 1 k batch.2)
      mini_batches
      (replicate (length (columns X) / mb_size) mb_size
       ++ (if decide (length (columns X) `mod` mb_size = 0) then []
           else [length (columns X) `mod` mb_size])).
Proof.
  intros Hω Hnd Hidx Hylen HX Hmb.
  set (m := length (columns X)) in *.
  set (perm := permutation_sample ω (permutation_calls s) (columns X)).
  assert (perm ≡ₚ columns X) as Hperm by apply Hω.
  destruct (get_indexer_unique (columns X) perm) as (π & Hget & Hπ);
    [done | by intros q; rewrite Hperm |].
  pose proof (indexer_is_permutation _ _ _ Hnd Hperm Hπ) as Hπperm.
  fold m in Hπperm.
  assert (Forall (λ i, i < m) π) as Hbound.
  { rewrite Hπperm. apply Forall_forall. intros i Hi%elem_of_seq. lia. }
  assert (length π = m) as Hπlen by (by rewrite Hπperm, length_seq).
  destruct (take_cols_OK r m (values X) π) as (SX & HSX & HSXshape); [done..|].
  destruct (take_cols_OK 1 m [s_values y] π) as (SY & HSY & HSYshape);
    [by split; [|repeat constructor] | done |].
  rewrite Hπlen in HSXshape, HSYshape.
  assert (∃ ys, mapM (index (s_values y)) π = OK ys ∧ SY = [ys]) as (ys & Hys & ->).
  { unfold take_cols in HSY. rewrite mapM_result_cons in HSY.
    destruct (mapM (index (s_values y)) π) as [ys|]; simpl in HSY; [|done].
    exists ys. split; [done|]. by simplify_eq. }
  assert (length ys = m) as Hyslen.
  { destruct HSYshape as [_ Hrow]. by apply Forall_cons in Hrow as [? _]. }
  destruct (slices_cover r m mb_size SX [ys] HSXshape HSYshape)
    as (Hst1 & Hst2 & Hsizes).
  eexists _, _, π. split; [|split; [done|]].
  - unfold init_mini_batches, permutation. fold perm. fold m.
    unfold loc_columns, series_getitem. rewrite Hidx, Hget. simpl.
    rewrite HSX, Hys. simpl.
    unfold reshape. simpl. rewrite app_nil_r, Hyslen, Nat.add_0_r.
    rewrite decide_True by done. simpl.
    rewrite (take_ge ys m) by lia.
    rewrite decide_False by lia. reflexivity.
  - rewrite HSX, HSY. split; [f_equal; symmetry; exact Hst1|].
    split; [f_equal; symmetry; exact Hst2|]. exact Hsizes.
Qed.


(** ** Dictionary keys *)

Lemma key_inj (prefix : string) (i j : nat) :
  key prefix i = key prefix j → i = j.
Proof.
  unfold key. intros Heq. apply (inj pretty).
  induction prefix as [|a prefix IH]; simpl in Heq; [done|].
  apply IH. by simplify_eq.
Qed.

Lemma key_dW_db (i j : nat) : key "dW" i ≠ key "db" j.
Proof. unfold key. cbn. intros [=]. Qed.

Lemma key_W_b (i j : nat) : key "W" i ≠ key "b" j.
Proof. unfold key. cbn. intros [=]. Qed.

Ltac key_ne :=
  first [ apply key_W_b | apply key_dW_db
        | apply not_eq_sym; apply key_W_b | apply not_eq_sym; apply key_dW_db
        | intros ?%key_inj; lia
        | done ].

Lemma getitem_OK {V} (d : gmap string V) (k : string) (x : V) :
  d !! k = Some x → getitem d k = OK x.
Proof. unfold getitem. by intros ->. Qed.

(** ** Elementwise operations on arrays of one shape *)

Lemma zip_with_ext_Forall {A B C} (f g : A → B → C) (P : A → Prop) (Q : B → Prop)
    (l : list A) (k : list B) :
  (∀ x y, P x → Q y → f x y = g x y) →
  Forall P l → Forall Q k → zip_with f l k = zip_with g l k.
Proof.
  intros Hfg Hl. revert k. induction Hl as [|x l Hx _ IH]; intros k Hk; [done|].
  destruct Hk as [|y k Hy Hk]; simpl; [done|]. by rewrite Hfg, IH.
Qed.

Lemma has_shape_zip_with {A B C} (f : A → B → C) (r c : nat)
    (M : ndarray A) (N : ndarray B) :
  has_shape r c M → has_shape r c N →
  has_shape r c (zip_with (zip_with f) M N).
Proof.
  intros [HMr HMc] [HNr HNc]. split.
  - rewrite length_zip_with. lia.
  - clear HMr HNr. revert N HNc.
    induction HMc as [|x M Hx _ IH]; intros N HN; [constructor|].
    destruct HN as [|y N Hy HN]; simpl; constructor; [|by apply IH].
    rewrite length_zip_with. lia.
Qed.

Lemma has_shape_same_shape {A B} (r c : nat) (M : ndarray A) (N : ndarray B) :
  has_shape r c M → has_shape r c N → shape M = shape N.
Proof.
  intros HM HN. destruct (decide (r = 0)) as [->|Hr].
  - destruct HM as [HM _], HN as [HN _].
    apply length_zero_iff_nil in HM, HN. by subst.
  - rewrite (has_shape_shape r c M), (has_shape_shape r c N) by (done || lia).
    done.
Qed.

Lemma broadcast_dim_same (n : nat) : broadcast_dim n n = OK n.
Proof. unfold broadcast_dim. by rewrite decide_True. Qed.

Lemma broadcast2_same_shape {A B C} (f : A → B → C) (r c : nat)
    (M : ndarray A) (N : ndarray B) :
  has_shape r c M → has_shape r c N →
  broadcast2 f M N = OK (zip_with (zip_with f) M N).
Proof.
  intros HM HN. unfold broadcast2.
  pose proof (has_shape_same_shape r c M N HM HN) as [= Hr Hc].
  rewrite <- Hr, <- Hc, !broadcast_dim_same. simpl. f_equal.
  destruct HM as [HMr HMc], HN as [HNr HNc].
  rewrite !stretch_id by (unfold nrows in *; lia).
  destruct M as [|x M]; [done|].
  apply Forall_cons in HMc as [Hx HMc'].
  eapply (zip_with_ext_Forall _ _ (λ row, length row = c) (λ row, length row = c)).
  - intros u w Hu Hw. simpl. by rewrite !stretch_id by lia.
  - by constructor.
  - done.
Qed.

Section Elementwise.
Context {F : Type} `{Scalar F}.

Lemma has_shape_amap (f : F → F) (r c : nat) (M : ndarray F) :
  has_shape r c M → has_shape r c (amap f M).
Proof.
  apply has_shape_map. intros row Hrow. by rewrite length_map.
Qed.

Lemma zip_with_amap (f : F → F → F) (g h : F → F) (M N : ndarray F) :
  zip_with (zip_with f) (amap g M) (amap h N)
  = elementwise (λ x y, f (g x) (h y)) M N.
Proof.
  unfold elementwise, amap. revert N.
  induction M as [|x M IH]; intros [|y N]; simpl; [done..|].
  rewrite IH. f_equal.
  change (map g x) with (g <$> x). change (map h y) with (h <$> y).
  by rewrite zip_with_fmap_l, zip_with_fmap_r.
Qed.

Lemma zip_with_amap_r (f : F → F → F) (h : F → F) (M N : ndarray F) :
  zip_with (zip_with f) M (amap h N) = elementwise (λ x y, f x (h y)) M N.
Proof.
  unfold elementwise, amap. revert N.
  induction M as [|x M IH]; intros [|y N]; simpl; [done..|].
  rewrite IH. f_equal.
  change (map h y) with (h <$> y). by rewrite zip_with_fmap_r.
Qed.

Lemma has_shape_elementwise (f : F → F → F) (r c : nat) (M N : ndarray F) :
  has_shape r c M → has_shape r c N → has_shape r c (elementwise f M N).
Proof. apply has_shape_zip_with. Qed.

Lemma elementwise_ext (f g : F → F → F) (M N : ndarray F) :
  (∀ x y, f x y = g x y) → elementwise f M N = elementwise g M N.
Proof.
  intros Hfg. unfold elementwise.
  apply (zip_with_ext_Forall _ _ (λ _, True) (λ _, True));
    [|by apply Forall_true..].
  intros u w _ _.
  apply (zip_with_ext_Forall _ _ (λ _, True) (λ _, True));
    [auto | by apply Forall_true..].
Qed.

Lemma momentum_step_same_shape (self : NeuralNet F) (r c : nat) (V G : ndarray F) :
  has_shape r c V → has_shape r c G →
  momentum_step self V G = OK (momentum_formula (beta self) V G).
Proof.
  intros HV HG. unfold momentum_step.
  rewrite (broadcast2_same_shape _ r c) by (by apply has_shape_amap).
  by rewrite zip_with_amap.
Qed.

Lemma isub_same_shape (r c : nat) (M N : ndarray F) :
  has_shape r c M → has_shape r c N →
  isub M N = OK (elementwise fsub M N).
Proof.
  intros HM HN. unfold isub.
  rewrite (broadcast2_same_shape _ r c) by done. simpl.
  rewrite decide_True; [done|].
  apply (has_shape_same_shape r c); [|done]. by apply has_shape_zip_with.
Qed.
End Elementwise.


(** ** Gradient descent with momentum (C6) *)

Section Update.
Implicit Types parameters grads v : gmap string (ndarray R).

(** [W -= v*lr] on arrays of one shape *)
Lemma descent_same_shape (r c : nat) (lr : R) (W V : ndarray R) :
  has_shape r c W → has_shape r c V →
  isub W (amap (λ x, fmul x lr) V) = OK (descent_formula lr W V).
Proof.
  intros HW HV.
  rewrite (isub_same_shape r c) by (done || by apply has_shape_amap).
  f_equal. unfold elementwise at 1. rewrite zip_with_amap_r.
  apply elementwise_ext. intros x y. simpl. f_equal. apply Rmult_comm.
Qed.

Lemma update_layer_OK (self : NeuralNet R) parameters grads v (lr : R) (l : nat)
    (W b gW gb vW vb : ndarray R) (r c : nat) :
  parameters !! key "W" (l + 1) = Some W →
  parameters !! key "b" (l + 1) = Some b →
  grads !! key "dW" (l + 1) = Some gW →
  grads !! key "db" (l + 1) = Some gb →
  v !! key "dW" (l + 1) = Some vW →
  v !! key "db" (l + 1) = Some vb →
  has_shape r c W → has_shape r c gW → has_shape r c vW →
  has_shape r 1 b → has_shape r 1 gb → has_shape r 1 vb →
  update_layer self grads lr (parameters, v) l
  = OK (<[key "b" (l + 1) :=
            descent_formula lr b (momentum_formula (beta self) vb gb)]>
          (<[key "W" (l + 1) :=
               descent_formula lr W (momentum_formula (beta self) vW gW)]>
             parameters),
        <[key "db" (l + 1) := momentum_formula (beta self) vb gb]>
          (<[key "dW" (l + 1) := momentum_formula (beta self) vW gW]> v)).
Proof.
  intros HW Hb HgW Hgb HvW Hvb SW SgW SvW Sb Sgb Svb.
  pose proof (key_dW_db (l + 1) (l + 1)) as Hne.
  pose proof (key_W_b (l + 1) (l + 1)) as Hne'.
  unfold update_layer.
  rewrite (getitem_OK v _ _ HvW), (getitem_OK grads _ _ HgW). simpl.
  rewrite (momentum_step_same_shape self r c) by done. simpl.
  rewrite (getitem_OK (<[_ := _]> v) _ vb) by (by rewrite lookup_insert_ne).
  rewrite (getitem_OK grads _ _ Hgb).
  simpl. rewrite (momentum_step_same_shape self r 1) by done. simpl.
  rewrite (getitem_OK parameters _ _ HW). simpl.
  rewrite (getitem_OK (<[_ := _]> (<[_ := _]> v)) (key "dW" (l + 1))
             (momentum_formula (beta self) vW gW))
    by (by rewrite lookup_insert_ne, lookup_insert_eq).
  simpl. rewrite (descent_same_shape r c)
    by (done || by apply has_shape_elementwise).
  simpl.
  rewrite (getitem_OK (<[_ := _]> parameters) _ b)
    by (by rewrite lookup_insert_ne).
  simpl.
  rewrite (getitem_OK (<[_ := _]> (<[_ := _]> v)) (key "db" (l + 1))
             (momentum_formula (beta self) vb gb))
    by (by rewrite lookup_insert_eq).
  simpl. rewrite (descent_same_shape r 1)
    by (done || by apply has_shape_elementwise).
  reflexivity.
Qed.

Lemma update_loop (self : NeuralNet R) parameters grads v (lr : R) (L k : nat) :
  stores_match L parameters grads v → k ≤ L →
  ∃ parameters' v',
    for_each (seq 0 k) (update_layer self grads lr) (parameters, v)
    = OK (parameters', v') ∧
    (∀ l, 1 ≤ l ≤ k →
       layer_updated (beta self) lr parameters grads v parameters' v' l) ∧
    (∀ name, (∀ l, 1 ≤ l ≤ k → name ≠ key "W" l ∧ name ≠ key "b" l) →
       parameters' !! name = parameters !! name) ∧
    (∀ name, (∀ l, 1 ≤ l ≤ k → name ≠ key "dW" l ∧ name ≠ key "db" l) →
       v' !! name = v !! name).
Proof.
  intros Hstores. induction k as [|k IH]; intros Hk.
  - exists parameters, v. split; [done|]. split; [intros; lia|]. done.
  - destruct IH as (pk & vk & Hrun & Hlayers & Hframe_p & Hframe_v); [lia|].
    destruct (Hstores (k + 1)) as
      (W & b & gW & gb & vW & vb & r & c & HW & Hb & HgW & Hgb & HvW & Hvb
         & SW & SgW & SvW & Sb & Sgb & Svb); [lia|].
    assert (∀ l, 1 ≤ l ≤ k → k + 1 ≠ l) as Hfresh by (intros; lia).
    rewrite seq_S, for_each_snoc, Hrun, OK_bind. simpl "+".
    rewrite (update_layer_OK self pk grads vk lr k W b gW gb vW vb r c);
      [|rewrite ?Hframe_p, ?Hframe_v; try done; intros l Hl; split; key_ne ..].
    eexists _, _. split; [done|]. split; [|split].
    + intros l Hl W' b' gW' gb' vW' vb' HW' Hb' HgW' Hgb' HvW' Hvb'.
      destruct (decide (l = k + 1)) as [->|Hne].
      * simplify_eq.
        rewrite (lookup_insert_ne _ (key "db" _) (key "dW" _)) by key_ne.
        rewrite !lookup_insert_eq.
        rewrite (lookup_insert_ne _ (key "b" _) (key "W" _)) by key_ne.
        by rewrite lookup_insert_eq.
      * rewrite !lookup_insert_ne by key_ne.
        apply (Hlayers l); [lia | done..].
    + intros name Hname.
      destruct (Hname (k + 1)) as [? ?]; [lia|].
      rewrite !lookup_insert_ne by done.
      apply Hframe_p. intros l Hl. apply Hname. lia.
    + intros name Hname.
      destruct (Hname (k + 1)) as [? ?]; [lia|].
      rewrite !lookup_insert_ne by done.
      apply Hframe_v. intros l Hl. apply Hname. lia.
Qed.
End Update.

(** C6: when every layer's parameters, gradients and momentum have
    matching shapes, one call of [update_params] returns stores in which,
    for each layer l in 1..L, the momentum of the weights and of the
    biases is beta·momentum + (1 − beta)·gradient, elementwise, and the
    weights and biases are parameter − learningRate·(new momentum),
    elementwise; every other entry of the two stores is as before. *)
Theorem update_params_momentum (self : NeuralNet R)
    (parameters grads v : gmap string (ndarray R)) (lr : R) :
  stores_match (size parameters / 2) parameters grads v →
  ∃ parameters' v',
    update_params self parameters grads v lr = OK (parameters', v') ∧
    (∀ l, 1 ≤ l ≤ size parameters / 2 →
       layer_updated (beta self) lr parameters grads v parameters' v' l) ∧
    (∀ name,
       (∀ l, 1 ≤ l ≤ size parameters / 2 →
          name ≠ key "W" l ∧ name ≠ key "b" l) →
       parameters' !! name = parameters !! name) ∧
    (∀ name,
       (∀ l, 1 ≤ l ≤ size parameters / 2 →
          name ≠ key "dW" l ∧ name ≠ key "db" l) →
       v' !! name = v !! name).
Proof.
  intros Hstores. unfold update_params.
  by apply (update_loop self parameters grads v lr (size parameters / 2)).
Qed.


(** ** Entries of arrays *)

Section Entries.
Context {F : Type} `{Scalar F}.

Lemma big_sum_ext (f g : nat → F) (n : nat) :
  (∀ t, t < n → f t = g t) → big_sum f n = big_sum g n.
Proof.
  induction n as [|n IH]; intros Hfg; simpl; [done|].
  rewrite IH, Hfg by (intros; auto with lia). done.
Qed.

Lemma fsum_snoc (l : list F) (x : F) : fsum (l ++ [x]) = fadd (fsum l) x.
Proof. unfold fsum. by rewrite foldl_app. Qed.

Lemma fsum_big_sum (l : list F) :
  fsum l = big_sum (λ t, nth t l fzero) (length l).
Proof.
  induction l as [|x l IH] using rev_ind; [done|].
  rewrite fsum_snoc, length_app, Nat.add_1_r. simpl.
  rewrite IH. f_equal.
  - apply big_sum_ext. intros t Ht. by rewrite app_nth1.
  - by rewrite app_nth2, Nat.sub_diag by lia.
Qed.

Lemma nth_zip_with (f : F → F → F) (u v : list F) (t : nat) (d : F) :
  t < length u → t < length v →
  nth t (zip_with f u v) d = f (nth t u d) (nth t v d).
Proof.
  revert t v. induction u as [|x u IH]; intros t [|y v]; simpl; try lia.
  destruct t as [|t]; intros ??; [done|]. apply IH; lia.
Qed.

Lemma vdot_big_sum (u v : list F) (n : nat) :
  length u = n → length v = n →
  vdot u v = big_sum (λ t, fmul (nth t u fzero) (nth t v fzero)) n.
Proof.
  intros Hu Hv. unfold vdot. rewrite fsum_big_sum, length_zip_with.
  replace (length u `min` length v) with n by lia.
  apply big_sum_ext. intros t Ht. apply nth_zip_with; lia.
Qed.

Lemma nth_row_map {A B} (f : list A → list B) (M : ndarray A) (i : nat) :
  i < length M → nth i (map f M) [] = f (nth i M []).
Proof.
  intros Hi. rewrite (nth_indep _ [] (f [])) by (by rewrite length_map).
  apply map_nth.
Qed.

Lemma row_length (r c : nat) (M : ndarray F) (i : nat) :
  has_shape r c M → i < r → length (nth i M []) = c.
Proof.
  intros [Hr Hc] Hi. rewrite Forall_forall in Hc. apply Hc.
  apply list_elem_of_In, nth_In. lia.
Qed.

Lemma entry_amap (f : F → F) (r c : nat) (M : ndarray F) (i j : nat) :
  has_shape r c M → i < r → j < c →
  entry (amap f M) i j = f (entry M i j).
Proof.
  intros HM Hi Hj. unfold entry, amap.
  rewrite nth_row_map by (destruct HM; lia).
  rewrite (nth_indep _ fzero (f fzero))
    by (rewrite length_map, (row_length r c); done).
  apply map_nth.
Qed.

Lemma entry_elementwise (f : F → F → F) (r c : nat) (M N : ndarray F) (i j : nat) :
  has_shape r c M → has_shape r c N → i < r → j < c →
  entry (elementwise f M N) i j = f (entry M i j) (entry N i j).
Proof.
  intros HM HN Hi Hj. unfold entry, elementwise.
  assert (nth i (zip_with (zip_with f) M N) []
          = zip_with f (nth i M []) (nth i N [])) as ->.
  { destruct HM as [HMr _], HN as [HNr _]. clear Hj. revert i N r HMr HNr Hi.
    induction M as [|x M IH]; intros i [|y N] r; simpl; intros; try lia.
    destruct i as [|i]; [done|]. apply (IH i N (pred r)); lia. }
  apply nth_zip_with; by rewrite (row_length r c).
Qed.

Lemma column_length (j : nat) (M : ndarray F) : length (column j M) = length M.
Proof. unfold column. by rewrite length_map. Qed.

Lemma nth_column (j t : nat) (M : ndarray F) :
  nth t (column j M) fzero = entry M t j.
Proof.
  unfold column, entry.
  rewrite <- (map_nth (λ row : list F, nth j row fzero) M [] t).
  by destruct j.
Qed.

(** [M.T]: shape and entries *)
Lemma has_shape_transpose (r c : nat) (M : ndarray F) :
  has_shape r c M → 0 < r → has_shape c r (transpose M).
Proof.
  intros HM Hr. unfold transpose. rewrite (has_shape_ncols r c) by done.
  split; [by rewrite length_map, length_seq|].
  apply Forall_fmap, Forall_forall. intros j _. simpl.
  rewrite column_length. by destruct HM.
Qed.

Lemma nth_transpose (r c : nat) (M : ndarray F) (j : nat) :
  has_shape r c M → 0 < r → j < c →
  nth j (transpose M) [] = column j M.
Proof.
  intros HM Hr Hj. unfold transpose. rewrite (has_shape_ncols r c) by done.
  rewrite (nth_indep _ [] (column 0 M)) by (by rewrite length_map, length_seq).
  rewrite (map_nth (λ j, column j M)). by rewrite seq_nth.
Qed.

Lemma entry_transpose (r c : nat) (M : ndarray F) (i j : nat) :
  has_shape r c M → 0 < r → j < c →
  entry (transpose M) j i = entry M i j.
Proof.
  intros HM Hr Hj. unfold entry at 1.
  rewrite (nth_transpose r c) by done. apply nth_column.
Qed.

(** [cp.dot]: success, shape and entries *)
Lemma dot_OK (a b c : nat) (M N : ndarray F) :
  has_shape a b M → has_shape b c N → 0 < a → 0 < b →
  ∃ P, dot M N = OK P ∧ has_shape a c P ∧
       ∀ i j, i < a → j < c →
         entry P i j = big_sum (λ t, fmul (entry M i t) (entry N t j)) b.
Proof.
  intros HM HN Ha Hb. unfold dot.
  rewrite (has_shape_ncols a b M), (has_shape_nrows b c N) by done.
  rewrite decide_True by done. eexists. split; [done|].
  pose proof (has_shape_transpose b c N HN Hb) as [HTr HTc].
  split.
  - eapply has_shape_map; [|exact HM]. intros row _.
    by rewrite length_map.
  - intros i j Hi Hj. unfold entry at 1.
    rewrite nth_row_map by (destruct HM; lia).
    rewrite (nth_indep _ fzero (vdot (nth i M []) []))
      by (by rewrite length_map, HTr).
    rewrite (map_nth (vdot (nth i M []))).
    rewrite (nth_transpose b c) by done.
    rewrite (vdot_big_sum _ _ b);
      [|by apply (row_length a b) | rewrite column_length; by destruct HN].
    apply big_sum_ext. intros t Ht. by rewrite nth_column.
Qed.
End Entries.

(** ** The linear part of backward propagation (C7) *)

Section LinearBack.
Context {F : Type} `{Scalar F}.

Lemma py_assert_true (P : Prop) `{Decision P} :
  P → py_assert (bool_decide P) = OK tt.
Proof. intros HP. by rewrite bool_decide_eq_true_2. Qed.

Lemma has_shape_sum_axis1 (r c : nat) (M : ndarray F) :
  has_shape r c M → has_shape r 1 (sum_axis1 M).
Proof. apply has_shape_map. done. Qed.

Lemma entry_sum_axis1 (r c : nat) (M : ndarray F) (i : nat) :
  has_shape r c M → i < r →
  entry (sum_axis1 M) i 0 = big_sum (λ t, entry M i t) c.
Proof.
  intros HM Hi. unfold entry at 1, sum_axis1.
  rewrite nth_row_map by (destruct HM; lia). simpl.
  rewrite fsum_big_sum. by rewrite (row_length r c).
Qed.
End LinearBack.

(** C7: for arrays of matching shapes — [dZ] of shape (n, m), the cached
    [A_prev] of shape (k, m) and [W] of shape (n, k), with positive n, k
    and batch size m — the linear-backward step returns
    dW = (dZ·A_prev^T)/m + (lambda·W)/m, db = the row sums of dZ over the
    example axis divided by m, and dA_prev = W^T·dZ, entry by entry. *)
Theorem linear_back_formulas {F : Type} `{Scalar F} (self : NeuralNet F)
    (dZ A_prev W b : ndarray F) (n k m : nat) :
  0 < n → 0 < k → 0 < m →
  has_shape n m dZ → has_shape k m A_prev → has_shape n k W →
  ∃ dA_prev dW db,
    linear_back self dZ (A_prev, W, b) = OK (dA_prev, dW, db) ∧
    has_shape k m dA_prev ∧ has_shape n k dW ∧ has_shape n 1 db ∧
    (∀ i j, i < n → j < k →
       entry dW i j = dW_formula (lambd self) dZ A_prev W m i j) ∧
    (∀ i, i < n → entry db i 0 = db_formula dZ m i) ∧
    (∀ j t, j < k → t < m →
       entry dA_prev j t = dA_prev_formula W dZ n j t).
Proof.
  intros Hn Hk Hm SdZ SA SW.
  pose proof (has_shape_transpose k m A_prev SA Hk) as SAT.
  pose proof (has_shape_transpose n k W SW Hn) as SWT.
  destruct (dot_OK n m k dZ (transpose A_prev)) as (g & Hg & Sg & Eg); [done..|].
  destruct (dot_OK k n m (transpose W) dZ) as (dA & HdA & SdA & EdA); [done..|].
  unfold linear_back. rewrite (has_shape_ncols k m A_prev) by done.
  rewrite Hg, OK_bind.
  rewrite (broadcast2_same_shape _ n k) by (by apply has_shape_amap).
  rewrite OK_bind, HdA, OK_bind, zip_with_amap.
  rewrite (py_assert_true (shape dA = shape A_prev))
    by (by apply (has_shape_same_shape k m)).
  rewrite OK_bind, (py_assert_true (shape (elementwise _ g W) = shape W))
    by (apply (has_shape_same_shape n k); [by apply has_shape_elementwise|done]).
  rewrite OK_bind. eexists _, _, _. split; [done|].
  split; [done|]. split; [by apply has_shape_elementwise|].
  split; [by apply has_shape_amap, (has_shape_sum_axis1 n m)|].
  split; [|split].
  - intros i j Hi Hj. rewrite (entry_elementwise _ n k) by done.
    unfold dW_formula. rewrite Eg by done. do 2 f_equal.
    apply big_sum_ext. intros t Ht. by rewrite (entry_transpose k m).
  - intros i Hi.
    rewrite (entry_amap _ n 1)
      by (done || lia || by apply (has_shape_sum_axis1 n m)).
    by rewrite (entry_sum_axis1 n m).
  - intros j t Hj Ht. rewrite EdA by done. unfold dA_prev_formula.
    apply big_sum_ext. intros i Hi. by rewrite (entry_transpose n k).
Qed.


(** ** Forward propagation on well-shaped parameters *)

Lemma Forall_zip_with {A B C} (g : A → B → C) (P : A → Prop) (Q : B → Prop)
    (R : C → Prop) (l : list A) (k : list B) :
  (∀ x y, P x → Q y → R (g x y)) →
  Forall P l → Forall Q k → Forall R (zip_with g l k).
Proof.
  intros Hg Hl. revert k. induction Hl as [|x l Hx _ IH]; intros k Hk; [constructor|].
  destruct Hk as [|y k Hy Hk]; simpl; constructor; auto.
Qed.

(** Adding a column vector to every column of an array. *)
Lemma broadcast2_column {A B C} (f : A → B → C) (r c : nat)
    (M : ndarray A) (N : ndarray B) :
  has_shape r c M → has_shape r 1 N → 0 < r →
  ∃ P, broadcast2 f M N = OK P ∧ has_shape r c P.
Proof.
  intros HM HN Hr. unfold broadcast2.
  rewrite (has_shape_nrows r c M), (has_shape_nrows r 1 N) by done.
  rewrite (has_shape_ncols r c M), (has_shape_ncols r 1 N) by done.
  rewrite broadcast_dim_same, OK_bind.
  assert (broadcast_dim c 1 = OK c) as ->.
  { unfold broadcast_dim. repeat case_decide; (done || by subst || lia). }
  rewrite OK_bind. eexists. split; [done|].
  destruct HM as [HMr HMc], HN as [HNr HNc].
  rewrite !stretch_id by done. split.
  - rewrite length_zip_with. lia.
  - eapply Forall_zip_with; [|exact HMc|exact HNc].
    intros x y Hx Hy. simpl in *. rewrite (stretch_id c x) by done.
    destruct y as [|y0 [|??]]; simpl in Hy; try lia. simpl.
    rewrite length_zip_with, length_replicate. lia.
Qed.

Section Forward.
Context {F : Type} `{Scalar F}.
Implicit Types parameters : gmap string (ndarray F).
Implicit Types dropout_params : gmap string (ndarray bool) * list F.

Lemma shape_amap (f : F → F) (M : ndarray F) : shape (amap f M) = shape M.
Proof.
  unfold shape, nrows, ncols, amap. rewrite length_map.
  destruct M; simpl; [done|]. by rewrite length_map.
Qed.

Lemma leaky_relu_OK (Z : ndarray F) :
  ∃ A, leaky_relu Z = OK A ∧ shape A = shape Z ∧
       ∀ r c, has_shape r c Z → has_shape r c A.
Proof.
  unfold leaky_relu. eexists. rewrite py_assert_true by apply shape_amap.
  split; [done|]. split; [apply shape_amap|].
  intros r c. apply has_shape_amap.
Qed.

Lemma activation_forward_OK (A_prev W b : ndarray F) (activation : string)
    (nl nl1 m : nat) :
  activation = "Leaky ReLU" ∨ activation = "Sigmoid" →
  0 < nl → 0 < nl1 →
  has_shape nl nl1 W → has_shape nl 1 b → has_shape nl1 m A_prev →
  ∃ A c, activation_forward A_prev A_prev W b activation = OK (A, c) ∧
         has_shape nl m A.
Proof.
  intros Hact Hnl Hnl1 SW Sb SA.
  destruct (dot_OK nl nl1 m W A_prev) as (WA & HWA & SWA & _); [done..|].
  destruct (broadcast2_column fadd nl m WA b) as (Z & HZ & SZ); [done..|].
  unfold activation_forward, linear_forward.
  rewrite HWA, OK_bind, HZ, OK_bind.
  rewrite (py_assert_true (shape Z = (nrows W, ncols A_prev))); last first.
  { rewrite (has_shape_shape nl m Z), (has_shape_nrows nl nl1 W),
      (has_shape_ncols nl1 m A_prev) by done. done. }
  rewrite !OK_bind.
  assert (∃ A, (if decide (activation = "ReLU") then relu Z
                else if decide (activation = "Sigmoid") then OK (sigmoid Z)
                else if decide (activation = "Leaky ReLU") then leaky_relu Z
                else Raise (UnboundLocalError "A")) = OK A
               ∧ has_shape nl m A) as (A & -> & SA').
  { destruct Hact as [-> | ->].
    - rewrite decide_False, decide_False, decide_True by done.
      destruct (leaky_relu_OK Z) as (A & -> & _ & HA). eauto.
    - rewrite decide_False, decide_True by done.
      eexists. split; [done|]. by apply has_shape_amap. }
  rewrite OK_bind.
  rewrite (py_assert_true (shape A = (nrows W, ncols A_prev))); last first.
  { rewrite (has_shape_shape nl m A), (has_shape_nrows nl nl1 W),
      (has_shape_ncols nl1 m A_prev) by done. done. }
  rewrite OK_bind. eauto.
Qed.

Lemma apply_dropout_test dropout_params (l : nat) (A : ndarray F) :
  apply_dropout "test" dropout_params l A = OK A.
Proof. unfold apply_dropout. by rewrite decide_False. Qed.

Lemma well_shaped_layer (dims : list nat) parameters (l : nat) :
  well_shaped dims parameters → 1 ≤ l < length dims →
  ∃ W b nl nl1,
    dims !! l = Some nl ∧ dims !! (l - 1) = Some nl1 ∧ 0 < nl ∧ 0 < nl1 ∧
    getitem parameters (key "W" l) = OK W ∧
    getitem parameters (key "b" l) = OK b ∧
    has_shape nl nl1 W ∧ has_shape nl 1 b.
Proof.
  intros (_ & Hpos & Hlayers) Hl.
  destruct (Hlayers l Hl) as (W & b & nl & nl1 & Hnl & Hnl1 & HW & Hb & SW & Sb).
  rewrite Forall_forall in Hpos.
  exists W, b, nl, nl1.
  split_and!; try done; try (by apply getitem_OK);
    apply Hpos; by eapply list_elem_of_lookup_2.
Qed.

(** One hidden layer in inference mode *)
Lemma hidden_layer_forward_test (dims : list nat) parameters dropout_params
    (A : ndarray F) caches (l nl1 m : nat) :
  well_shaped dims parameters → 1 ≤ l < length dims →
  dims !! (l - 1) = Some nl1 → has_shape nl1 m A →
  ∃ A' c nl,
    hidden_layer_forward parameters dropout_params "test" (A, caches) l
    = OK (A', caches ++ [c]) ∧
    dims !! l = Some nl ∧ has_shape nl m A'.
Proof.
  intros Hwf Hl Hprev SA.
  destruct (well_shaped_layer dims parameters l Hwf Hl)
    as (W & b & nl & nl1' & Hnl & Hnl1 & Hpos & Hpos1 & HW & Hb & SW & Sb).
  simplify_eq.
  destruct (activation_forward_OK A W b "Leaky ReLU" nl nl1 m)
    as (A' & c & HA' & SA'); [by left | done..|].
  unfold hidden_layer_forward.
  rewrite HW, OK_bind, Hb, OK_bind, HA', OK_bind, apply_dropout_test, OK_bind.
  eauto 10.
Qed.

(** The loop over the hidden layers 1..k in inference mode *)
Lemma hidden_layers_forward_test (dims : list nat) parameters dropout_params
    (X : ndarray F) (n0 m k : nat) :
  well_shaped dims parameters → k < length dims →
  dims !! 0 = Some n0 → has_shape n0 m X →
  ∃ A caches nk,
    for_each (seq 1 k) (hidden_layer_forward parameters dropout_params "test")
      (X, []) = OK (A, caches) ∧
    dims !! k = Some nk ∧ has_shape nk m A.
Proof.
  intros Hwf Hk H0 SX. induction k as [|k IH].
  - exists X, [], n0. done.
  - destruct IH as (A & caches & nk & Hrun & Hnk & SA); [lia|].
    destruct (hidden_layer_forward_test dims parameters dropout_params
                A caches (S k) nk m) as (A' & c & nl & Hstep & Hnl & SA');
      [done | lia | by rewrite Nat.sub_1_r | done |].
    rewrite seq_S, for_each_snoc, Hrun, OK_bind. simpl "+".
    rewrite Hstep. eauto 10.
Qed.

(** Inference on well-shaped parameters whose output layer has one
    unit succeeds and returns one probability per example. *)
Lemma L_model_forward_test_OK (dims : list nat) parameters dropout_params
    (X : ndarray F) (n0 m : nat) :
  well_shaped dims parameters → 2 ≤ length dims →
  last dims = Some 1 → dims !! 0 = Some n0 → has_shape n0 m X →
  ∃ AL caches,
    L_model_forward X parameters dropout_params "test" = OK (AL, caches) ∧
    has_shape 1 m AL.
Proof.
  intros Hwf Hlen Hlast H0 SX.
  pose proof Hwf as (Hsize & Hpos & _).
  destruct (hidden_layers_forward_test dims parameters dropout_params X n0 m
              (length dims - 1 - 1)) as (A & caches & nk & Hrun & Hnk & SA);
    [done | lia | done..|].
  destruct (well_shaped_layer dims parameters (length dims - 1) Hwf)
    as (W & b & nl & nl1 & Hnl & Hnl1 & Hposl & Hpos1 & HW & Hb & SW & Sb);
    [lia|].
  rewrite last_lookup in Hlast.
  replace (pred (length dims)) with (length dims - 1) in Hlast by lia.
  simplify_eq.
  destruct (activation_forward_OK A W b "Sigmoid" 1 nk m)
    as (AL & c & HAL & SAL); [by right | done..|].
  unfold L_model_forward. rewrite Hsize, Hrun, OK_bind.
  rewrite HW, OK_bind, Hb, OK_bind, HAL, OK_bind, apply_dropout_test, OK_bind.
  rewrite py_assert_true.
  - rewrite OK_bind. eauto 10.
  - rewrite (has_shape_shape 1 m AL) by (done || lia). f_equal.
    symmetry. apply (has_shape_ncols n0 m); [done|].
    rewrite Forall_forall in Hpos. apply Hpos.
    by eapply list_elem_of_lookup_2.
Qed.
End Forward.


(** ** Thresholding the probabilities (C10) *)

Section Predict.
Context {F : Type} `{Scalar F}.

(** The body of the thresholding loop of [predict] *)
Lemma threshold_loop (row : list F) (k : nat) :
  k ≤ length row →
  for_each (seq 0 k) (λ y i,
      p ← getitem2 [row] 0 i;
      if flt lit_0_5 p then setitem2 y 0 i fone else setitem2 y 0 i fzero)
    (zeros 1 (length row))
  = OK [map (λ p, if flt lit_0_5 p then fone else fzero) (take k row)
        ++ replicate (length row - k) fzero].
Proof.
  induction k as [|k IH]; intros Hk.
  - simpl. by rewrite Nat.sub_0_r.
  - rewrite seq_S, for_each_snoc, IH, OK_bind by lia. simpl "+".
    destruct (lookup_lt_is_Some_2 row k) as [p Hp]; [lia|].
    set (label := λ p : F, if flt lit_0_5 p then fone else fzero).
    set (yrow := map label (take k row) ++ replicate (length row - k) fzero).
    assert (length (map label (take k row)) = k) as Hlen
      by (rewrite length_map, length_take; lia).
    assert (∀ v, setitem2 [yrow] 0 k v
                 = OK [map label (take k row)
                       ++ v :: replicate (length row - S k) fzero]) as Hset.
    { intros v. unfold setitem2. simpl.
      destruct (lookup_lt_is_Some_2 yrow k) as [old Hold].
      { unfold yrow. rewrite length_app, Hlen, length_replicate. lia. }
      rewrite (index_OK _ _ _ Hold), OK_bind. do 2 f_equal.
      unfold yrow. rewrite insert_app_r_alt by lia.
      rewrite Hlen, Nat.sub_diag.
      replace (length row - k) with (S (length row - S k)) by lia. done. }
    unfold getitem2. simpl. rewrite (index_OK _ _ _ Hp), OK_bind.
    rewrite (take_S_r _ _ _ Hp), map_app. simpl.
    rewrite <- app_assoc. simpl.
    rewrite !Hset.
    assert (label p = if flt lit_0_5 p then fone else fzero) as -> by done.
    by destruct (flt lit_0_5 p).
Qed.

Lemma predict_OK (self : NeuralNet F) (X : ndarray F) (row : list F) caches :
  L_model_forward X (trained_params self) (∅, []) "test" = OK ([row], caches) →
  length row = ncols X →
  predict self X
  = OK ([map (λ p, if flt lit_0_5 p then fone else fzero) row], [row]).
Proof.
  intros Hfwd Hlen. unfold predict. rewrite Hfwd, OK_bind. simpl ncols.
  rewrite <- Hlen, threshold_loop, OK_bind by done.
  by rewrite firstn_all, Nat.sub_diag, app_nil_r.
Qed.
End Predict.

(** C10: on trained parameters that are well shaped for a network with one
    output unit, and an input X with m examples, [predict] returns a label
    array y and a probability array probas, both of shape (1, m), where
    probas is the very output of forward propagation ([L_model_forward] on
    X with the trained parameters, no dropout, mode "test"); example i gets
    label 1 when its probability is strictly greater than 0.5 and label 0
    otherwise — so a probability of exactly 0.5 is labelled 0 and every
    label is 0 or 1. *)
Theorem predict_threshold (self : NeuralNet R) (X : ndarray R)
    (dims : list nat) (n0 m : nat) :
  well_shaped dims (trained_params self) → 2 ≤ length dims →
  last dims = Some 1 → dims !! 0 = Some n0 → has_shape n0 m X →
  ∃ y probas caches,
    L_model_forward X (trained_params self) (∅, []) "test"
    = OK (probas, caches) ∧
    predict self X = OK (y, probas) ∧
    has_shape 1 m y ∧ has_shape 1 m probas ∧
    ∀ i, i < m →
      (entry y 0 i = 1%R ∧ (1 / 2 < entry probas 0 i)%R) ∨
      (entry y 0 i = 0%R ∧ (entry probas 0 i <= 1 / 2)%R).
Proof.
  intros Hwf Hlen Hlast H0 SX.
  destruct (L_model_forward_test_OK dims (trained_params self) (∅, []) X n0 m)
    as (AL & caches & Hfwd & SAL); [done..|].
  assert (0 < n0) as Hn0.
  { destruct Hwf as (_ & Hpos & _). rewrite Forall_forall in Hpos.
    apply Hpos. by eapply list_elem_of_lookup_2. }
  destruct SAL as [HALr HALc].
  destruct AL as [|row [|??]]; simpl in HALr; try lia.
  apply Forall_cons in HALc as [Hrow _].
  rewrite (predict_OK self X row caches)
    by (done || by rewrite (has_shape_ncols n0 m X)).
  eexists _, _, _. split; [exact Hfwd|]. split; [done|]. split; [|split].
  - split; [done|]. repeat constructor. by rewrite length_map.
  - split; [done|]. by repeat constructor.
  - intros i Hi. unfold entry. simpl.
    set (label := λ p : R, if Rltb (1 / 2) p then 1%R else 0%R).
    change (nth i (map label row) 0%R) with (nth i (map label row) (IZR 0)).
    rewrite (nth_indep _ (IZR 0) (label (IZR 0))) by (rewrite length_map; lia).
    rewrite (map_nth label). unfold label, Rltb.
    destruct (Rlt_dec (1 / 2) (nth i row 0%R)); [left | right]; split; (done || lra).
Qed.


(** ** Dropout with keep probability one (C9) *)

Lemma has_shape_tabulate {A} (r c : nat) (f : nat → nat → A) :
  has_shape r c (tabulate r c f).
Proof.
  unfold tabulate. split; [by rewrite length_map, length_seq|].
  apply Forall_fmap, Forall_forall. intros i _. simpl.
  by rewrite length_map, length_seq.
Qed.

Lemma Forall_map_tabulate {A B} (g : A → B) (P : B → Prop) (r c : nat)
    (f : nat → nat → A) :
  (∀ i j, P (g (f i j))) →
  Forall (Forall P) (map (map g) (tabulate r c f)).
Proof.
  intros HP. unfold tabulate.
  apply Forall_fmap, Forall_fmap, Forall_forall. intros i _. simpl.
  apply Forall_fmap, Forall_fmap, Forall_forall. intros j _. apply HP.
Qed.

Section Dropout.
Implicit Types parameters : gmap string (ndarray R).
Implicit Types D : gmap string (ndarray bool).

Lemma init_dropout_loop (ω : Entropy R) (self : NeuralNet R)
    (keep_prob : list R) (m k : nat) (s : RandomState) :
  uniform_in_unit_interval ω →
  Forall (λ d, 0 < d) (layer_dims self) →
  length keep_prob = length (layer_dims self) →
  Forall (λ kp, kp = 1%R) keep_prob →
  k ≤ length (layer_dims self) →
  ∃ D s',
    for_each (seq 0 k) (init_dropout_layer ω self keep_prob m) (∅, s)
    = OK (D, s') ∧
    ∀ l nl, l < k → layer_dims self !! l = Some nl →
      ∃ Dl, D !! pretty l = Some Dl ∧ has_shape nl m Dl ∧
            Forall (Forall (λ keep, keep = true)) Dl.
Proof.
  intros Hω Hpos Hlen Hone. induction k as [|k IH]; intros Hk.
  - exists ∅, s. split; [done|]. intros; lia.
  - destruct IH as (D & s' & Hrun & HD); [lia|].
    destruct (lookup_lt_is_Some_2 (layer_dims self) k) as [nl Hnl]; [lia|].
    destruct (lookup_lt_is_Some_2 keep_prob k) as [kp Hkp]; [lia|].
    assert (kp = 1%R) as ->.
    { rewrite Forall_forall in Hone. apply Hone.
      by eapply list_elem_of_lookup_2. }
    assert (0 < nl) as Hnlpos.
    { rewrite Forall_forall in Hpos. apply Hpos.
      by eapply list_elem_of_lookup_2. }
    set (U := tabulate nl m (rand_sample ω (rand_calls s'))).
    set (Dk := map (map (λ u, flt u 1%R)) U).
    assert (has_shape nl m Dk) as SDk.
    { eapply has_shape_map; [|apply has_shape_tabulate].
      intros row Hrow. by rewrite length_map. }
    rewrite seq_S, for_each_snoc, Hrun, OK_bind. simpl "+".
    unfold init_dropout_layer, rand.
    rewrite (index_OK _ _ _ Hnl), OK_bind, (index_OK _ _ _ Hkp), OK_bind.
    fold U. fold Dk.
    rewrite py_assert_true by (by apply has_shape_shape).
    rewrite OK_bind. eexists _, _. split; [done|].
    intros l nl' Hl Hnl'. destruct (decide (l = k)) as [->|Hne].
    + simplify_eq. exists Dk. rewrite lookup_insert_eq.
      split; [done|]. split; [done|].
      apply Forall_map_tabulate. intros i j. simpl. unfold Rltb.
      destruct (Rlt_dec _ _) as [|Hnlt]; [done|].
      destruct (Hω (rand_calls s') i j). lra.
    + rewrite lookup_insert_ne by (intros ?%(inj pretty); lia).
      apply HD; [lia | done].
Qed.

Lemma init_dropout_keeps_all (ω : Entropy R) (self : NeuralNet R)
    (keep_prob : list R) (m : nat) (s : RandomState) :
  uniform_in_unit_interval ω →
  Forall (λ d, 0 < d) (layer_dims self) →
  length keep_prob = length (layer_dims self) →
  Forall (λ kp, kp = 1%R) keep_prob →
  ∃ dropout_params s',
    init_dropout ω self keep_prob m s = OK (dropout_params, s') ∧
    keeps_all (layer_dims self) m dropout_params.
Proof.
  intros Hω Hpos Hlen Hone.
  destruct (init_dropout_loop ω self keep_prob m (length (layer_dims self)) s)
    as (D & s' & Hrun & HD); [done..|].
  unfold init_dropout. rewrite Hrun, OK_bind.
  eexists _, _. split; [done|]. intros l nl Hnl. simpl.
  destruct (HD l nl) as (Dl & HDl & SDl & Htrue);
    [by eapply lookup_lt_Some | done |].
  exists Dl. split_and!; try done.
  destruct (lookup_lt_is_Some_2 keep_prob l) as [kp Hkp].
  { rewrite Hlen. by eapply lookup_lt_Some. }
  rewrite Hkp. f_equal. rewrite Forall_forall in Hone. apply Hone.
  by eapply list_elem_of_lookup_2.
Qed.

(** A mask that keeps everything, scaled by 1, changes nothing. *)
Lemma multiply_keep_row (a : list R) (d : list bool) :
  length a = length d → Forall (λ keep, keep = true) d →
  zip_with (λ x keep, fmul x (of_bool keep)) a d = a.
Proof.
  intros Hlen Hd. revert a Hlen.
  induction Hd as [|x d -> _ IHd]; intros [|y a] Hlen; simpl in *; try done.
  rewrite IHd by lia. f_equal. lra.
Qed.

Lemma multiply_keep_all (r c : nat) (A : ndarray R) (Dl : ndarray bool) :
  has_shape r c A → has_shape r c Dl →
  Forall (Forall (λ keep, keep = true)) Dl →
  multiply_mask A Dl = OK A.
Proof.
  intros SA SD Htrue. unfold multiply_mask.
  rewrite (broadcast2_same_shape _ r c) by done. f_equal.
  destruct SA as [HAr HAc], SD as [HDr HDc].
  revert r Dl HAr HDr HDc Htrue.
  induction HAc as [|a A Ha _ IH]; intros r [|d Dl] HAr HDr HDc Htrue;
    simpl in *; try done; try lia.
  apply Forall_cons in HDc as [Hd HDc].
  apply Forall_cons in Htrue as [Hdtrue Htrue].
  rewrite (IH (pred r)) by (done || lia). f_equal.
  apply multiply_keep_row; [lia | done].
Qed.

Lemma divide_by_one (A : ndarray R) : amap (λ a, fdiv a 1%R) A = A.
Proof.
  unfold amap. rewrite <- (List.map_id A) at 2. apply map_ext.
  intros row. rewrite <- (List.map_id row) at 2. apply map_ext.
  intros x. simpl. lra.
Qed.

Lemma apply_dropout_keeps_all (dims : list nat) (m l nl : nat)
    (dropout_params : gmap string (ndarray bool) * list R) (A : ndarray R) :
  keeps_all dims m dropout_params → dims !! l = Some nl →
  has_shape nl m A →
  apply_dropout "train" dropout_params l A = OK A.
Proof.
  intros Hkeep Hnl SA. destruct dropout_params as [D keep_prob].
  destruct (Hkeep l nl Hnl) as (Dl & HDl & SDl & Htrue & Hkp). simpl in *.
  unfold apply_dropout. rewrite decide_True by done.
  rewrite (getitem_OK _ _ _ HDl), OK_bind.
  rewrite (multiply_keep_all nl m) by done.
  rewrite OK_bind, (index_OK _ _ _ Hkp), OK_bind.
  by rewrite divide_by_one.
Qed.

(** One hidden layer: training mode with such dropout parameters
    computes what inference mode computes. *)
Lemma hidden_layer_forward_train (dims : list nat) parameters
    dropout_params other (A : ndarray R) caches (l nl1 m : nat) :
  well_shaped dims parameters → keeps_all dims m dropout_params →
  1 ≤ l < length dims →
  dims !! (l - 1) = Some nl1 → has_shape nl1 m A →
  hidden_layer_forward parameters dropout_params "train" (A, caches) l
  = hidden_layer_forward parameters other "test" (A, caches) l.
Proof.
  intros Hwf Hkeep Hl Hprev SA.
  destruct (well_shaped_layer dims parameters l Hwf Hl)
    as (W & b & nl & nl1' & Hnl & Hnl1 & Hpos & Hpos1 & HW & Hb & SW & Sb).
  simplify_eq.
  destruct (activation_forward_OK A W b "Leaky ReLU" nl nl1 m)
    as (A' & c & HA' & SA'); [by left | done..|].
  unfold hidden_layer_forward.
  rewrite HW, !OK_bind, Hb, !OK_bind, HA', !OK_bind.
  by rewrite apply_dropout_test, (apply_dropout_keeps_all dims m l nl).
Qed.

Lemma hidden_layers_forward_train (dims : list nat) parameters
    dropout_params other (X : ndarray R) (n0 m k : nat) :
  well_shaped dims parameters → keeps_all dims m dropout_params →
  k < length dims → dims !! 0 = Some n0 → has_shape n0 m X →
  for_each (seq 1 k) (hidden_layer_forward parameters dropout_params "train")
    (X, [])
  = for_each (seq 1 k) (hidden_layer_forward parameters other "test")
      (X, []).
Proof.
  intros Hwf Hkeep Hk H0 SX. induction k as [|k IH]; [done|].
  destruct (hidden_layers_forward_test dims parameters other X n0 m k)
    as (A & caches & nk & Hrun & Hnk & SA); [done | lia | done..|].
  rewrite !seq_S, !for_each_snoc, IH, Hrun, !OK_bind by lia. simpl "+".
  apply (hidden_layer_forward_train dims _ _ _ _ _ _ nk m);
    [done | done | lia | by rewrite Nat.sub_1_r | done].
Qed.

Lemma L_model_forward_train (dims : list nat) parameters
    dropout_params other (X : ndarray R) (n0 m : nat) :
  well_shaped dims parameters → keeps_all dims m dropout_params →
  2 ≤ length dims → dims !! 0 = Some n0 → has_shape n0 m X →
  L_model_forward X parameters dropout_params "train"
  = L_model_forward X parameters other "test".
Proof.
  intros Hwf Hkeep Hlen H0 SX.
  pose proof Hwf as (Hsize & Hpos & _).
  destruct (hidden_layers_forward_test dims parameters other X n0 m
              (length dims - 1 - 1)) as (A & caches & nk & Hrun & Hnk & SA);
    [done | lia | done..|].
  destruct (well_shaped_layer dims parameters (length dims - 1) Hwf)
    as (W & b & nl & nl1 & Hnl & Hnl1 & Hposl & Hpos1 & HW & Hb & SW & Sb);
    [lia|].
  simplify_eq.
  destruct (activation_forward_OK A W b "Sigmoid" nl nk m)
    as (AL & c & HAL & SAL); [by right | done..|].
  unfold L_model_forward. rewrite Hsize.
  rewrite (hidden_layers_forward_train dims _ _ other X n0 m)
    by (done || lia).
  rewrite Hrun, !OK_bind, HW, !OK_bind, Hb, !OK_bind, HAL, !OK_bind.
  by rewrite apply_dropout_test,
    (apply_dropout_keeps_all dims m (length dims - 1) nl).
Qed.
End Dropout.

(** C9: when every keep probability is 1, the masks that [init_dropout]
    generates keep every unit, and forward propagation in training mode
    with these masks returns exactly what forward propagation in inference
    mode returns, for every input and all parameters laid out as the
    layer widths prescribe; when the output layer has one unit this common
    result is an activation and its caches. *)
Theorem dropout_is_noop_at_keep_prob_one (ω : Entropy R) (self : NeuralNet R)
    (X : ndarray R) (parameters : gmap string (ndarray R))
    (keep_prob : list R) (n0 m : nat) (s : RandomState) :
  uniform_in_unit_interval ω →
  well_shaped (layer_dims self) parameters →
  2 ≤ length (layer_dims self) →
  layer_dims self !! 0 = Some n0 → has_shape n0 m X →
  length keep_prob = length (layer_dims self) →
  Forall (λ kp, kp = 1%R) keep_prob →
  ∃ dropout_params s',
    init_dropout ω self keep_prob m s = OK (dropout_params, s') ∧
    L_model_forward X parameters dropout_params "train"
    = L_model_forward X parameters (∅, []) "test" ∧
    (last (layer_dims self) = Some 1 →
     succeeds (L_model_forward X parameters dropout_params "train") = true).
Proof.
  intros Hω Hwf Hlen H0 SX Hkp Hone.
  destruct (init_dropout_keeps_all ω self keep_prob m s)
    as (dp & s' & Hinit & Hkeep); [done | by destruct Hwf as (_ & ? & _) | done..|].
  exists dp, s'. split; [done|].
  rewrite (L_model_forward_train (layer_dims self) _ _ (∅, []) X n0 m) by done.
  split; [done|]. intros Hlast.
  destruct (L_model_forward_test_OK (layer_dims self) parameters (∅, []) X n0 m)
    as (AL & caches & -> & _); done.
Qed.


(** ** The cost (C8) *)

Section CostTerms.
Context {F : Type} `{Scalar F}.
Implicit Types parameters : gmap string (ndarray F).

Lemma weights_lookup parameters (l : nat) (W : ndarray F) :
  parameters !! key "W" l = Some W → weights parameters l = W.
Proof. unfold weights, ndarray. by intros ->. Qed.

(** The loop that accumulates [L2_norm] *)
Lemma L2_norm_loop parameters (L : nat) :
  (∀ l, 1 ≤ l ≤ L → is_Some (parameters !! key "W" l)) →
  for_each (seq 0 L) (λ acc l,
      W ← getitem parameters (key "W" (l + 1));
      OK (fadd acc (sum_all (amap (λ w, fmul w w) W)))) fzero
  = OK (big_sum (λ l, sum_all (amap (λ w, fmul w w)
                                 (weights parameters (l + 1)))) L).
Proof.
  induction L as [|L IH]; intros HW; [done|].
  rewrite seq_S, for_each_snoc, IH, OK_bind by (intros; apply HW; lia).
  simpl "+". destruct (HW (L + 1)) as [W HWL]; [lia|].
  rewrite (getitem_OK _ _ _ HWL), OK_bind. simpl big_sum.
  by rewrite (weights_lookup _ _ _ HWL).
Qed.

(** The sum inside the cross-entropy term, for arrays of shape (1, m) *)
Lemma cross_entropy_sum (Y P : ndarray F) (m : nat) :
  has_shape 1 m Y → has_shape 1 m P →
  ∃ t,
    (t1 ← broadcast2 fmul Y (amap flog P);
     t2 ← broadcast2 fmul (amap (fsub fone) Y)
            (amap (λ p, flog (fsub fone p)) P);
     broadcast2 fadd t1 t2) = OK t ∧
    sum_all t
    = big_sum (λ j,
        fadd (fmul (entry Y 0 j) (flog (entry P 0 j)))
             (fmul (fsub fone (entry Y 0 j)) (flog (fsub fone (entry P 0 j)))))
        m.
Proof.
  intros SY SP.
  rewrite !(broadcast2_same_shape fmul 1 m)
    by (done || by apply has_shape_amap).
  rewrite !OK_bind, (broadcast2_same_shape fadd 1 m)
    by (apply has_shape_zip_with; done || by apply has_shape_amap).
  eexists. split; [done|].
  rewrite zip_with_amap_r, zip_with_amap.
  set (t1 := elementwise _ Y P). set (t2 := elementwise _ Y P).
  assert (has_shape 1 m t1) as St1 by (by apply has_shape_elementwise).
  assert (has_shape 1 m t2) as St2 by (by apply has_shape_elementwise).
  fold (elementwise fadd t1 t2).
  assert (has_shape 1 m (elementwise fadd t1 t2)) as [Hr Hc]
    by (by apply has_shape_elementwise).
  assert (∀ j, j < m →
            entry (elementwise fadd t1 t2) 0 j
            = fadd (fmul (entry Y 0 j) (flog (entry P 0 j)))
                (fmul (fsub fone (entry Y 0 j))
                   (flog (fsub fone (entry P 0 j))))) as Hentry.
  { intros j Hj. rewrite (entry_elementwise _ 1 m) by (done || lia).
    unfold t1, t2. by rewrite !(entry_elementwise _ 1 m) by (done || lia). }
  destruct (elementwise fadd t1 t2) as [|row [|??]]; simpl in Hr; try lia.
  apply Forall_cons in Hc as [Hrow _].
  unfold sum_all. simpl. rewrite app_nil_r, fsum_big_sum, Hrow.
  apply big_sum_ext. intros j Hj. by rewrite <- Hentry.
Qed.

Lemma zero_parameters_size : size (zero_parameters (F:=F)) = 2.
Proof. vm_compute. reflexivity. Qed.

Lemma zero_parameters_W1 :
  zero_parameters (F:=F) !! key "W" 1 = Some [[fzero]].
Proof. vm_compute. reflexivity. Qed.
Lemma zero_parameters_L2 (lambda : F) :
  L2_formula lambda 1 zero_parameters
  = fmul (fdiv lambda (of_nat 2))
      (fadd fzero (fadd fzero (fadd fzero (fmul fzero fzero)))).
Proof. vm_compute. reflexivity. Qed.
End CostTerms.

Section CostOverReals.
Implicit Types parameters : gmap string (ndarray R).
Open Scope R_scope.

Lemma foldl_Rplus (a : R) (l : list R) :
  foldl Rplus a l = a + foldl Rplus 0 l.
Proof.
  revert a. induction l as [|x l IH]; intros a; simpl; [lra|].
  rewrite (IH (a + x)), (IH (0 + x)). lra.
Qed.

Lemma fsum_cons (x : R) (l : list R) : fsum (x :: l) = x + fsum l.
Proof. unfold fsum. simpl. rewrite foldl_Rplus. lra. Qed.

Lemma fsum_app (l k : list R) : fsum (l ++ k) = fsum l + fsum k.
Proof.
  induction l as [|x l IH]; simpl.
  - unfold fsum at 2. simpl. lra.
  - rewrite !fsum_cons, IH. lra.
Qed.

Lemma fsum_nonneg (l : list R) : Forall (λ x, 0 <= x) l → 0 <= fsum l.
Proof.
  induction 1 as [|x l Hx _ IH]; [unfold fsum; simpl; lra|].
  rewrite fsum_cons. lra.
Qed.

Lemma fsum_pos (l : list R) (x : R) :
  Forall (λ x, 0 <= x) l → x ∈ l → 0 < x → 0 < fsum l.
Proof.
  intros Hl Hx Hpos. induction Hl as [|y l Hy Hl IH]; [by apply elem_of_nil in Hx|].
  rewrite fsum_cons. pose proof (fsum_nonneg l Hl).
  apply elem_of_cons in Hx as [<-|Hx]; [lra|]. specialize (IH Hx). lra.
Qed.

Lemma squares_nonneg (row : list R) :
  Forall (λ x, 0 <= x) (map (λ w, fmul w w) row).
Proof.
  apply Forall_fmap, Forall_forall. intros w _. simpl. nra.
Qed.

(** [cp.sum(cp.square(W))] is the squared Frobenius norm. *)
Lemma sum_all_squares (W : ndarray R) :
  sum_all (amap (λ w, fmul w w) W) = frobenius_sq W.
Proof.
  unfold sum_all, frobenius_sq, amap.
  induction W as [|row W IH]; [done|].
  change (fsum (map (λ w, fmul w w) row
                ++ concat (map (map (λ w, fmul w w)) W))
          = fsum (fsum (map (λ w, fmul w w) row)
                  :: map (λ row, fsum (map (λ w, fmul w w) row)) W)).
  by rewrite fsum_app, fsum_cons, IH.
Qed.

Lemma frobenius_sq_nonneg (W : ndarray R) : 0 <= frobenius_sq W.
Proof.
  unfold frobenius_sq. apply fsum_nonneg, Forall_fmap, Forall_forall.
  intros row _. simpl. apply fsum_nonneg, squares_nonneg.
Qed.

Lemma frobenius_sq_pos (W : ndarray R) (row : list R) (w : R) :
  row ∈ W → w ∈ row → w ≠ 0 → 0 < frobenius_sq W.
Proof.
  intros Hrow Hw Hne. unfold frobenius_sq.
  apply (fsum_pos _ (fsum (map (λ w, fmul w w) row))).
  - apply Forall_fmap, Forall_forall. intros r _. simpl.
    apply fsum_nonneg, squares_nonneg.
  - apply list_elem_of_fmap. by exists row.
  - apply (fsum_pos _ (w * w)); [apply squares_nonneg | | nra].
    apply list_elem_of_fmap. by exists w.
Qed.

Lemma big_sum_nonneg (f : nat → R) (n : nat) :
  (∀ l, (l < n)%nat → 0 <= f l) → 0 <= big_sum f n.
Proof.
  induction n as [|n IH]; intros Hf; simpl; [lra|].
  pose proof (Hf n ltac:(lia)). assert (0 <= big_sum f n) by (apply IH; auto with lia).
  lra.
Qed.

Lemma big_sum_pos (f : nat → R) (n l : nat) :
  (∀ l, (l < n)%nat → 0 <= f l) → (l < n)%nat → 0 < f l → 0 < big_sum f n.
Proof.
  induction n as [|n IH]; intros Hf Hl Hpos; [lia|]. simpl.
  pose proof (Hf n ltac:(lia)).
  assert (0 <= big_sum f n) by (apply big_sum_nonneg; auto with lia).
  destruct (decide (l = n)) as [->|Hne]; [lra|].
  assert (0 < big_sum f n) by (apply IH; auto with lia). lra.
Qed.

(** What [cost_terms] and [compute_cost] return. *)
Lemma cost_terms_formulas (self : NeuralNet R) (Y_true Y_pred : ndarray R)
    parameters (m : nat) :
  (0 < m)%nat → has_shape 1 m Y_true → has_shape 1 m Y_pred →
  (∀ l, 1 ≤ l ≤ size parameters / 2 → is_Some (parameters !! key "W" l)) →
  cost_terms self Y_true Y_pred parameters
  = OK (cross_entropy_formula Y_true Y_pred m,
        L2_formula (lambd self) m parameters).
Proof.
  intros Hm SY SP HW.
  destruct (cross_entropy_sum Y_true Y_pred m SY SP) as (t & Ht & Hsum).
  unfold cost_terms. rewrite (has_shape_ncols 1 m Y_true) by (done || lia).
  rewrite decide_False by lia.
  destruct (broadcast2 fmul Y_true (amap flog Y_pred)) as [t1|]; [|done].
  rewrite OK_bind in Ht. rewrite OK_bind.
  destruct (broadcast2 fmul (amap (fsub fone) Y_true) _) as [t2|]; [|done].
  rewrite OK_bind in Ht. rewrite OK_bind, Ht, OK_bind.
  rewrite (L2_norm_loop parameters (size parameters / 2) HW), OK_bind.
  unfold cross_entropy_formula, L2_formula. rewrite Hsum.
  do 3 f_equal. apply big_sum_ext. intros l _. apply sum_all_squares.
Qed.

Lemma compute_cost_formula (self : NeuralNet R) (Y_true Y_pred : ndarray R)
    parameters (m : nat) :
  (0 < m)%nat → has_shape 1 m Y_true → has_shape 1 m Y_pred →
  (∀ l, 1 ≤ l ≤ size parameters / 2 → is_Some (parameters !! key "W" l)) →
  compute_cost self Y_true Y_pred parameters
  = OK (cross_entropy_formula Y_true Y_pred m
        + L2_formula (lambd self) m parameters).
Proof.
  intros Hm SY SP HW. unfold compute_cost.
  by rewrite (cost_terms_formulas self Y_true Y_pred parameters m).
Qed.

Lemma L2_formula_monotone (lambda1 lambda2 : R) (m : nat) parameters :
  (0 < m)%nat → lambda1 < lambda2 →
  L2_formula lambda1 m parameters <= L2_formula lambda2 m parameters ∧
  (has_nonzero_weight parameters →
   L2_formula lambda1 m parameters < L2_formula lambda2 m parameters).
Proof.
  intros Hm Hlt. unfold L2_formula.
  set (S := big_sum _ _).
  assert (0 <= S) as HS.
  { apply big_sum_nonneg. intros l _. apply frobenius_sq_nonneg. }
  assert (0 < of_nat (2 * m)) as Hden.
  { unfold of_nat. simpl of_Z. apply IZR_lt. lia. }
  assert (fdiv lambda1 (of_nat (2 * m)) < fdiv lambda2 (of_nat (2 * m))) as Hq.
  { simpl fdiv. unfold Rdiv. apply Rmult_lt_compat_r; [|done].
    by apply Rinv_0_lt_compat. }
  split.
  - apply Rmult_le_compat_r; [done | by apply Rlt_le].
  - intros (l & W & row & w & Hl & HWl & Hrow & Hw & Hne).
    assert (0 < S) as HSpos.
    { apply (big_sum_pos _ _ (l - 1)).
      - intros; apply frobenius_sq_nonneg.
      - lia.
      - replace (l - 1 + 1)%nat with l by lia.
        rewrite (weights_lookup _ _ _ HWl).
        by apply (frobenius_sq_pos W row w). }
    by apply Rmult_lt_compat_r.
Qed.
End CostOverReals.

(** C8, as the code behaves: for labels and predictions of shape (1, m)
    with m > 0, the cost is the cross-entropy term
    −(1/m)·Σ[Y·log(Y_pred) + (1−Y)·log(1−Y_pred)] plus (lambda/(2m)) times
    the sum of the squared Frobenius norms of the weight matrices.  The
    cross-entropy term does not depend on lambda; a larger lambda never
    decreases the L2 term, and strictly increases it provided some weight
    is not zero. *)
Theorem cost_is_cross_entropy_plus_L2 (self : NeuralNet R)
    (Y_true Y_pred : ndarray R) (parameters : gmap string (ndarray R))
    (m : nat) (lambda1 lambda2 : R) :
  0 < m → has_shape 1 m Y_true → has_shape 1 m Y_pred →
  (∀ l, 1 ≤ l ≤ size parameters / 2 → is_Some (parameters !! key "W" l)) →
  (lambda1 < lambda2)%R →
  cost_terms (with_lambd lambda1 self) Y_true Y_pred parameters
  = OK (cross_entropy_formula Y_true Y_pred m, L2_formula lambda1 m parameters) ∧
  cost_terms (with_lambd lambda2 self) Y_true Y_pred parameters
  = OK (cross_entropy_formula Y_true Y_pred m, L2_formula lambda2 m parameters) ∧
  compute_cost (with_lambd lambda1 self) Y_true Y_pred parameters
  = OK (cross_entropy_formula Y_true Y_pred m
        + L2_formula lambda1 m parameters)%R ∧
  compute_cost (with_lambd lambda2 self) Y_true Y_pred parameters
  = OK (cross_entropy_formula Y_true Y_pred m
        + L2_formula lambda2 m parameters)%R ∧
  (L2_formula lambda1 m parameters <= L2_formula lambda2 m parameters)%R ∧
  (has_nonzero_weight parameters →
   (L2_formula lambda1 m parameters < L2_formula lambda2 m parameters)%R).
Proof.
  intros Hm SY SP HW Hlt.
  rewrite !(cost_terms_formulas _ Y_true Y_pred parameters m) by done.
  rewrite !(compute_cost_formula _ Y_true Y_pred parameters m) by done.
  split_and!; try done; by apply L2_formula_monotone.
Qed.

(** C8 as stated fails: when all weights are zero the L2 term is 0 for
    lambda = 0 and for lambda = 1 alike. *)
Lemma L2_term_constant_on_zero_weights :
  ∃ ce1 r1 ce2 r2,
    cost_terms (with_lambd 0%R (small_net 1)) [[1%R]] [[(1 / 2)%R]]
      zero_parameters = OK (ce1, r1) ∧
    cost_terms (with_lambd 1%R (small_net 1)) [[1%R]] [[(1 / 2)%R]]
      zero_parameters = OK (ce2, r2) ∧
    (0 < 1)%R ∧ ¬ (r1 < r2)%R.
Proof.
  assert (has_shape 1 1 [[1%R]]) as SY by (split; [done|by repeat constructor]).
  assert (has_shape 1 1 [[(1 / 2)%R]]) as SP
    by (split; [done|by repeat constructor]).
  assert (∀ l, 1 ≤ l ≤ size (zero_parameters (F:=R)) / 2 →
               is_Some (zero_parameters (F:=R) !! key "W" l)) as HW.
  { rewrite zero_parameters_size. intros l Hl.
    replace l with 1 by (simpl in Hl; lia). eexists. apply zero_parameters_W1. }
  eexists _, _, _, _.
  rewrite !(cost_terms_formulas _ [[1%R]] [[(1 / 2)%R]] zero_parameters 1)
    by (done || lia).
  split; [done|]. split; [done|]. split; [lra|].
  rewrite !zero_parameters_L2. simpl. lra.
Qed.


(** ** Dropout in backward propagation (C1) *)

Section TinyNetwork.
Context {F : Type} `{Scalar F}.
Variables (x y w1 b1 w2 b2 k0 k1 k2 : F) (d0 d1 d2 : bool).
Variable self : NeuralNet F.

(** Forward propagation through the network with one hidden unit, in
    training mode, on one example. *)
Lemma tiny_forward :
  let z1 := tiny_Z1 x w1 b1 in
  let a1 := tiny_A1 z1 d1 k1 in
  let z2 := tiny_Z2 a1 w2 b2 in
  L_model_forward [[x]] (tiny_parameters w1 b1 w2 b2)
    (tiny_dropout d0 d1 d2 k0 k1 k2) "train"
  = OK ([[tiny_AL z2 d2 k2]],
        [(([[x]], [[w1]], [[b1]]), [[z1]]);
         (([[a1]], [[w2]], [[b2]]), [[z2]])]).
Proof. vm_compute. reflexivity. Qed.

(** Backward propagation through the same network, from any cached
    values.  The gradient with respect to the hidden activation is
    stored under ['dA2'] and handed to the first layer as it is; neither
    it nor the gradient of the first weight involves the hidden unit's
    mask [d1] or keep probability [k1]. *)
Lemma tiny_backward (aL a1 z1 z2 : F) :
  ∃ grads,
    L_model_backward self [[aL]] [[y]]
      [(([[x]], [[w1]], [[b1]]), [[z1]]);
       (([[a1]], [[w2]], [[b2]]), [[z2]])]
      (tiny_dropout d0 d1 d2 k0 k1 k2) = OK grads ∧
    grads !! key "dA" 2 = Some [[tiny_dA_hidden y aL z2 w2 d2 k2]] ∧
    grads !! key "dW" 1
    = Some [[tiny_dW1 (lambd self) (tiny_dA_hidden y aL z2 w2 d2 k2) x z1 w1]].
Proof.
  eexists. split; [vm_compute; reflexivity|].
  split; vm_compute; reflexivity.
Qed.

(** The mask-and-scale step that forward propagation applies to the
    hidden activation. *)
Lemma tiny_apply_dropout (a : F) :
  apply_dropout "train" (tiny_dropout d0 d1 d2 k0 k1 k2) 1 [[a]]
  = OK [[fdiv (fmul a (of_bool d1)) k1]].
Proof. vm_compute. reflexivity. Qed.
End TinyNetwork.

Section DeepNetwork.
Context {F : Type} `{Scalar F}.
Variables (x y w1 b1 w2 b2 w3 b3 k0 k1 k2 k3 : F) (d0 d1 d2 d3 : bool).
Variables (aL a1 a2 z1 z2 z3 : F).
Variable self : NeuralNet F.

(** With two hidden layers: the gradient of the second hidden
    activation reaches the second layer unmasked, and the gradient of
    the first hidden activation is multiplied by the first hidden
    layer's mask [d1] but divided by the second hidden layer's keep
    probability [k2]. *)
Lemma deep_backward :
  ∃ grads g3 g2,
    L_model_backward self [[aL]] [[y]]
      [(([[x]], [[w1]], [[b1]]), [[z1]]);
       (([[a1]], [[w2]], [[b2]]), [[z2]]);
       (([[a2]], [[w3]], [[b3]]), [[z3]])]
      (<["3" := [[d3]]]> (<["2" := [[d2]]]>
         (<["1" := [[d1]]]> (<["0" := [[d0]]]> ∅))),
       [k0; k1; k2; k3]) = OK grads ∧
    grads !! key "dA" 3 = Some [[g3]] ∧
    g2 = fadd fzero
           (fmul w2 (fmul g3 (if fle fzero z2 then fone else lit_0_01))) ∧
    grads !! key "dA" 2 = Some [[fdiv (fmul g2 (of_bool d1)) k2]].
Proof.
  eexists _, _, _. split; [vm_compute; reflexivity|].
  split; [vm_compute; reflexivity|]. split; [reflexivity|].
  vm_compute; reflexivity.
Qed.
End DeepNetwork.

Section DroppedUnit.
Open Scope R_scope.

Lemma Rleb_0_1 : Rleb 0 1 = true.
Proof. unfold Rleb. destruct (Rle_dec 0 1); [done | lra]. Qed.

Lemma sigmoid_at_0 : 1 / (1 + exp (- 0)) = 1 / 2.
Proof. rewrite Ropp_0, exp_0. lra. Qed.

Lemma dropped_Z1 : tiny_Z1 (F:=R) 1 1 0 = 1.
Proof. unfold tiny_Z1. simpl. lra. Qed.

Lemma dropped_A1 : tiny_A1 (F:=R) 1 false (1 / 2) = 0.
Proof. unfold tiny_A1. simpl. rewrite Rleb_0_1. field. Qed.

Lemma dropped_Z2 : tiny_Z2 (F:=R) 0 1 0 = 0.
Proof. unfold tiny_Z2. simpl. lra. Qed.

Lemma dropped_AL : tiny_AL (F:=R) 0 true 1 = 1 / 2.
Proof. unfold tiny_AL. simpl. rewrite sigmoid_at_0. lra. Qed.

Lemma dropped_dA_hidden :
  tiny_dA_hidden (F:=R) 1 (1 / 2) 0 1 true 1 = - (1 / 2).
Proof. unfold tiny_dA_hidden. simpl. rewrite sigmoid_at_0. field. Qed.

Lemma dropped_dW1 : tiny_dW1 (F:=R) 0 (- (1 / 2)) 1 1 1 = - (1 / 2).
Proof.
  unfold tiny_dW1. simpl. rewrite Rleb_0_1.
  change (Z.of_nat 1) with 1%Z. lra.
Qed.
End DroppedUnit.

(** C1 fails on the code.  A network with one hidden unit, weights 1,
    biases 0 and lambda 0, on the example x = 1 with label 1; the hidden
    unit is dropped (mask [False], keep probability 1/2), the other masks
    keep.  Forward propagation returns the prediction 1/2 with a hidden
    activation of 0.  Backward propagation stores − 1/2 as the gradient of
    the hidden activation and hands it to the first layer as it is, which
    gives the first weight the gradient − 1/2; the mask-and-scale step
    that forward propagation applied to the hidden layer turns − 1/2
    into 0. *)
Theorem backward_skips_hidden_mask :
  let dropout_params := tiny_dropout true false true 1%R (1 / 2)%R 1%R in
  let parameters := tiny_parameters 1%R 0%R 1%R 0%R in
  ∃ caches grads,
    L_model_forward [[1%R]] parameters dropout_params "train"
    = OK ([[(1 / 2)%R]], caches) ∧
    caches = [(([[1%R]], [[1%R]], [[0%R]]), [[1%R]]);
              (([[0%R]], [[1%R]], [[0%R]]), [[0%R]])] ∧
    L_model_backward (small_net 1) [[(1 / 2)%R]] [[1%R]] caches dropout_params
    = OK grads ∧
    grads !! key "dA" 2 = Some [[(- (1 / 2))%R]] ∧
    grads !! key "dW" 1 = Some [[(- (1 / 2))%R]] ∧
    apply_dropout "train" dropout_params 1 [[(- (1 / 2))%R]] = OK [[0%R]].
Proof.
  intros dropout_params parameters. unfold dropout_params, parameters.
  destruct (tiny_backward 1%R 1%R 1%R 0%R 1%R 0%R 1%R (1 / 2)%R 1%R
              true false true (small_net 1) (1 / 2)%R 0%R 1%R 0%R)
    as (grads & Hback & HdA & HdW).
  eexists _, grads. split_and!.
  - rewrite tiny_forward.
    by rewrite dropped_Z1, dropped_A1, dropped_Z2, dropped_AL.
  - done.
  - done.
  - by rewrite HdA, dropped_dA_hidden.
  - rewrite HdW, dropped_dA_hidden.
    change (lambd (small_net (F:=R) 1)) with 0%R. by rewrite dropped_dW1.
  - rewrite tiny_apply_dropout. do 3 f_equal. simpl. field.
Qed.


(** ** The sample inputs satisfy the hypotheses of the theorems *)

Lemma has_shape_1_1 {A} (a : A) : has_shape 1 1 [[a]].
Proof. split; [done | by repeat constructor]. Qed.

Section SampleFacts.
Context {F : Type} `{Scalar F}.

Lemma tiny_parameters_well_shaped (w1 b1 w2 b2 : F) :
  well_shaped [1; 1; 1] (tiny_parameters w1 b1 w2 b2).
Proof.
  split; [vm_compute; reflexivity|]. split; [repeat constructor|].
  intros l Hl. simpl in Hl.
  assert (l = 1 ∨ l = 2) as [-> | ->] by lia.
  - exists [[w1]], [[b1]], 1, 1.
    split_and!; try apply has_shape_1_1; vm_compute; reflexivity.
  - exists [[w2]], [[b2]], 1, 1.
    split_and!; try apply has_shape_1_1; vm_compute; reflexivity.
Qed.

Lemma tiny_parameters_size (w1 b1 w2 b2 : F) :
  size (tiny_parameters w1 b1 w2 b2) / 2 = 2.
Proof. vm_compute. reflexivity. Qed.

Lemma tiny_stores_match (w1 b1 w2 b2 g v : F) :
  stores_match 2 (tiny_parameters w1 b1 w2 b2) (tiny_grads g) (tiny_grads v).
Proof.
  intros l Hl. assert (l = 1 ∨ l = 2) as [-> | ->] by lia.
  - exists [[w1]], [[b1]], [[g]], [[g]], [[v]], [[v]], 1, 1.
    split_and!; try apply has_shape_1_1; vm_compute; reflexivity.
  - exists [[w2]], [[b2]], [[g]], [[g]], [[v]], [[v]], 1, 1.
    split_and!; try apply has_shape_1_1; vm_compute; reflexivity.
Qed.

Lemma tiny_parameters_weights (w1 b1 w2 b2 : F) (l : nat) :
  1 ≤ l ≤ 2 → is_Some (tiny_parameters w1 b1 w2 b2 !! key "W" l).
Proof.
  intros Hl. assert (l = 1 ∨ l = 2) as [-> | ->] by lia;
    eexists; vm_compute; reflexivity.
Qed.

Lemma sample_entropy_permutes : permutes (sample_entropy (F:=F)).
Proof. intros k labels. simpl. symmetry. apply Permutation_rev. Qed.

End SampleFacts.

Lemma sample_entropy_uniform : uniform_in_unit_interval sample_entropy.
Proof. intros k i j. simpl. lra. Qed.

(** ** A probability of exactly one half *)

Section HalfProbability.
Context {F : Type} `{Scalar F}.

(** Inference on the network with one hidden unit *)
Lemma tiny_forward_test (x w1 b1 w2 b2 : F) :
  let z1 := tiny_Z1 x w1 b1 in
  let a1 := if fle fzero z1 then z1 else fmul z1 lit_0_01 in
  let z2 := tiny_Z2 a1 w2 b2 in
  L_model_forward [[x]] (tiny_parameters w1 b1 w2 b2) (∅, []) "test"
  = OK ([[fdiv fone (fadd fone (fexp (fneg z2)))]],
        [(([[x]], [[w1]], [[b1]]), [[z1]]);
         (([[a1]], [[w2]], [[b2]]), [[z2]])]).
Proof. vm_compute. reflexivity. Qed.
End HalfProbability.

(** With all weights and biases zero the predicted probability is exactly
    1/2, and [predict] labels the example 0. *)
Lemma predict_half_is_labelled_zero :
  predict (trained_net (tiny_parameters 0%R 0%R 0%R 0%R)) [[1%R]]
  = OK ([[0%R]], [[(1 / 2)%R]]).
Proof.
  pose proof (tiny_forward_test 1%R 0%R 0%R 0%R 0%R) as Hfwd.
  cbv zeta in Hfwd.
  erewrite predict_OK; [|exact Hfwd | reflexivity].
  set (a1 := if fle _ _ then _ else _).
  assert (tiny_Z2 (F:=R) a1 0%R 0%R = 0%R) as ->
    by (unfold tiny_Z2; simpl; lra).
  assert (fdiv 1%R (fadd 1%R (fexp (fneg 0%R))) = (1 / 2)%R) as Hhalf
    by apply sigmoid_at_0.
  unfold fone. simpl of_Z. rewrite Hhalf. simpl map.
  unfold Rltb. destruct (Rlt_dec (1 / 2) (1 / 2)); [lra | done].
Qed.


(** ** The theorems at the sample inputs *)

Lemma init_params_short_layer_dims_witness :
  length ([] : list nat) < 2 ∧
  init_params (F:=R) sample_entropy [] fresh_state = OK (∅, fresh_state).
Proof.
  split; [simpl; lia|].
  apply (init_params_short_layer_dims sample_entropy [] fresh_state).
  simpl; lia.
Defined.

Lemma predict_before_fit_raises_witness :
  reachable (init (F:=R) [2; 3; 1] 1%R 200 0%R 0%R true) ∧
  fitted (init (F:=R) [2; 3; 1] 1%R 200 0%R 0%R true) = false ∧
  predict (F:=R) (init [2; 3; 1] 1%R 200 0%R 0%R true) [[1%R]; [0%R]]
  = Raise (KeyError "W0").
Proof.
  split; [apply reachable_init|]. split; [reflexivity|].
  apply (predict_before_fit_raises (init [2; 3; 1] 1%R 200 0%R 0%R true)).
  - apply reachable_init.
  - reflexivity.
Defined.


Lemma init_mini_batches_partition_witness :
  permutes (sample_entropy (F:=R)) ∧
  NoDup (columns (sample_X (F:=R))) ∧
  0 < 2 ∧
  ∃ mini_batches s' π,
    init_mini_batches (F:=R) sample_entropy sample_X sample_Y 2 fresh_state
    = OK (mini_batches, s') ∧
    π ≡ₚ seq 0 3 ∧
    take_cols π (values (sample_X (F:=R))) = OK (hstack (mini_batches.*1) 1) ∧
    take_cols π [s_values (sample_Y (F:=R))] = OK (hstack (mini_batches.*2) 1) ∧
    Forall2 (λ batch k, has_shape 1 k batch.1 ∧ has_shape 1 k batch.2)
      mini_batches [2; 1].
Proof.
  assert (NoDup [0; 1; 2]) as Hnd.
  { apply (bool_decide_unpack _). reflexivity. }
  split; [apply sample_entropy_permutes|]. split; [exact Hnd|].
  split; [lia|].
  apply (init_mini_batches_partition sample_entropy sample_X sample_Y 2 1
           fresh_state).
  - apply sample_entropy_permutes.
  - exact Hnd.
  - reflexivity.
  - reflexivity.
  - split; [reflexivity | by repeat constructor].
  - lia.
Defined.

Lemma update_params_momentum_witness :
  stores_match 2 (tiny_parameters 1%R 0%R 1%R 0%R)
    (tiny_grads 1%R) (tiny_grads 0%R) ∧
  ∃ parameters' v',
    update_params (small_net 1) (tiny_parameters 1%R 0%R 1%R 0%R)
      (tiny_grads 1%R) (tiny_grads 0%R) (lr (small_net 1))
    = OK (parameters', v') ∧
    (∀ l, 1 ≤ l ≤ 2 →
       layer_updated (beta (small_net 1)) (lr (small_net 1))
         (tiny_parameters 1%R 0%R 1%R 0%R) (tiny_grads 1%R) (tiny_grads 0%R)
         parameters' v' l).
Proof.
  split; [apply tiny_stores_match|].
  destruct (update_params_momentum (small_net 1)
              (tiny_parameters 1%R 0%R 1%R 0%R) (tiny_grads 1%R)
              (tiny_grads 0%R) (lr (small_net 1)))
    as (p' & v' & Hrun & Hlayers & _ & _).
  - rewrite tiny_parameters_size. apply tiny_stores_match.
  - exists p', v'. split; [exact Hrun|].
    intros l Hl. apply Hlayers. rewrite tiny_parameters_size. exact Hl.
Defined.

Lemma linear_back_formulas_witness :
  0 < 1 ∧ has_shape 1 1 [[1%R]] ∧
  ∃ dA_prev dW db,
    linear_back (small_net 1) [[1%R]] ([[1%R]], [[1%R]], [[0%R]])
    = OK (dA_prev, dW, db) ∧
    has_shape 1 1 dA_prev ∧ has_shape 1 1 dW ∧ has_shape 1 1 db ∧
    (∀ i j, i < 1 → j < 1 →
       entry dW i j
       = dW_formula (lambd (small_net 1)) [[1%R]] [[1%R]] [[1%R]] 1 i j) ∧
    (∀ i, i < 1 → entry db i 0 = db_formula [[1%R]] 1 i) ∧
    (∀ j t, j < 1 → t < 1 →
       entry dA_prev j t = dA_prev_formula [[1%R]] [[1%R]] 1 j t).
Proof.
  split; [lia|]. split; [apply has_shape_1_1|].
  apply (linear_back_formulas (small_net 1) [[1%R]] [[1%R]] [[1%R]] [[0%R]]
           1 1 1); (lia || apply has_shape_1_1).
Defined.

Lemma cost_is_cross_entropy_plus_L2_witness :
  (0 < 1)%R ∧
  has_nonzero_weight (tiny_parameters 1%R 0%R 1%R 0%R) ∧
  (L2_formula 0%R 1 (tiny_parameters 1%R 0%R 1%R 0%R)
   < L2_formula 1%R 1 (tiny_parameters 1%R 0%R 1%R 0%R))%R.
Proof.
  assert (has_nonzero_weight (tiny_parameters 1%R 0%R 1%R 0%R)) as Hnz.
  { exists 1, [[1%R]], [1%R], 1%R.
    split; [rewrite tiny_parameters_size; lia|].
    split; [vm_compute; reflexivity|].
    split; [apply list_elem_of_here|]. split; [apply list_elem_of_here | lra]. }
  split; [lra|]. split; [exact Hnz|].
  apply (cost_is_cross_entropy_plus_L2 (small_net 1) [[1%R]] [[(1 / 2)%R]]
           (tiny_parameters 1%R 0%R 1%R 0%R) 1 0%R 1%R).
  - lia.
  - apply has_shape_1_1.
  - apply has_shape_1_1.
  - intros l Hl. apply tiny_parameters_weights.
    rewrite tiny_parameters_size in Hl. exact Hl.
  - lra.
  - exact Hnz.
Defined.

Lemma dropout_is_noop_at_keep_prob_one_witness :
  uniform_in_unit_interval sample_entropy ∧
  well_shaped (layer_dims (small_net (F:=R) 1)) (tiny_parameters 1%R 0%R 1%R 0%R) ∧
  Forall (λ kp, kp = 1%R) [1%R; 1%R; 1%R] ∧
  ∃ dropout_params s',
    init_dropout sample_entropy (small_net 1) [1%R; 1%R; 1%R] 1 fresh_state
    = OK (dropout_params, s') ∧
    L_model_forward [[1%R]] (tiny_parameters 1%R 0%R 1%R 0%R)
      dropout_params "train"
    = L_model_forward [[1%R]] (tiny_parameters 1%R 0%R 1%R 0%R) (∅, []) "test" ∧
    (last (layer_dims (small_net (F:=R) 1)) = Some 1 →
     succeeds (L_model_forward [[1%R]] (tiny_parameters 1%R 0%R 1%R 0%R)
                 dropout_params "train") = true).
Proof.
  split; [apply sample_entropy_uniform|].
  split; [apply tiny_parameters_well_shaped|].
  split; [by repeat constructor|].
  apply (dropout_is_noop_at_keep_prob_one sample_entropy (small_net 1)
           [[1%R]] (tiny_parameters 1%R 0%R 1%R 0%R) [1%R; 1%R; 1%R] 1 1
           fresh_state).
  - apply sample_entropy_uniform.
  - apply tiny_parameters_well_shaped.
  - simpl; lia.
  - reflexivity.
  - apply has_shape_1_1.
  - reflexivity.
  - by repeat constructor.
Defined.

Lemma predict_threshold_witness :
  well_shaped [1; 1; 1]
    (trained_params (trained_net (tiny_parameters 0%R 0%R 0%R 0%R))) ∧
  ∃ y probas caches,
    L_model_forward [[1%R]]
      (trained_params (trained_net (tiny_parameters 0%R 0%R 0%R 0%R)))
      (∅, []) "test"
    = OK (probas, caches) ∧
    predict (trained_net (tiny_parameters 0%R 0%R 0%R 0%R)) [[1%R]]
    = OK (y, probas) ∧
    has_shape 1 1 y ∧ has_shape 1 1 probas ∧
    ∀ i, i < 1 →
      (entry y 0 i = 1%R ∧ (1 / 2 < entry probas 0 i)%R) ∨
      (entry y 0 i = 0%R ∧ (entry probas 0 i <= 1 / 2)%R).
Proof.
  split; [apply tiny_parameters_well_shaped|].
  apply (predict_threshold (trained_net (tiny_parameters 0%R 0%R 0%R 0%R))
           [[1%R]] [1; 1; 1] 1 1).
  - apply tiny_parameters_well_shaped.
  - simpl; lia.
  - reflexivity.
  - reflexivity.
  - apply has_shape_1_1.
Defined.


(** ** The activation functions and their backward steps *)

Section ActivationShapes.
Context {F : Type} `{Scalar F}.

Lemma relu_eq (Z : ndarray F) :
  relu Z = OK (amap (λ z, if flt fzero z then z else fzero) Z).
Proof.
  unfold relu. by rewrite (py_assert_true _ (shape_amap _ Z)).
Qed.

Lemma leaky_relu_eq (Z : ndarray F) :
  leaky_relu Z
  = OK (amap (λ z, if fle fzero z then z else fmul z lit_0_01) Z).
Proof.
  unfold leaky_relu. by rewrite (py_assert_true _ (shape_amap _ Z)).
Qed.

Lemma Forall_amap (f : F → F) (P : F → Prop) (M : ndarray F) :
  (∀ x, P (f x)) → Forall (Forall P) (amap f M).
Proof.
  intros Hf. unfold amap. apply Forall_map, Forall_forall. intros row _.
  apply Forall_map, Forall_forall. intros x _. apply Hf.
Qed.

Lemma amap_id_on (f : F → F) (P : F → Prop) (M : ndarray F) :
  (∀ x, P x → f x = x) → Forall (Forall P) M → amap f M = M.
Proof.
  intros Hf HM. unfold amap. induction HM as [|row M Hrow _ IH]; [done|].
  simpl. f_equal; [|done]. clear IH.
  induction Hrow as [|x row Hx _ IH]; [done|]. simpl. by rewrite Hf, IH.
Qed.

Lemma relu_backward_same_shape (r c : nat) (dA Z : ndarray F) :
  has_shape r c dA → has_shape r c Z →
  relu_backward dA Z
  = OK (elementwise (λ d z, if fle z fzero then fzero else d) dA Z).
Proof.
  intros HdA HZ. unfold relu_backward.
  rewrite decide_True by (symmetry; by eapply has_shape_same_shape).
  rewrite py_assert_true; [done|].
  eapply has_shape_same_shape; [|done]. by apply has_shape_zip_with.
Qed.

Lemma lrelu_backward_same_shape (r c : nat) (dA Z : ndarray F) :
  has_shape r c dA → has_shape r c Z →
  lrelu_backward dA Z
  = OK (elementwise (λ d z, fmul d (if fle fzero z then fone else lit_0_01))
          dA Z).
Proof.
  intros HdA HZ. unfold lrelu_backward.
  rewrite (broadcast2_same_shape _ r c) by (done || by apply has_shape_amap).
  by rewrite zip_with_amap_r.
Qed.

Lemma amap_amap (f g : F → F) (M : ndarray F) :
  amap f (amap g M) = amap (λ x, f (g x)) M.
Proof.
  unfold amap. rewrite List.map_map. apply List.map_ext. intros row.
  by rewrite List.map_map.
Qed.

Lemma zip_with_diag (f : F → F → F) (g h : F → F) (M : ndarray F) :
  zip_with (zip_with f) (amap g M) (amap h M) = amap (λ x, f (g x) (h x)) M.
Proof.
  unfold amap. induction M as [|row M IH]; [done|]. simpl. f_equal; [|done].
  clear IH. induction row as [|x row IH]; [done|]. simpl. by f_equal.
Qed.

Lemma sigmoid_backward_same_shape (r c : nat) (dA Z : ndarray F) :
  has_shape r c dA → has_shape r c Z →
  sigmoid_backward dA Z
  = OK (elementwise (λ d z,
          fmul d (fmul (fdiv fone (fadd fone (fexp (fneg z))))
                    (fsub fone (fdiv fone (fadd fone (fexp (fneg z)))))))
          dA Z).
Proof.
  intros HdA HZ. unfold sigmoid_backward, sigmoid_derivative, sigmoid.
  rewrite (broadcast2_same_shape _ r c) by (by repeat apply has_shape_amap).
  rewrite OK_bind, amap_amap, zip_with_diag.
  rewrite (broadcast2_same_shape _ r c) by (done || by apply has_shape_amap).
  by rewrite zip_with_amap_r.
Qed.

Lemma pointwise_relu (z : F) :
  pointwise relu z = if flt fzero z then z else fzero.
Proof. unfold pointwise. by rewrite relu_eq. Qed.

Lemma pointwise_leaky_relu (z : F) :
  pointwise leaky_relu z = if fle fzero z then z else fmul z lit_0_01.
Proof. unfold pointwise. by rewrite leaky_relu_eq. Qed.

Lemma pointwise_sigmoid (z : F) :
  pointwise (λ Z, OK (sigmoid Z)) z
  = fdiv fone (fadd fone (fexp (fneg z))).
Proof. reflexivity. Qed.
End ActivationShapes.

Section ActivationsOverReals.
Implicit Types Z dA : ndarray R.

Lemma Rltb_true (x y : R) : (x < y)%R → Rltb x y = true.
Proof. intros Hxy. unfold Rltb. by destruct (Rlt_dec x y). Qed.
Lemma Rltb_false (x y : R) : (y <= x)%R → Rltb x y = false.
Proof. intros Hxy. unfold Rltb. destruct (Rlt_dec x y); [lra|done]. Qed.
Lemma Rleb_true (x y : R) : (x <= y)%R → Rleb x y = true.
Proof. intros Hxy. unfold Rleb. by destruct (Rle_dec x y). Qed.
Lemma Rleb_false (x y : R) : (y < x)%R → Rleb x y = false.
Proof. intros Hxy. unfold Rleb. destruct (Rle_dec x y); [lra|done]. Qed.

(** A function that is affine near [x] has the slope as derivative. *)
Lemma derivable_pt_lim_locally_affine (f : R → R) (x a b δ : R) :
  (0 < δ)%R →
  (∀ y, (Rabs (y - x) < δ)%R → f y = (a * y + b)%R) →
  derivable_pt_lim f x a.
Proof.
  intros Hδ Hf eps Heps. exists (mkposreal δ Hδ). simpl. intros h Hh Hlt.
  rewrite (Hf (x + h)%R), (Hf x).
  - replace ((a * (x + h) + b - (a * x + b)) / h - a)%R with 0%R
      by (field; done).
    by rewrite Rabs_R0.
  - replace (x - x)%R with 0%R by lra. by rewrite Rabs_R0.
  - by replace (x + h - x)%R with h by lra.
Qed.

Lemma exp_neg_pos (z : R) : (0 < exp (- z))%R.
Proof. apply exp_pos. Qed.

Lemma sigmoid_scalar_range (z : R) :
  (0 < 1 / (1 + exp (- z)) < 1)%R.
Proof.
  pose proof (exp_pos (- z)) as He. split.
  - apply Rdiv_lt_0_compat; lra.
  - apply (Rmult_lt_reg_r (1 + exp (- z))); [lra|]. field_simplify; lra.
Qed.

Lemma sigmoid_scalar_derivative (z : R) :
  derivable_pt_lim (λ z, 1 / (1 + exp (- z)))%R z
    (1 / (1 + exp (- z)) * (1 - 1 / (1 + exp (- z))))%R.
Proof.
  pose proof (exp_pos (- z)) as He.
  assert (derivable_pt_lim (comp exp (- id)) z (exp (- z) * -1)%R) as Hexp.
  { apply derivable_pt_lim_comp.
    - apply derivable_pt_lim_opp, derivable_pt_lim_id.
    - apply derivable_pt_lim_exp. }
  assert (derivable_pt_lim (fct_cte 1 + comp exp (- id)) z
            (0 + exp (- z) * -1)%R) as Hden.
  { apply derivable_pt_lim_plus; [apply derivable_pt_lim_const | done]. }
  pose proof (derivable_pt_lim_div (fct_cte 1) _ z _ _
                (derivable_pt_lim_const 1 z) Hden) as Hdiv.
  unfold plus_fct, fct_cte, comp, opp_fct, id in Hdiv.
  specialize (Hdiv ltac:(lra)).
  eapply derivable_pt_lim_ext in Hdiv; last first.
  { intros y. unfold div_fct, plus_fct, fct_cte, comp, opp_fct, id.
    reflexivity. }
  replace (1 / (1 + exp (- z)) * (1 - 1 / (1 + exp (- z))))%R
    with ((0 * (1 + exp (- z)) - (0 + exp (- z) * -1) * 1)
          / (1 + exp (- z))²)%R; [done|].
  unfold Rsqr. field. lra.
Qed.
End ActivationsOverReals.


(** ** Properties of the activation functions *)

(** X1 ([relu]).  [relu] never raises: its shape assertion always holds.
    The result has the shape of the argument, each entry is the larger of
    0 and the argument's entry, so no entry is negative; applying [relu]
    again changes nothing, and an array without negative entries is
    returned as it is. *)
Theorem relu_clamps_at_zero (Z : ndarray R) :
  ∃ A, relu Z = OK A ∧ shape A = shape Z ∧
       (∀ r c, has_shape r c Z →
          has_shape r c A ∧
          ∀ i j, i < r → j < c → entry A i j = Rmax 0 (entry Z i j)) ∧
       Forall (Forall (λ a, 0 <= a)%R) A ∧
       relu A = OK A ∧
       (Forall (Forall (λ z, 0 <= z)%R) Z → A = Z).
Proof.
  eexists. split; [apply relu_eq|]. split; [apply shape_amap|].
  assert (∀ z : R, (if flt fzero z then z else fzero) = Rmax 0 z) as Hmax.
  { intros z. simpl. unfold fzero. simpl. unfold Rltb, Rmax.
    destruct (Rlt_dec 0 z), (Rle_dec 0 z); lra. }
  split; [|split; [|split]].
  - intros r c HZ. split; [by apply has_shape_amap|].
    intros i j Hi Hj. by rewrite (entry_amap _ r c), Hmax.
  - apply Forall_amap. intros z. rewrite Hmax. apply Rmax_l.
  - rewrite relu_eq. f_equal.
    apply (amap_id_on _ (λ a, 0 <= a)%R).
    + intros z Hz. rewrite Hmax. by apply Rmax_right.
    + apply Forall_amap. intros z. rewrite Hmax. apply Rmax_l.
  - apply amap_id_on. intros z Hz. rewrite Hmax. by apply Rmax_right.
Qed.

(** X2 ([sigmoid]).  Every entry of [sigmoid Z] lies in the closed
    interval from 0 to 1, the shape is that of [Z], and negating the
    argument gives the complementary probabilities:
    sigmoid(−Z) = 1 − sigmoid(Z).  The bounds are stated closed because
    the program attains them: in double precision 1/(1 + exp(−z)) is
    exactly 1 for large z and exactly 0 for very negative z. *)
Theorem sigmoid_range_and_symmetry (Z : ndarray R) :
  shape (sigmoid Z) = shape Z ∧
  Forall (Forall (λ a, 0 <= a <= 1)%R) (sigmoid Z) ∧
  sigmoid (amap Ropp Z) = amap (λ a, 1 - a)%R (sigmoid Z).
Proof.
  split; [apply shape_amap|]. split.
  - apply Forall_amap. intros z.
    pose proof (sigmoid_scalar_range z) as Hs. simpl. unfold fone. simpl.
    lra.
  - unfold sigmoid. rewrite !amap_amap. unfold amap.
    apply List.map_ext. intros row. apply List.map_ext. intros z.
    simpl. unfold fone. simpl. rewrite Ropp_involutive, (exp_Ropp z).
    pose proof (exp_pos z). field. split; lra.
Qed.

(** X3 ([relu_backward]).  On a gradient and a pre-activation of one
    shape, [relu_backward] returns a gradient of that shape that is 0
    where the pre-activation is at most 0 and the incoming gradient
    elsewhere; wherever the pre-activation is not 0 this is the incoming
    gradient times the derivative of [relu] there. *)
Theorem relu_backward_is_relu_slope (dA Z : ndarray R) (r c : nat) :
  has_shape r c dA → has_shape r c Z →
  ∃ dZ, relu_backward dA Z = OK dZ ∧ has_shape r c dZ ∧
    ∀ i j, i < r → j < c →
      ((entry Z i j <= 0)%R → entry dZ i j = 0%R) ∧
      ((0 < entry Z i j)%R → entry dZ i j = entry dA i j) ∧
      (entry Z i j ≠ 0%R →
       ∃ slope, derivable_pt_lim (pointwise relu) (entry Z i j) slope ∧
                entry dZ i j = (entry dA i j * slope)%R).
Proof.
  intros HdA HZ. eexists. split; [by apply (relu_backward_same_shape r c)|].
  split; [by apply has_shape_elementwise|].
  intros i j Hi Hj. rewrite (entry_elementwise _ r c) by done.
  set (z := entry Z i j). set (d := entry dA i j).
  simpl. unfold fzero. simpl.
  split; [|split].
  - intros Hz. by rewrite Rleb_true.
  - intros Hz. by rewrite Rleb_false.
  - intros Hz. destruct (Rle_dec z 0) as [Hle|Hgt].
    + exists 0%R. rewrite Rleb_true by done. split; [|lra].
      apply (derivable_pt_lim_locally_affine _ z 0 0 (- z)); [lra|].
      intros y Hy. rewrite pointwise_relu. simpl. unfold fzero. simpl.
      rewrite Rltb_false; [lra|].
      apply Rabs_def2 in Hy. lra.
    + exists 1%R. rewrite Rleb_false by lra. split; [|lra].
      apply (derivable_pt_lim_locally_affine _ z 1 0 z); [lra|].
      intros y Hy. rewrite pointwise_relu. simpl. unfold fzero. simpl.
      rewrite Rltb_true; [lra|].
      apply Rabs_def2 in Hy. lra.
Qed.

Lemma relu_backward_is_relu_slope_witness :
  has_shape 1 2 [[1%R; 1%R]] ∧ has_shape 1 2 [[(-1)%R; 2%R]] ∧
  ∃ dZ, relu_backward [[1%R; 1%R]] [[(-1)%R; 2%R]] = OK dZ ∧
    has_shape 1 2 dZ ∧
    ∀ i j, i < 1 → j < 2 →
      ((entry [[(-1)%R; 2%R]] i j <= 0)%R → entry dZ i j = 0%R) ∧
      ((0 < entry [[(-1)%R; 2%R]] i j)%R →
       entry dZ i j = entry [[1%R; 1%R]] i j) ∧
      (entry [[(-1)%R; 2%R]] i j ≠ 0%R →
       ∃ slope,
         derivable_pt_lim (pointwise relu) (entry [[(-1)%R; 2%R]] i j) slope ∧
         entry dZ i j = (entry [[1%R; 1%R]] i j * slope)%R).
Proof.
  assert (∀ a b : R, has_shape 1 2 [[a; b]]) as Hs.
  { intros a b. split; [reflexivity | by repeat constructor]. }
  split; [apply Hs|]. split; [apply Hs|].
  apply (relu_backward_is_relu_slope [[1%R; 1%R]] [[(-1)%R; 2%R]] 1 2);
    apply Hs.
Defined.

(** X4 ([leaky_relu], [lrelu_backward]).  On arrays of one shape,
    [leaky_relu] keeps an entry that is at least 0 and multiplies a
    negative one by 0.01, and [lrelu_backward] keeps, respectively
    multiplies by 0.01, the incoming gradient; wherever the
    pre-activation is not 0 the factor is the derivative of [leaky_relu]
    there. *)
Theorem lrelu_backward_is_leaky_relu_slope (dA Z : ndarray R) (r c : nat) :
  has_shape r c dA → has_shape r c Z →
  ∃ A dZ,
    leaky_relu Z = OK A ∧ lrelu_backward dA Z = OK dZ ∧
    has_shape r c A ∧ has_shape r c dZ ∧
    ∀ i j, i < r → j < c →
      entry A i j = pointwise leaky_relu (entry Z i j) ∧
      ((0 <= entry Z i j)%R →
       entry A i j = entry Z i j ∧ entry dZ i j = entry dA i j) ∧
      ((entry Z i j < 0)%R →
       entry A i j = (entry Z i j / 100)%R ∧
       entry dZ i j = (entry dA i j / 100)%R) ∧
      (entry Z i j ≠ 0%R →
       ∃ slope,
         derivable_pt_lim (pointwise leaky_relu) (entry Z i j) slope ∧
         entry dZ i j = (entry dA i j * slope)%R).
Proof.
  intros HdA HZ. eexists _, _.
  split; [apply leaky_relu_eq|].
  split; [by apply (lrelu_backward_same_shape r c)|].
  split; [by apply has_shape_amap|].
  split; [by apply has_shape_elementwise|].
  intros i j Hi Hj.
  rewrite (entry_elementwise _ r c), (entry_amap _ r c) by done.
  rewrite pointwise_leaky_relu.
  set (z := entry Z i j). set (d := entry dA i j).
  assert (∀ y : R, (if fle fzero y then y else fmul y lit_0_01)
                   = if Rleb 0 y then y else (y / 100)%R) as Hleaky.
  { intros y. simpl. unfold fzero, lit_0_01. simpl.
    destruct (Rleb 0 y); lra. }
  assert ((if fle fzero z then fone else lit_0_01)
          = if Rleb 0 z then 1%R else (1 / 100)%R) as Hslope by done.
  rewrite Hleaky, Hslope. simpl fmul.
  split; [done|]. split; [|split].
  - intros Hz. rewrite Rleb_true by done. split; [done | lra].
  - intros Hz. rewrite Rleb_false by done. split; [done | lra].
  - intros Hz. destruct (Rle_dec 0 z) as [Hge|Hlt].
    + exists 1%R. rewrite Rleb_true by done. split; [|done].
      apply (derivable_pt_lim_locally_affine _ z 1 0 z); [lra|].
      intros y Hy. rewrite pointwise_leaky_relu, Hleaky.
      rewrite Rleb_true; [lra|]. apply Rabs_def2 in Hy. lra.
    + exists (1 / 100)%R. rewrite Rleb_false by lra. split; [|done].
      apply (derivable_pt_lim_locally_affine _ z (1 / 100) 0 (- z)); [lra|].
      intros y Hy. rewrite pointwise_leaky_relu, Hleaky.
      rewrite Rleb_false; [lra|]. apply Rabs_def2 in Hy. lra.
Qed.

Lemma lrelu_backward_is_leaky_relu_slope_witness :
  has_shape 1 2 [[1%R; 1%R]] ∧ has_shape 1 2 [[(-1)%R; 2%R]] ∧
  ∃ A dZ,
    leaky_relu [[(-1)%R; 2%R]] = OK A ∧
    lrelu_backward [[1%R; 1%R]] [[(-1)%R; 2%R]] = OK dZ ∧
    has_shape 1 2 A ∧ has_shape 1 2 dZ.
Proof.
  assert (∀ a b : R, has_shape 1 2 [[a; b]]) as Hs.
  { intros a b. split; [reflexivity | by repeat constructor]. }
  split; [apply Hs|]. split; [apply Hs|].
  destruct (lrelu_backward_is_leaky_relu_slope
              [[1%R; 1%R]] [[(-1)%R; 2%R]] 1 2 (Hs _ _) (Hs _ _))
    as (A & dZ & HA & HdZ & HsA & HsdZ & _).
  by exists A, dZ.
Defined.

(** X5 ([sigmoid_backward]).  On a gradient and a pre-activation of one
    shape, [sigmoid_backward] returns a gradient of that shape: each
    entry is the incoming gradient times the derivative of [sigmoid] at
    the pre-activation, a factor that lies in the closed interval from 0
    to 1/4 (the program's factor s·(1 − s) is exactly 0 once s rounds to
    0 or to 1). *)
Theorem sigmoid_backward_is_sigmoid_slope (dA Z : ndarray R) (r c : nat) :
  has_shape r c dA → has_shape r c Z →
  ∃ dZ, sigmoid_backward dA Z = OK dZ ∧ has_shape r c dZ ∧
    ∀ i j, i < r → j < c →
      ∃ slope,
        derivable_pt_lim (pointwise (λ Z, OK (sigmoid Z))) (entry Z i j) slope ∧
        (0 <= slope <= 1 / 4)%R ∧
        entry dZ i j = (entry dA i j * slope)%R.
Proof.
  intros HdA HZ. eexists.
  split; [by apply (sigmoid_backward_same_shape r c)|].
  split; [by apply has_shape_elementwise|].
  intros i j Hi Hj. rewrite (entry_elementwise _ r c) by done.
  set (z := entry Z i j). set (d := entry dA i j).
  exists (1 / (1 + exp (- z)) * (1 - 1 / (1 + exp (- z))))%R.
  split; [|split].
  - apply (derivable_pt_lim_ext (λ z, 1 / (1 + exp (- z)))%R); [done|].
    apply sigmoid_scalar_derivative.
  - pose proof (sigmoid_scalar_range z) as Hs.
    set (s := (1 / (1 + exp (- z)))%R) in *. split; [nra|].
    pose proof (Rle_0_sqr (s - 1 / 2)) as Hsq. unfold Rsqr in Hsq. nra.
  - reflexivity.
Qed.

Lemma sigmoid_backward_is_sigmoid_slope_witness :
  has_shape 1 1 [[1%R]] ∧
  ∃ dZ, sigmoid_backward [[1%R]] [[0%R]] = OK dZ ∧ has_shape 1 1 dZ ∧
    ∀ i j, i < 1 → j < 1 →
      ∃ slope,
        derivable_pt_lim (pointwise (λ Z, OK (sigmoid Z)))
          (entry [[0%R]] i j) slope ∧
        (0 <= slope <= 1 / 4)%R ∧
        entry dZ i j = (entry [[1%R]] i j * slope)%R.
Proof.
  split; [apply has_shape_1_1|].
  apply (sigmoid_backward_is_sigmoid_slope [[1%R]] [[0%R]] 1 1);
    apply has_shape_1_1.
Defined.


(** ** Initialisation of the parameters, the momentum and the masks *)

Section Initialisation.
Context {F : Type} `{Scalar F}.
Implicit Types parameters v : gmap string (ndarray F).

Lemma has_shape_zeros (r c : nat) : has_shape r c (zeros (F:=F) r c).
Proof.
  split; [apply length_replicate|].
  apply Forall_replicate, length_replicate.
Qed.

Lemma dims_positive (dims : list nat) (l nl : nat) :
  Forall (λ d, 0 < d) dims → dims !! l = Some nl → 0 < nl.
Proof.
  intros Hpos Hl. rewrite Forall_forall in Hpos. apply Hpos.
  by eapply list_elem_of_lookup_2.
Qed.

Lemma init_params_loop (ω : Entropy F) (n : list nat) (s : RandomState)
    (k : nat) :
  Forall (λ d, 0 < d) n → k ≤ length n - 1 →
  ∃ parameters s',
    for_each (seq 1 k) (λ '(params, s) l,
        nl ← index n l;
        nl1 ← index n (l - 1);
        let '(G, s') := randn ω nl nl1 s in
        let W := amap (λ g, fmul g lit_0_001) G in
        let b := zeros nl 1 in
        _ ← py_assert (bool_decide (shape W = (nl, nl1)));
        _ ← py_assert (bool_decide (shape b = (nl, 1)));
        OK (<[key "b" l := b]> (<[key "W" l := W]> params), s'))
      (∅, s) = OK (parameters, s') ∧
    size parameters = 2 * k ∧
    randn_calls s' = randn_calls s + k ∧
    rand_calls s' = rand_calls s ∧
    permutation_calls s' = permutation_calls s ∧
    (∀ l, k < l →
       parameters !! key "W" l = None ∧ parameters !! key "b" l = None) ∧
    (∀ l nl nl1, 1 ≤ l ≤ k → n !! l = Some nl → n !! (l - 1) = Some nl1 →
       parameters !! key "W" l
       = Some (amap (λ g, fmul g lit_0_001)
                 (tabulate nl nl1 (randn_sample ω (randn_calls s + (l - 1))))) ∧
       parameters !! key "b" l = Some (zeros nl 1)).
Proof.
  intros Hpos. induction k as [|k IH]; intros Hk.
  - exists ∅, s. split; [done|]. split; [apply map_size_empty|].
    split_and!; try done; try lia.
  - destruct IH as (p & s' & Hrun & Hsize & Hrn & Hr & Hp & Hnone & Hsome);
      [lia|].
    destruct (lookup_lt_is_Some_2 n (S k)) as [nl Hnl]; [lia|].
    destruct (lookup_lt_is_Some_2 n k) as [nl1 Hnl1]; [lia|].
    pose proof (dims_positive _ _ _ Hpos Hnl) as Hnlpos.
    rewrite seq_S, for_each_snoc, Hrun, OK_bind. simpl "+".
    rewrite (index_OK _ _ _ Hnl), OK_bind.
    replace (S k - 1) with k by lia.
    rewrite (index_OK _ _ _ Hnl1), OK_bind. unfold randn.
    set (W := amap _ (tabulate nl nl1 _)).
    assert (has_shape nl nl1 W) as SW.
    { apply has_shape_amap, has_shape_tabulate. }
    rewrite (py_assert_true (shape W = (nl, nl1)))
      by (by apply has_shape_shape).
    rewrite OK_bind.
    rewrite (py_assert_true (shape (zeros nl 1) = (nl, 1)))
      by (apply has_shape_shape; [apply has_shape_zeros | done]).
    rewrite OK_bind. eexists _, _. split; [done|].
    destruct (Hnone (S k)) as [HWn Hbn]; [lia|].
    split_and!; simpl; try lia.
    + rewrite map_size_insert_None, map_size_insert_None; [lia|done|].
      rewrite lookup_insert_ne by key_ne. done.
    + intros l Hl. destruct (Hnone l) as [HWl Hbl]; [lia|].
      rewrite !lookup_insert_ne by key_ne. done.
    + intros l nl' nl1' Hl Hnl' Hnl1'.
      destruct (decide (l = S k)) as [->|Hne].
      * replace (S k - 1) with k in * by lia. simplify_eq.
        rewrite lookup_insert_ne, lookup_insert_eq by key_ne.
        rewrite lookup_insert_eq. subst W. by rewrite Hrn.
      * rewrite !lookup_insert_ne by key_ne. apply Hsome; [lia|done..].
Qed.

Lemma init_params_OK (ω : Entropy F) (n : list nat) (s : RandomState) :
  Forall (λ d, 0 < d) n →
  ∃ parameters s',
    init_params ω n s = OK (parameters, s') ∧
    well_shaped n parameters ∧
    randn_calls s' = randn_calls s + (length n - 1) ∧
    rand_calls s' = rand_calls s ∧
    permutation_calls s' = permutation_calls s ∧
    (∀ l nl nl1, 1 ≤ l < length n → n !! l = Some nl →
       n !! (l - 1) = Some nl1 →
       parameters !! key "W" l
       = Some (amap (λ g, fmul g lit_0_001)
                 (tabulate nl nl1 (randn_sample ω (randn_calls s + (l - 1))))) ∧
       parameters !! key "b" l = Some (zeros nl 1)).
Proof.
  intros Hpos.
  destruct (init_params_loop ω n s (length n - 1) Hpos)
    as (p & s' & Hrun & Hsize & Hrn & Hr & Hp & _ & Hsome); [lia|].
  exists p, s'. split; [exact Hrun|]. split_and!; try done.
  - split; [|split; [done|]].
    + rewrite Hsize. rewrite Nat.mul_comm. by rewrite Nat.div_mul.
    + intros l Hl.
      destruct (lookup_lt_is_Some_2 n l) as [nl Hnl]; [lia|].
      destruct (lookup_lt_is_Some_2 n (l - 1)) as [nl1 Hnl1]; [lia|].
      destruct (Hsome l nl nl1) as [HW Hb]; [lia|done|done|].
      eexists _, _, nl, nl1. split_and!; try done.
      * apply has_shape_amap, has_shape_tabulate.
      * apply has_shape_zeros.
  - intros l nl nl1 Hl. apply Hsome. lia.
Qed.

Lemma init_v_loop (n : list nat) (k : nat) :
  k ≤ length n - 1 →
  ∃ v,
    for_each (seq 1 k) (λ v l,
        nl ← index n l;
        nl1 ← index n (l - 1);
        OK (<[key "db" l := zeros nl 1]> (<[key "dW" l := zeros nl nl1]> v)))
      ∅ = OK v ∧
    size v = 2 * k ∧
    (∀ l, k < l → v !! key "dW" l = None ∧ v !! key "db" l = None) ∧
    (∀ l nl nl1, 1 ≤ l ≤ k → n !! l = Some nl → n !! (l - 1) = Some nl1 →
       v !! key "dW" l = Some (zeros nl nl1) ∧
       v !! key "db" l = Some (zeros nl 1)).
Proof.
  induction k as [|k IH]; intros Hk.
  - exists ∅. split; [done|]. split; [apply map_size_empty|]. split.
    + intros l _. by rewrite !lookup_empty.
    + intros; lia.
  - destruct IH as (v & Hrun & Hsize & Hnone & Hsome); [lia|].
    destruct (lookup_lt_is_Some_2 n (S k)) as [nl Hnl]; [lia|].
    destruct (lookup_lt_is_Some_2 n k) as [nl1 Hnl1]; [lia|].
    rewrite seq_S, for_each_snoc, Hrun, OK_bind. simpl "+".
    rewrite (index_OK _ _ _ Hnl), OK_bind.
    replace (S k - 1) with k by lia.
    rewrite (index_OK _ _ _ Hnl1), OK_bind.
    eexists. split; [done|].
    destruct (Hnone (S k)) as [HWn Hbn]; [lia|].
    split_and!.
    + rewrite map_size_insert_None, map_size_insert_None; [lia|done|].
      rewrite lookup_insert_ne by key_ne. done.
    + intros l Hl. destruct (Hnone l) as [HWl Hbl]; [lia|].
      rewrite !lookup_insert_ne by key_ne. done.
    + intros l nl' nl1' Hl Hnl' Hnl1'.
      destruct (decide (l = S k)) as [->|Hne].
      * replace (S k - 1) with k in * by lia. simplify_eq.
        rewrite lookup_insert_ne, lookup_insert_eq by key_ne.
        by rewrite lookup_insert_eq.
      * rewrite !lookup_insert_ne by key_ne. apply Hsome; [lia|done..].
Qed.

Lemma init_v_OK (n : list nat) :
  ∃ v,
    init_v (F:=F) n = OK v ∧ size v = 2 * (length n - 1) ∧
    (∀ l nl nl1, 1 ≤ l < length n → n !! l = Some nl →
       n !! (l - 1) = Some nl1 →
       v !! key "dW" l = Some (zeros nl nl1) ∧
       v !! key "db" l = Some (zeros nl 1)).
Proof.
  destruct (init_v_loop n (length n - 1)) as (v & Hrun & Hsize & _ & Hsome);
    [lia|].
  exists v. split; [exact Hrun|]. split; [done|].
  intros l nl nl1 Hl. apply Hsome. lia.
Qed.

Lemma init_dropout_loop_shapes (ω : Entropy F) (self : NeuralNet F)
    (keep_prob : list F) (m k : nat) (s : RandomState) :
  Forall (λ d, 0 < d) (layer_dims self) →
  k ≤ length (layer_dims self) → k ≤ length keep_prob →
  ∃ D s',
    for_each (seq 0 k) (init_dropout_layer ω self keep_prob m) (∅, s)
    = OK (D, s') ∧
    randn_calls s' = randn_calls s ∧
    rand_calls s' = rand_calls s + k ∧
    permutation_calls s' = permutation_calls s ∧
    ∀ l nl kp, l < k → layer_dims self !! l = Some nl →
      keep_prob !! l = Some kp →
      D !! pretty l
      = Some (map (map (λ u, flt u kp))
                (tabulate nl m (rand_sample ω (rand_calls s + l)))).
Proof.
  intros Hpos. induction k as [|k IH]; intros Hk Hkp.
  - exists ∅, s. split; [done|]. split_and!; try done; try lia.
  - destruct IH as (D & s' & Hrun & Hrn & Hr & Hp & HD); [lia..|].
    destruct (lookup_lt_is_Some_2 (layer_dims self) k) as [nl Hnl]; [lia|].
    destruct (lookup_lt_is_Some_2 keep_prob k) as [kp Hkpk]; [lia|].
    pose proof (dims_positive _ _ _ Hpos Hnl) as Hnlpos.
    rewrite seq_S, for_each_snoc, Hrun, OK_bind. simpl "+".
    unfold init_dropout_layer, rand.
    rewrite (index_OK _ _ _ Hnl), OK_bind, (index_OK _ _ _ Hkpk), OK_bind.
    set (Dk := map (map (λ u, flt u kp)) _).
    assert (has_shape nl m Dk) as SDk.
    { eapply has_shape_map; [|apply has_shape_tabulate].
      intros row Hrow. by rewrite length_map. }
    rewrite py_assert_true by (by apply has_shape_shape).
    rewrite OK_bind. eexists _, _. split; [done|].
    split_and!; simpl; try lia.
    intros l nl' kp' Hl Hnl' Hkp'. destruct (decide (l = k)) as [->|Hne].
    + simplify_eq. rewrite lookup_insert_eq. subst Dk. by rewrite Hr.
    + rewrite lookup_insert_ne by (intros ?%(inj pretty); lia).
      apply HD; [lia|done..].
Qed.

Lemma init_dropout_OK (ω : Entropy F) (self : NeuralNet F)
    (keep_prob : list F) (m : nat) (s : RandomState) :
  Forall (λ d, 0 < d) (layer_dims self) →
  length (layer_dims self) ≤ length keep_prob →
  ∃ D s',
    init_dropout ω self keep_prob m s = OK ((D, keep_prob), s') ∧
    randn_calls s' = randn_calls s ∧
    rand_calls s' = rand_calls s + length (layer_dims self) ∧
    permutation_calls s' = permutation_calls s ∧
    ∀ l nl kp, layer_dims self !! l = Some nl → keep_prob !! l = Some kp →
      D !! pretty l
      = Some (map (map (λ u, flt u kp))
                (tabulate nl m (rand_sample ω (rand_calls s + l)))).
Proof.
  intros Hpos Hlen.
  destruct (init_dropout_loop_shapes ω self keep_prob m
              (length (layer_dims self)) s)
    as (D & s' & Hrun & Hrn & Hr & Hp & HD); [done|lia|done|].
  unfold init_dropout. rewrite Hrun, OK_bind.
  exists D, s'. split; [done|]. split_and!; try done.
  intros l nl kp Hnl Hkp. apply HD; [by eapply lookup_lt_Some|done..].
Qed.

Lemma for_each_raise {A S} (xs ys : list A) (x : A) (body : S → A → result S)
    (acc acc' : S) (e : exception) :
  for_each xs body acc = OK acc' → body acc' x = Raise e →
  for_each (xs ++ x :: ys) body acc = Raise e.
Proof.
  intros Hxs Hx. rewrite for_each_app, Hxs, OK_bind. simpl. by rewrite Hx.
Qed.
End Initialisation.


(** ** Forward propagation: shapes, caches and the linear step *)

Section ForwardShapes.
Context {F : Type} `{Scalar F}.
Implicit Types parameters : gmap string (ndarray F).
Implicit Types dropout_params : gmap string (ndarray bool) * list F.

Lemma nth_replicate_lt {A} (n j : nat) (x d : A) :
  j < n → nth j (replicate n x) d = x.
Proof.
  intros Hj. rewrite nth_lookup, lookup_replicate_2; done.
Qed.

(** Adding a column vector to every column, entry by entry *)
Lemma broadcast2_column_entry (f : F → F → F) (r c : nat) (M N : ndarray F) :
  has_shape r c M → has_shape r 1 N → 0 < r →
  ∃ P, broadcast2 f M N = OK P ∧ has_shape r c P ∧
       ∀ i j, i < r → j < c →
         entry P i j = f (entry M i j) (entry N i 0).
Proof.
  intros HM HN Hr. unfold broadcast2.
  rewrite (has_shape_nrows r c M), (has_shape_nrows r 1 N) by done.
  rewrite (has_shape_ncols r c M), (has_shape_ncols r 1 N) by done.
  rewrite broadcast_dim_same, OK_bind.
  assert (broadcast_dim c 1 = OK c) as ->.
  { unfold broadcast_dim. repeat case_decide; (done || by subst || lia). }
  rewrite OK_bind. eexists. split; [done|].
  destruct HM as [HMr HMc], HN as [HNr HNc].
  rewrite !stretch_id by done.
  assert (∀ x y, length x = c → length y = 1 →
            zip_with f (stretch c x) (stretch c y)
            = map (λ a, f a (nth 0 y fzero)) x) as Hrow.
  { intros x y Hx Hy. rewrite (stretch_id c x) by done.
    destruct y as [|y0 [|??]]; simpl in Hy; try lia. simpl.
    subst c. clear. induction x as [|a x IH]; [done|]. simpl. by f_equal. }
  split; [split|].
  - rewrite length_zip_with. lia.
  - eapply Forall_zip_with; [|exact HMc|exact HNc].
    intros x y Hx Hy. simpl in *. rewrite Hrow by done.
    by rewrite length_map.
  - intros i j Hi Hj. unfold entry.
    destruct (lookup_lt_is_Some_2 M i) as [x Hx]; [lia|].
    destruct (lookup_lt_is_Some_2 N i) as [y Hy]; [lia|].
    rewrite Forall_forall in HMc, HNc.
    pose proof (HMc x (list_elem_of_lookup_2 _ _ _ Hx)) as Hlx.
    pose proof (HNc y (list_elem_of_lookup_2 _ _ _ Hy)) as Hly.
    rewrite (nth_lookup_Some _ _ _ _ Hx), (nth_lookup_Some _ _ _ _ Hy).
    assert (zip_with (λ x0 y0, zip_with f (stretch c x0) (stretch c y0)) M N
            !! i = Some (zip_with f (stretch c x) (stretch c y))) as HP.
    { rewrite lookup_zip_with, Hx. simpl. rewrite Hy. done. }
    rewrite (nth_lookup_Some _ _ [] _ HP), Hrow by done.
    destruct (lookup_lt_is_Some_2 x j) as [a Ha]; [lia|].
    assert (map (λ a, f a (nth 0 y fzero)) x !! j
            = Some (f a (nth 0 y fzero))) as Hg.
    { rewrite list_lookup_fmap, Ha. done. }
    rewrite (nth_lookup_Some _ _ fzero _ Hg).
    by rewrite (nth_lookup_Some _ _ _ _ Ha).
Qed.

(** The linear step: Z = W·A_prev + b, with b added to every column *)
Lemma linear_forward_OK (A_prev W b : ndarray F) (nl nl1 m : nat) :
  0 < nl → 0 < nl1 →
  has_shape nl nl1 W → has_shape nl 1 b → has_shape nl1 m A_prev →
  ∃ Z, linear_forward A_prev A_prev W b = OK (Z, (A_prev, W, b)) ∧
       has_shape nl m Z ∧
       ∀ i j, i < nl → j < m →
         entry Z i j
         = fadd (big_sum (λ t, fmul (entry W i t) (entry A_prev t j)) nl1)
             (entry b i 0).
Proof.
  intros Hnl Hnl1 SW Sb SA.
  destruct (dot_OK nl nl1 m W A_prev) as (WA & HWA & SWA & HeWA); [done..|].
  destruct (broadcast2_column_entry fadd nl m WA b)
    as (Z & HZ & SZ & HeZ); [done..|].
  unfold linear_forward. rewrite HWA, OK_bind, HZ, OK_bind.
  rewrite (py_assert_true (shape Z = (nrows W, ncols A_prev))); last first.
  { rewrite (has_shape_shape nl m Z), (has_shape_nrows nl nl1 W),
      (has_shape_ncols nl1 m A_prev) by done. done. }
  rewrite OK_bind. exists Z. split; [done|]. split; [done|].
  intros i j Hi Hj. by rewrite HeZ, HeWA.
Qed.

Lemma activation_forward_cache (A_prev W b : ndarray F) (activation : string)
    (nl nl1 m : nat) :
  activation = "Leaky ReLU" ∨ activation = "Sigmoid" →
  0 < nl → 0 < nl1 →
  has_shape nl nl1 W → has_shape nl 1 b → has_shape nl1 m A_prev →
  ∃ A Z, activation_forward A_prev A_prev W b activation
         = OK (A, ((A_prev, W, b), Z)) ∧
         has_shape nl m A ∧ has_shape nl m Z ∧
         (activation = "Sigmoid" → A = sigmoid Z).
Proof.
  intros Hact Hnl Hnl1 SW Sb SA.
  destruct (linear_forward_OK A_prev W b nl nl1 m) as (Z & HZ & SZ & _);
    [done..|].
  unfold activation_forward. rewrite HZ, OK_bind.
  assert (∃ A, (if decide (activation = "ReLU") then relu Z
                else if decide (activation = "Sigmoid") then OK (sigmoid Z)
                else if decide (activation = "Leaky ReLU") then leaky_relu Z
                else Raise (UnboundLocalError "A")) = OK A
               ∧ has_shape nl m A
               ∧ (activation = "Sigmoid" → A = sigmoid Z))
    as (A & -> & SA' & HA').
  { destruct Hact as [-> | ->].
    - rewrite decide_False, decide_False, decide_True by done.
      destruct (leaky_relu_OK Z) as (A & -> & _ & HA).
      exists A. split; [done|]. split; [by apply HA | done].
    - rewrite decide_False, decide_True by done.
      eexists. split; [done|]. split; [by apply has_shape_amap | done]. }
  rewrite OK_bind.
  rewrite (py_assert_true (shape A = (nrows W, ncols A_prev))); last first.
  { rewrite (has_shape_shape nl m A), (has_shape_nrows nl nl1 W),
      (has_shape_ncols nl1 m A_prev) by done. done. }
  rewrite OK_bind. eauto 10.
Qed.

Lemma multiply_mask_same_shape (r c : nat) (A : ndarray F) (D : ndarray bool) :
  has_shape r c A → has_shape r c D →
  ∃ A', multiply_mask A D = OK A' ∧ has_shape r c A'.
Proof.
  intros SA SD. unfold multiply_mask.
  rewrite (broadcast2_same_shape _ r c) by done.
  eexists. split; [done|]. by apply has_shape_zip_with.
Qed.

Lemma apply_dropout_shape (dims : list nat) dropout_params (mode : string)
    (m l nl : nat) (A : ndarray F) :
  (mode = "train" → masks_shaped dims m dropout_params) →
  dims !! l = Some nl → has_shape nl m A →
  ∃ A', apply_dropout mode dropout_params l A = OK A' ∧ has_shape nl m A'.
Proof.
  intros Hmasks Hnl SA. unfold apply_dropout.
  destruct (decide (mode = "train")) as [Hmode|Hmode]; [|eauto].
  destruct dropout_params as [D keep_prob].
  destruct (Hmasks Hmode) as [Hlen HD]. simpl in *.
  destruct (HD l nl Hnl) as (Dl & HDl & SDl).
  destruct (multiply_mask_same_shape nl m A Dl) as (A' & HA' & SA');
    [done..|].
  destruct (lookup_lt_is_Some_2 keep_prob l) as [kp Hkp].
  { apply lookup_lt_Some in Hnl. lia. }
  rewrite (getitem_OK _ _ _ HDl), OK_bind, HA', OK_bind.
  rewrite (index_OK _ _ _ Hkp), OK_bind.
  eexists. split; [done|]. by apply has_shape_amap.
Qed.

Lemma layer_cached_snoc (dims : list nat) parameters (m l : nat) caches c :
  l ≤ length caches →
  layer_cached dims parameters m caches l →
  layer_cached dims parameters m (caches ++ [c]) l.
Proof.
  intros Hl (A_prev & W & b & Z & nl & nl1 & Hnl & Hnl1 & Hc & Hrest).
  exists A_prev, W, b, Z, nl, nl1. split_and!; try done; try apply Hrest.
  rewrite lookup_app_l; [done|]. by eapply lookup_lt_Some.
Qed.

(** The loop over the hidden layers 1..k *)
Lemma hidden_layers_forward_shapes (dims : list nat) parameters
    dropout_params (mode : string) (X : ndarray F) (n0 m k : nat) :
  well_shaped dims parameters →
  (mode = "train" → masks_shaped dims m dropout_params) →
  k < length dims → dims !! 0 = Some n0 → has_shape n0 m X →
  ∃ A caches nk,
    for_each (seq 1 k) (hidden_layer_forward parameters dropout_params mode)
      (X, []) = OK (A, caches) ∧
    dims !! k = Some nk ∧ has_shape nk m A ∧ length caches = k ∧
    ∀ l, 1 ≤ l ≤ k → layer_cached dims parameters m caches l.
Proof.
  intros Hwf Hmasks Hk H0 SX. induction k as [|k IH].
  - exists X, [], n0. split_and!; try done. intros; lia.
  - destruct IH as (A & caches & nk & Hrun & Hnk & SA & Hlen & Hc); [lia|].
    destruct (well_shaped_layer dims parameters (S k) Hwf)
      as (W & b & nl & nl1 & Hnl & Hnl1 & Hpos & Hpos1 & HW & Hb & SW & Sb);
      [lia|].
    replace (S k - 1) with k in Hnl1 by lia.
    assert (nl1 = nk) as -> by congruence.
    destruct (activation_forward_cache A W b "Leaky ReLU" nl nk m)
      as (A' & Z & HA' & SA' & SZ & _); [by left | done..|].
    destruct (apply_dropout_shape dims dropout_params mode m (S k) nl A')
      as (A'' & HA'' & SA''); [done..|].
    rewrite seq_S, for_each_snoc, Hrun, OK_bind. simpl "+".
    unfold hidden_layer_forward.
    rewrite HW, OK_bind, Hb, OK_bind, HA', OK_bind, HA'', OK_bind.
    eexists _, _, nl. split; [done|]. split_and!; try done.
    + rewrite length_app. simpl. lia.
    + intros l Hl. destruct (decide (l = S k)) as [->|Hne].
      * exists A, W, b, Z, nl, nk.
        replace (S k - 1) with k by lia. split_and!; try done.
        -- rewrite lookup_app_r by lia. by rewrite Hlen, Nat.sub_diag.
        -- unfold getitem in HW. by destruct (parameters !! key "W" (S k));
             simplify_eq.
        -- unfold getitem in Hb. by destruct (parameters !! key "b" (S k));
             simplify_eq.
      * apply layer_cached_snoc; [lia|]. apply Hc. lia.
Qed.

(** Forward propagation on well-shaped parameters whose output layer has
    one unit, in either mode *)
Lemma L_model_forward_shapes (dims : list nat) parameters dropout_params
    (mode : string) (X : ndarray F) (n0 m : nat) :
  well_shaped dims parameters →
  (mode = "train" → masks_shaped dims m dropout_params) →
  2 ≤ length dims → last dims = Some 1 →
  dims !! 0 = Some n0 → has_shape n0 m X →
  ∃ AL caches,
    L_model_forward X parameters dropout_params mode = OK (AL, caches) ∧
    has_shape 1 m AL ∧ caches_shaped dims parameters m caches ∧
    (mode ≠ "train" →
     ∃ Z, has_shape 1 m Z ∧ AL = sigmoid Z).
Proof.
  intros Hwf Hmasks Hlen Hlast H0 SX.
  pose proof Hwf as (Hsize & Hpos & _).
  destruct (hidden_layers_forward_shapes dims parameters dropout_params mode
              X n0 m (length dims - 1 - 1))
    as (A & caches & nk & Hrun & Hnk & SA & Hclen & Hc);
    [done | done | lia | done..|].
  destruct (well_shaped_layer dims parameters (length dims - 1) Hwf)
    as (W & b & nl & nl1 & Hnl & Hnl1 & Hposl & Hpos1 & HW & Hb & SW & Sb);
    [lia|].
  rewrite last_lookup in Hlast.
  replace (pred (length dims)) with (length dims - 1) in Hlast by lia.
  simplify_eq.
  destruct (activation_forward_cache A W b "Sigmoid" 1 nk m)
    as (AL & Z & HAL & SAL & SZ & HALZ); [by right | done..|].
  destruct (apply_dropout_shape dims dropout_params mode m
              (length dims - 1) 1 AL) as (AL' & HAL' & SAL'); [done..|].
  unfold L_model_forward. rewrite Hsize, Hrun, OK_bind.
  rewrite HW, OK_bind, Hb, OK_bind, HAL, OK_bind, HAL', OK_bind.
  rewrite py_assert_true; last first.
  { rewrite (has_shape_shape 1 m AL') by (done || lia). f_equal.
    symmetry. apply (has_shape_ncols n0 m); [done|].
    by eapply dims_positive. }
  rewrite OK_bind. eexists _, _. split; [done|]. split; [done|]. split.
  - split; [rewrite length_app; simpl; lia|].
    intros l Hl. destruct (decide (l = length dims - 1)) as [->|Hne].
    + exists A, W, b, Z, 1, nk. split_and!; try done.
      * rewrite lookup_app_r by lia. by rewrite Hclen, Nat.sub_diag.
      * unfold getitem in HW.
        by destruct (parameters !! key "W" (length dims - 1)); simplify_eq.
      * unfold getitem in Hb.
        by destruct (parameters !! key "b" (length dims - 1)); simplify_eq.
    + apply layer_cached_snoc; [lia|]. apply Hc. lia.
  - intros Hmode. exists Z. split; [done|].
    unfold apply_dropout in HAL'. rewrite decide_False in HAL' by done.
    simplify_eq. by apply HALZ.
Qed.
End ForwardShapes.


(** ** Backward propagation: shapes of the gradients *)

Lemma key_dA_dW (i j : nat) : key "dA" i ≠ key "dW" j.
Proof. unfold key. cbn. intros [=]. Qed.
Lemma key_dA_db (i j : nat) : key "dA" i ≠ key "db" j.
Proof. unfold key. cbn. intros [=]. Qed.

Ltac grad_key_ne :=
  first [ apply key_dA_dW | apply key_dA_db | apply key_dW_db
        | apply not_eq_sym; apply key_dA_dW
        | apply not_eq_sym; apply key_dA_db
        | apply not_eq_sym; apply key_dW_db
        | intros ?%key_inj; lia
        | done ].

Lemma reshape_row {A} (m : nat) (Y : ndarray A) :
  has_shape 1 m Y → reshape (1, m) Y = OK Y.
Proof.
  intros [Hr Hc]. destruct Y as [|row [|??]]; simpl in Hr; try lia.
  apply Forall_cons in Hc as [Hrow _]. unfold reshape. simpl.
  rewrite app_nil_r, Nat.add_0_r.
  rewrite decide_True by done. by rewrite <- Hrow, firstn_all.
Qed.

Section BackwardShapes.
Context {F : Type} `{Scalar F}.
Implicit Types parameters grads : gmap string (ndarray F).
Implicit Types dropout_params : gmap string (ndarray bool) * list F.

Lemma linear_back_shapes (self : NeuralNet F) (dZ A_prev W b : ndarray F)
    (n k m : nat) :
  0 < n → 0 < k → 0 < m →
  has_shape n m dZ → has_shape k m A_prev → has_shape n k W →
  ∃ dA_prev dW db,
    linear_back self dZ (A_prev, W, b) = OK (dA_prev, dW, db) ∧
    has_shape k m dA_prev ∧ has_shape n k dW ∧ has_shape n 1 db.
Proof.
  intros Hn Hk Hm SdZ SA SW.
  pose proof (has_shape_transpose k m A_prev SA Hk) as SAT.
  pose proof (has_shape_transpose n k W SW Hn) as SWT.
  destruct (dot_OK n m k dZ (transpose A_prev)) as (g & Hg & Sg & _);
    [done..|].
  destruct (dot_OK k n m (transpose W) dZ) as (dA & HdA & SdA & _); [done..|].
  unfold linear_back. rewrite (has_shape_ncols k m A_prev) by done.
  rewrite Hg, OK_bind.
  rewrite (broadcast2_same_shape _ n k) by (by apply has_shape_amap).
  rewrite OK_bind, HdA, OK_bind, zip_with_amap.
  rewrite (py_assert_true (shape dA = shape A_prev))
    by (by apply (has_shape_same_shape k m)).
  rewrite OK_bind, (py_assert_true (shape (elementwise _ g W) = shape W))
    by (apply (has_shape_same_shape n k);
        [by apply has_shape_elementwise|done]).
  rewrite OK_bind. eexists _, _, _. split; [done|].
  split; [done|]. split; [by apply has_shape_elementwise|].
  by apply has_shape_amap, (has_shape_sum_axis1 n m).
Qed.

Lemma activation_back_shapes (self : NeuralNet F)
    (dA A_prev W b Z : ndarray F) (activation : string) (n k m : nat) :
  activation = "Leaky ReLU" ∨ activation = "Sigmoid" →
  0 < n → 0 < k → 0 < m →
  has_shape n m dA → has_shape n m Z →
  has_shape k m A_prev → has_shape n k W →
  ∃ dA_prev dW db,
    activation_back self dA ((A_prev, W, b), Z) activation
    = OK (dA_prev, dW, db) ∧
    has_shape k m dA_prev ∧ has_shape n k dW ∧ has_shape n 1 db.
Proof.
  intros Hact Hn Hk Hm SdA SZ SA SW. unfold activation_back.
  destruct Hact as [-> | ->].
  - rewrite decide_False, decide_False, decide_True by done.
    rewrite (lrelu_backward_same_shape n m) by done. rewrite OK_bind.
    apply linear_back_shapes; try done. by apply has_shape_elementwise.
  - rewrite decide_False, decide_True by done.
    rewrite (sigmoid_backward_same_shape n m) by done. rewrite OK_bind.
    apply linear_back_shapes; try done. by apply has_shape_elementwise.
Qed.

(** One step of the loop over the hidden layers, for the layer [j + 1] *)
Lemma hidden_layer_backward_shapes (self : NeuralNet F) (dims : list nat)
    parameters caches dropout_params grads (m j : nat) :
  Forall (λ d, 0 < d) dims → 0 < m →
  caches_shaped dims parameters m caches →
  masks_shaped dims m dropout_params →
  j + 2 < length dims →
  gradients_from dims m (j + 1) grads →
  ∃ grads',
    hidden_layer_backward self caches dropout_params grads j = OK grads' ∧
    gradients_from dims m j grads'.
Proof.
  intros Hpos Hm [Hclen Hc] [Hkplen HD] Hj [Hgr (dA & nj1 & Hnj1 & HdA & SdA)].
  destruct dropout_params as [D keep_prob]. simpl in *.
  destruct (Hc (j + 1)) as (A_prev & W & b & Z & nl & nl1 & Hnl & Hnl1 & Hcj
                            & _ & _ & SA & SW & Sb & SZ); [lia|].
  replace (j + 1 - 1) with j in * by lia.
  assert (nl = nj1) as -> by congruence.
  pose proof (dims_positive _ _ _ Hpos Hnl) as Hnlpos.
  pose proof (dims_positive _ _ _ Hpos Hnl1) as Hnl1pos.
  destruct (activation_back_shapes self dA A_prev W b Z "Leaky ReLU" nj1 nl1 m)
    as (dA_prev & dW & db & Hback & SdAp & SdW & Sdb); [by left | done..|].
  destruct (HD j nl1 Hnl1) as (Dj & HDj & SDj).
  destruct (multiply_mask_same_shape nl1 m dA_prev Dj) as (g & Hg & Sg);
    [done..|].
  destruct (lookup_lt_is_Some_2 keep_prob (j + 1)) as [kp Hkp]; [lia|].
  unfold hidden_layer_backward.
  replace (j + 2) with (j + 1 + 1) by lia.
  rewrite (getitem_OK _ _ _ HdA), OK_bind, (index_OK _ _ _ Hcj), OK_bind.
  rewrite Hback, OK_bind.
  rewrite (getitem_OK _ (key "dA" (j + 1)) dA_prev); last first.
  { rewrite !lookup_insert_ne by grad_key_ne. apply lookup_insert_eq. }
  rewrite OK_bind, (getitem_OK _ _ _ HDj), OK_bind, Hg, OK_bind.
  rewrite (getitem_OK _ (key "dA" (j + 1)) g) by apply lookup_insert_eq.
  rewrite OK_bind, (index_OK _ _ _ Hkp), OK_bind.
  eexists. split; [done|]. split.
  - intros l Hl. destruct (decide (l = j + 1)) as [->|Hne].
    + exists dW, db, nj1, nl1. replace (j + 1 - 1) with j by lia.
      split_and!; try done.
      * rewrite !lookup_insert_ne by grad_key_ne. apply lookup_insert_eq.
      * rewrite !lookup_insert_ne by grad_key_ne. apply lookup_insert_eq.
    + destruct (Hgr l) as (gW & gb & nl' & nl1' & ? & ? & HgW & Hgb & ? & ?);
        [lia|].
      exists gW, gb, nl', nl1'. split_and!; try done.
      * by rewrite !lookup_insert_ne by grad_key_ne.
      * by rewrite !lookup_insert_ne by grad_key_ne.
  - eexists _, nl1. split; [done|]. split; [apply lookup_insert_eq|].
    by apply has_shape_amap.
Qed.

(** The loop [for l in reversed(range(L-1))], walked down to layer [j] *)
Lemma hidden_layers_backward_shapes (self : NeuralNet F) (dims : list nat)
    parameters caches dropout_params grads (m t : nat) :
  Forall (λ d, 0 < d) dims → 0 < m →
  caches_shaped dims parameters m caches →
  masks_shaped dims m dropout_params →
  t + 2 ≤ length dims →
  gradients_from dims m (length dims - 2) grads →
  ∃ grads',
    for_each (rev (seq (length dims - 2 - t) t))
      (hidden_layer_backward self caches dropout_params) grads = OK grads' ∧
    gradients_from dims m (length dims - 2 - t) grads'.
Proof.
  intros Hpos Hm Hc HD. induction t as [|t IH]; intros Ht Hg.
  - exists grads. split; [done|]. by rewrite Nat.sub_0_r.
  - destruct IH as (g' & Hrun & Hg'); [lia | done |].
    replace (length dims - 2 - t) with (S (length dims - 2 - S t)) in Hrun, Hg'
      by lia.
    simpl seq. simpl rev. rewrite for_each_snoc, Hrun, OK_bind.
    apply (hidden_layer_backward_shapes self dims parameters); try done.
    + lia.
    + by replace (length dims - 2 - S t + 1)
        with (S (length dims - 2 - S t)) by lia.
Qed.

Lemma L_model_backward_shapes (self : NeuralNet F) (dims : list nat)
    parameters (AL Y : ndarray F) caches dropout_params (m : nat) :
  2 ≤ length dims → Forall (λ d, 0 < d) dims → last dims = Some 1 →
  0 < m →
  caches_shaped dims parameters m caches →
  masks_shaped dims m dropout_params →
  has_shape 1 m AL → has_shape 1 m Y →
  ∃ grads,
    L_model_backward self AL Y caches dropout_params = OK grads ∧
    gradients_shaped dims grads.
Proof.
  intros Hlen Hpos Hlast Hm Hc HD SAL SY.
  pose proof Hc as [Hclen Hcl]. pose proof HD as [Hkplen HDl].
  destruct dropout_params as [D keep_prob]. simpl in *.
  rewrite last_lookup in Hlast.
  replace (pred (length dims)) with (length dims - 1) in Hlast by lia.
  destruct (HDl (length dims - 1) 1 Hlast) as (DL & HDL & SDL).
  destruct (lookup_lt_is_Some_2 keep_prob (length dims - 1)) as [kp Hkp];
    [lia|].
  destruct (Hcl (length dims - 1))
    as (A_prev & W & b & Z & nl & nl1 & Hnl & Hnl1 & Hcj
        & _ & _ & SA & SW & Sb & SZ); [lia|].
  assert (nl = 1) as -> by congruence.
  pose proof (dims_positive _ _ _ Hpos Hnl1) as Hnl1pos.
  unfold L_model_backward. rewrite Hclen.
  rewrite (has_shape_shape 1 m AL) by (done || lia).
  rewrite (reshape_row m Y SY), OK_bind.
  rewrite (broadcast2_same_shape fdiv 1 m Y AL) by done. rewrite OK_bind.
  rewrite (broadcast2_same_shape fdiv 1 m (amap _ Y) (amap _ AL))
    by (by apply has_shape_amap).
  rewrite OK_bind.
  rewrite (broadcast2_same_shape fsub 1 m)
    by (apply has_shape_zip_with; (done || by apply has_shape_amap)).
  rewrite OK_bind.
  set (t := zip_with _ (zip_with _ Y AL) _).
  assert (has_shape 1 m t) as St.
  { repeat apply has_shape_zip_with; (done || by apply has_shape_amap). }
  destruct (multiply_mask_same_shape 1 m (amap fneg t) DL)
    as (dAL & HdAL & SdAL); [by apply has_shape_amap | done |].
  rewrite (getitem_OK _ _ _ HDL), OK_bind, HdAL, OK_bind.
  rewrite (index_OK _ _ _ Hkp), OK_bind.
  assert (last caches = Some (A_prev, W, b, Z)) as ->.
  { rewrite last_lookup, <- Hcj. f_equal. lia. }
  rewrite OK_bind.
  destruct (activation_back_shapes self (amap (λ a, fdiv a kp) dAL)
              A_prev W b Z "Sigmoid" 1 nl1 m)
    as (dA_prev & dW & db & Hback & SdAp & SdW & Sdb);
    [by right | lia | done | done | by apply has_shape_amap | done..|].
  rewrite Hback, OK_bind.
  destruct (hidden_layers_backward_shapes self dims parameters caches
              (D, keep_prob)
              (<[key "db" (length dims - 1) := db]>
                 (<[key "dW" (length dims - 1) := dW]>
                    (<[key "dA" (length dims - 1) := dA_prev]> ∅)))
              m (length dims - 2))
    as (grads & Hrun & Hgr & _); [done | done | done | done | lia | |].
  - split.
    + intros l Hl. assert (l = length dims - 1) as -> by lia.
      exists dW, db, 1, nl1. split_and!; try done.
      * rewrite !lookup_insert_ne by grad_key_ne. apply lookup_insert_eq.
      * apply lookup_insert_eq.
    + exists dA_prev, nl1.
      replace (length dims - 2) with (length dims - 1 - 1) by lia.
      split; [done|]. split; [|done].
      replace (length dims - 1 - 1 + 1) with (length dims - 1) by lia.
      rewrite !lookup_insert_ne by grad_key_ne. apply lookup_insert_eq.
  - rewrite Nat.sub_diag in Hrun, Hgr.
    replace (length dims - 1 - 1) with (length dims - 2) by lia.
    exists grads. split; [exact Hrun|].
    intros l Hl. apply Hgr. lia.
Qed.
End BackwardShapes.


(** ** The parameter update and the cost on well-shaped stores *)

Section UpdateShapes.
Context {F : Type} `{Scalar F}.
Implicit Types parameters grads v : gmap string (ndarray F).

Lemma update_layer_same_shape (self : NeuralNet F) parameters grads v
    (lr : F) (l : nat) (W b gW gb vW vb : ndarray F) (r c : nat) :
  parameters !! key "W" (l + 1) = Some W →
  parameters !! key "b" (l + 1) = Some b →
  grads !! key "dW" (l + 1) = Some gW →
  grads !! key "db" (l + 1) = Some gb →
  v !! key "dW" (l + 1) = Some vW →
  v !! key "db" (l + 1) = Some vb →
  has_shape r c W → has_shape r c gW → has_shape r c vW →
  has_shape r 1 b → has_shape r 1 gb → has_shape r 1 vb →
  update_layer self grads lr (parameters, v) l
  = OK (<[key "b" (l + 1) :=
            elementwise fsub b
              (amap (λ x, fmul x lr) (momentum_formula (beta self) vb gb))]>
          (<[key "W" (l + 1) :=
               elementwise fsub W
                 (amap (λ x, fmul x lr)
                    (momentum_formula (beta self) vW gW))]>
             parameters),
        <[key "db" (l + 1) := momentum_formula (beta self) vb gb]>
          (<[key "dW" (l + 1) := momentum_formula (beta self) vW gW]> v)).
Proof.
  intros HW Hb HgW Hgb HvW Hvb SW SgW SvW Sb Sgb Svb.
  pose proof (key_dW_db (l + 1) (l + 1)) as Hne.
  pose proof (key_W_b (l + 1) (l + 1)) as Hne'.
  unfold update_layer.
  rewrite (getitem_OK v _ _ HvW), (getitem_OK grads _ _ HgW). simpl.
  rewrite (momentum_step_same_shape self r c) by done. simpl.
  rewrite (getitem_OK (<[_ := _]> v) _ vb) by (by rewrite lookup_insert_ne).
  rewrite (getitem_OK grads _ _ Hgb).
  simpl. rewrite (momentum_step_same_shape self r 1) by done. simpl.
  rewrite (getitem_OK parameters _ _ HW). simpl.
  rewrite (getitem_OK (<[_ := _]> (<[_ := _]> v)) (key "dW" (l + 1))
             (momentum_formula (beta self) vW gW))
    by (by rewrite lookup_insert_ne, lookup_insert_eq).
  simpl. rewrite (isub_same_shape r c)
    by (done || by apply has_shape_amap, has_shape_elementwise).
  simpl.
  rewrite (getitem_OK (<[_ := _]> parameters) _ b)
    by (by rewrite lookup_insert_ne).
  simpl.
  rewrite (getitem_OK (<[_ := _]> (<[_ := _]> v)) (key "db" (l + 1))
             (momentum_formula (beta self) vb gb))
    by (by rewrite lookup_insert_eq).
  simpl. rewrite (isub_same_shape r 1)
    by (done || by apply has_shape_amap, has_shape_elementwise).
  reflexivity.
Qed.

Lemma well_shaped_insert (dims : list nat) parameters (l : nat)
    (W b W' b' : ndarray F) (nl nl1 : nat) :
  well_shaped dims parameters →
  dims !! l = Some nl → dims !! (l - 1) = Some nl1 →
  parameters !! key "W" l = Some W → parameters !! key "b" l = Some b →
  has_shape nl nl1 W' → has_shape nl 1 b' →
  well_shaped dims (<[key "b" l := b']> (<[key "W" l := W']> parameters)).
Proof.
  intros (Hsize & Hpos & Hlayers) Hnl Hnl1 HW Hb SW' Sb'.
  split; [|split; [done|]].
  - rewrite map_size_insert_Some, map_size_insert_Some; [done|by eexists|].
    rewrite lookup_insert_ne by key_ne. by eexists.
  - intros l' Hl'. destruct (decide (l' = l)) as [->|Hne].
    + exists W', b', nl, nl1. split_and!; try done.
      * rewrite lookup_insert_ne by key_ne. apply lookup_insert_eq.
      * apply lookup_insert_eq.
    + destruct (Hlayers l' Hl')
        as (W0 & b0 & nl' & nl1' & ? & ? & HW0 & Hb0 & ? & ?).
      exists W0, b0, nl', nl1'. split_and!; try done.
      * by rewrite !lookup_insert_ne by key_ne.
      * by rewrite !lookup_insert_ne by key_ne.
Qed.

Lemma gradients_shaped_insert (dims : list nat) v (l : nat)
    (vW' vb' : ndarray F) (nl nl1 : nat) :
  gradients_shaped dims v →
  dims !! l = Some nl → dims !! (l - 1) = Some nl1 →
  has_shape nl nl1 vW' → has_shape nl 1 vb' →
  gradients_shaped dims (<[key "db" l := vb']> (<[key "dW" l := vW']> v)).
Proof.
  intros Hv Hnl Hnl1 SW' Sb' l' Hl'. destruct (decide (l' = l)) as [->|Hne].
  - exists vW', vb', nl, nl1. split_and!; try done.
    + rewrite lookup_insert_ne by key_ne. apply lookup_insert_eq.
    + apply lookup_insert_eq.
  - destruct (Hv l' Hl') as (W0 & b0 & nl' & nl1' & ? & ? & HW0 & Hb0 & ? & ?).
    exists W0, b0, nl', nl1'. split_and!; try done.
    + by rewrite !lookup_insert_ne by key_ne.
    + by rewrite !lookup_insert_ne by key_ne.
Qed.

Lemma update_loop_shapes (self : NeuralNet F) (dims : list nat)
    parameters grads v (lr : F) (k : nat) :
  well_shaped dims parameters → gradients_shaped dims grads →
  gradients_shaped dims v → k ≤ length dims - 1 →
  ∃ parameters' v',
    for_each (seq 0 k) (update_layer self grads lr) (parameters, v)
    = OK (parameters', v') ∧
    well_shaped dims parameters' ∧ gradients_shaped dims v'.
Proof.
  intros Hp Hg Hv. induction k as [|k IH]; intros Hk.
  - by exists parameters, v.
  - destruct IH as (pk & vk & Hrun & Hpk & Hvk); [lia|].
    pose proof Hpk as (_ & _ & Hlayers).
    destruct (Hlayers (k + 1))
      as (W & b & nl & nl1 & Hnl & Hnl1 & HW & Hb & SW & Sb); [lia|].
    destruct (Hg (k + 1))
      as (gW & gb & nl' & nl1' & Hnl' & Hnl1' & HgW & Hgb & SgW & Sgb); [lia|].
    destruct (Hvk (k + 1))
      as (vW & vb & nl'' & nl1'' & Hnl'' & Hnl1'' & HvW & Hvb & SvW & Svb);
      [lia|].
    assert (nl' = nl) as -> by congruence.
    assert (nl1' = nl1) as -> by congruence.
    assert (nl'' = nl) as -> by congruence.
    assert (nl1'' = nl1) as -> by congruence.
    rewrite seq_S, for_each_snoc, Hrun, OK_bind. simpl "+".
    rewrite (update_layer_same_shape self pk grads vk lr k W b gW gb vW vb
               nl nl1) by done.
    eexists _, _. split; [done|]. split.
    + apply (well_shaped_insert dims pk (k + 1) W b _ _ nl nl1); try done.
      * by apply has_shape_elementwise;
          [|apply has_shape_amap, has_shape_elementwise].
      * by apply has_shape_elementwise;
          [|apply has_shape_amap, has_shape_elementwise].
    + apply (gradients_shaped_insert dims vk (k + 1) _ _ nl nl1); try done.
      * by apply has_shape_elementwise.
      * by apply has_shape_elementwise.
Qed.

Lemma update_params_shapes (self : NeuralNet F) (dims : list nat)
    parameters grads v (lr : F) :
  well_shaped dims parameters → gradients_shaped dims grads →
  gradients_shaped dims v →
  ∃ parameters' v',
    update_params self parameters grads v lr = OK (parameters', v') ∧
    well_shaped dims parameters' ∧ gradients_shaped dims v'.
Proof.
  intros Hp Hg Hv. unfold update_params.
  pose proof Hp as (-> & _). by apply update_loop_shapes.
Qed.

(** The cost on a batch of [m] examples, in closed form *)
Lemma cost_terms_OK (self : NeuralNet F) (Y_true Y_pred : ndarray F)
    parameters (m : nat) :
  0 < m → has_shape 1 m Y_true → has_shape 1 m Y_pred →
  (∀ l, 1 ≤ l ≤ size parameters / 2 → is_Some (parameters !! key "W" l)) →
  cost_terms self Y_true Y_pred parameters
  = OK (cross_entropy_formula Y_true Y_pred m,
        fmul (fdiv (lambd self) (of_nat (2 * m)))
          (big_sum (λ l, sum_all (amap (λ w, fmul w w)
                                    (weights parameters (l + 1))))
             (size parameters / 2))).
Proof.
  intros Hm SY SP HW.
  destruct (cross_entropy_sum Y_true Y_pred m SY SP) as (t & Ht & Hsum).
  unfold cost_terms. rewrite (has_shape_ncols 1 m Y_true) by (done || lia).
  rewrite decide_False by lia.
  destruct (broadcast2 fmul Y_true (amap flog Y_pred)) as [t1|]; [|done].
  rewrite OK_bind in Ht. rewrite OK_bind.
  destruct (broadcast2 fmul (amap (fsub fone) Y_true) _) as [t2|]; [|done].
  rewrite OK_bind in Ht. rewrite OK_bind, Ht, OK_bind.
  rewrite (L2_norm_loop parameters (size parameters / 2) HW), OK_bind.
  unfold cross_entropy_formula. by rewrite Hsum.
Qed.

Lemma well_shaped_weights (dims : list nat) parameters (l : nat) :
  well_shaped dims parameters → 1 ≤ l ≤ size parameters / 2 →
  is_Some (parameters !! key "W" l).
Proof.
  intros (Hsize & _ & Hlayers) Hl.
  destruct (Hlayers l) as (W & _ & _ & _ & _ & _ & HW & _); [lia|].
  by eexists.
Qed.

Lemma compute_cost_OK (self : NeuralNet F) (dims : list nat)
    (Y_true Y_pred : ndarray F) parameters (m : nat) :
  well_shaped dims parameters →
  0 < m → has_shape 1 m Y_true → has_shape 1 m Y_pred →
  ∃ J, compute_cost self Y_true Y_pred parameters = OK J.
Proof.
  intros Hp Hm SY SP. unfold compute_cost.
  rewrite (cost_terms_OK self Y_true Y_pred parameters m); [by eexists|done..|].
  intros l Hl. by eapply well_shaped_weights.
Qed.
End UpdateShapes.


(** ** Mini-batches and the training loops *)

Lemma Forall2_Forall_exists {A B} (P : A → B → Prop) (Q : B → Prop)
    (l : list A) (k : list B) :
  Forall2 P l k → Forall Q k → Forall (λ a, ∃ b, Q b ∧ P a b) l.
Proof.
  induction 1 as [|a b l k Hab _ IH]; intros Hk; [constructor|].
  apply Forall_cons in Hk as [Hb Hk]. constructor; [by exists b | by apply IH].
Qed.

Section MiniBatches.
Context {F : Type} `{Scalar F}.

(** The shuffled data that [init_mini_batches] slices, and its result
    for every batch size *)
Lemma init_mini_batches_unfold (ω : Entropy F) (X : DataFrame F)
    (y : Series F) (r : nat) (s : RandomState) :
  permutes ω →
  NoDup (columns X) →
  s_index y = columns X →
  length (s_values y) = length (columns X) →
  has_shape r (length (columns X)) (values X) →
  ∃ SX ys,
    has_shape r (length (columns X)) SX ∧
    length ys = length (columns X) ∧
    ∀ mb_size,
      init_mini_batches ω X y mb_size s
      = if decide (mb_size = 0) then Raise ZeroDivisionError else
        let m := length (columns X) in
        let full := map (λ n,
            (slice_cols (n * mb_size) ((n + 1) * mb_size) SX,
             slice_cols (n * mb_size) ((n + 1) * mb_size) [ys]))
            (seq 0 (m / mb_size)) in
        OK (if decide (m `mod` mb_size ≠ 0)
            then full ++ [(slice_cols_from (m / mb_size * mb_size) SX,
                           slice_cols_from (m / mb_size * mb_size) [ys])]
            else full,
            {| randn_calls := randn_calls s;
               rand_calls := rand_calls s;
               permutation_calls := S (permutation_calls s) |}).
Proof.
  intros Hω Hnd Hidx Hylen HX.
  set (m := length (columns X)) in *.
  set (perm := permutation_sample ω (permutation_calls s) (columns X)).
  assert (perm ≡ₚ columns X) as Hperm by apply Hω.
  destruct (get_indexer_unique (columns X) perm) as (π & Hget & Hπ);
    [done | by intros q; rewrite Hperm |].
  pose proof (indexer_is_permutation _ _ _ Hnd Hperm Hπ) as Hπperm.
  fold m in Hπperm.
  assert (Forall (λ i, i < m) π) as Hbound.
  { rewrite Hπperm. apply Forall_forall. intros i Hi%elem_of_seq. lia. }
  assert (length π = m) as Hπlen by (by rewrite Hπperm, length_seq).
  destruct (take_cols_OK r m (values X) π) as (SX & HSX & HSXshape);
    [done..|].
  destruct (take_cols_OK 1 m [s_values y] π) as (SY & HSY & HSYshape);
    [by split; [|repeat constructor] | done |].
  rewrite Hπlen in HSXshape, HSYshape.
  assert (∃ ys, mapM (index (s_values y)) π = OK ys ∧ SY = [ys])
    as (ys & Hys & ->).
  { unfold take_cols in HSY. rewrite mapM_result_cons in HSY.
    destruct (mapM (index (s_values y)) π) as [ys|]; simpl in HSY; [|done].
    exists ys. split; [done|]. by simplify_eq. }
  assert (length ys = m) as Hyslen.
  { destruct HSYshape as [_ Hrow]. by apply Forall_cons in Hrow as [? _]. }
  exists SX, ys. split; [done|]. split; [done|]. intros mb_size.
  unfold init_mini_batches, permutation. fold perm. fold m.
  unfold loc_columns, series_getitem. rewrite Hidx, Hget. simpl.
  rewrite HSX, Hys. simpl.
  unfold reshape. simpl. rewrite app_nil_r, Hyslen, Nat.add_0_r.
  rewrite decide_True by done. simpl.
  rewrite (take_ge ys m) by lia.
  destruct (decide (mb_size = 0)); reflexivity.
Qed.

Lemma init_mini_batches_OK (ω : Entropy F) (X : DataFrame F)
    (y : Series F) (mb_size r : nat) (s : RandomState) :
  permutes ω →
  NoDup (columns X) →
  s_index y = columns X →
  length (s_values y) = length (columns X) →
  has_shape r (length (columns X)) (values X) →
  0 < mb_size →
  ∃ mini_batches s',
    init_mini_batches ω X y mb_size s = OK (mini_batches, s') ∧
    length mini_batches = num_mini_batches (length (columns X)) mb_size ∧
    Forall (λ batch, ∃ k, 0 < k ∧ has_shape r k batch.1 ∧
                          has_shape 1 k batch.2) mini_batches ∧
    randn_calls s' = randn_calls s ∧ rand_calls s' = rand_calls s ∧
    permutation_calls s' = S (permutation_calls s).
Proof.
  intros Hω Hnd Hidx Hylen HX Hmb.
  destruct (init_mini_batches_unfold ω X y r s)
    as (SX & ys & SSX & Hys & Hrun); [done..|].
  set (m := length (columns X)) in *.
  assert (has_shape 1 m [ys]) as SSY by (by split; [|repeat constructor]).
  destruct (slices_cover r m mb_size SX [ys] SSX SSY) as (_ & _ & Hsizes).
  rewrite (Hrun mb_size), decide_False by lia. simpl.
  eexists _, _. split; [done|]. simpl. split_and!; try done.
  - pose proof (Forall2_length _ _ _ Hsizes) as Hl.
    rewrite length_app, length_replicate in Hl. unfold num_mini_batches.
    etrans; [exact Hl|]. by destruct (decide (m `mod` mb_size = 0)).
  - assert (Forall (λ k, 0 < k)
              (replicate (m / mb_size) mb_size
               ++ (if decide (m `mod` mb_size = 0) then []
                   else [m `mod` mb_size]))) as Hpos.
    { apply Forall_app. split; [by apply Forall_replicate|].
      destruct (decide (m `mod` mb_size = 0)); repeat constructor. lia. }
    exact (Forall2_Forall_exists _ _ _ _ Hsizes Hpos).
Qed.
End MiniBatches.


(** ** Training on well-formed inputs *)

Section Fit.
Context {F : Type} `{Scalar F}.
Implicit Types parameters v : gmap string (ndarray F).

(** [fit] is its three initialisations, the loop over the epochs and
    the plot. *)
Lemma fit_unfold (g : Globals F) (ω : Entropy F) (self : NeuralNet F)
    (X_train : DataFrame F) (Y_train : Series F) (mb_size : nat)
    (s : RandomState) :
  fit g ω self X_train Y_train mb_size s
  = ('(parameters, s) ← init_params ω (layer_dims self) s;
     v ← init_v (layer_dims self);
     '(mini_batches, s) ← init_mini_batches ω X_train Y_train mb_size s;
     '(parameters, v, cost, costs, s) ←
       for_each (seq 0 (num_epochs self))
         (train_epoch g ω self mini_batches) (parameters, v, None, [], s);
     if g_plt g then
       OK (parameters,
           {| layer_dims := layer_dims self; lr := lr self;
              num_epochs := num_epochs self; lambd := lambd self;
              beta := beta self; print_cost := print_cost self;
              trained_params := parameters; fitted := true |},
           s)
     else Raise (NameError "plt")).
Proof. reflexivity. Qed.

Lemma masks_shaped_init (ω : Entropy F) (self : NeuralNet F)
    (keep_prob : list F) (m : nat) (s : RandomState) D :
  length (layer_dims self) ≤ length keep_prob →
  (∀ l nl kp, layer_dims self !! l = Some nl → keep_prob !! l = Some kp →
     D !! pretty l
     = Some (map (map (λ u, flt u kp))
               (tabulate nl m (rand_sample ω (rand_calls s + l))))) →
  masks_shaped (layer_dims self) m (D, keep_prob).
Proof.
  intros Hlen HD. split; [done|]. intros l nl Hnl. simpl.
  destruct (lookup_lt_is_Some_2 keep_prob l) as [kp Hkp].
  { apply lookup_lt_Some in Hnl. lia. }
  eexists. split; [by apply (HD l nl kp)|].
  eapply has_shape_map; [|apply has_shape_tabulate].
  intros row Hrow. by rewrite length_map.
Qed.

(** One mini-batch: dropout masks, forward pass, cost, backward pass
    and update *)
Lemma train_batch_OK (g : Globals F) (ω : Entropy F) (self : NeuralNet F)
    mini_batches parameters v (cost : option F) (s : RandomState)
    (b n0 k : nat) (Xb Yb : ndarray F) (keep_prob : list F) :
  2 ≤ length (layer_dims self) →
  last (layer_dims self) = Some 1 →
  layer_dims self !! 0 = Some n0 →
  g_keep_prob g = Some keep_prob →
  length (layer_dims self) ≤ length keep_prob →
  mini_batches !! b = Some (Xb, Yb) →
  0 < k → has_shape n0 k Xb → has_shape 1 k Yb →
  well_shaped (layer_dims self) parameters →
  gradients_shaped (layer_dims self) v →
  ∃ parameters' v' c s',
    train_batch g ω self mini_batches (parameters, v, cost, s) b
    = OK (parameters', v', Some c, s') ∧
    well_shaped (layer_dims self) parameters' ∧
    gradients_shaped (layer_dims self) v' ∧
    randn_calls s' = randn_calls s ∧
    rand_calls s' = rand_calls s + length (layer_dims self) ∧
    permutation_calls s' = permutation_calls s.
Proof.
  intros Hlen Hlast H0 Hkp Hkplen Hb Hk SX SY Hp Hv.
  pose proof Hp as (_ & Hpos & _).
  pose proof (dims_positive _ _ _ Hpos H0) as Hn0.
  destruct (init_dropout_OK ω self keep_prob k s)
    as (D & s' & Hdrop & Hrn & Hr & Hperm & HD); [done..|].
  pose proof (masks_shaped_init ω self keep_prob k s D Hkplen HD) as Hmasks.
  destruct (L_model_forward_shapes (layer_dims self) parameters
              (D, keep_prob) "train" Xb n0 k)
    as (AL & caches & Hfwd & SAL & Hcaches & _); [done..|].
  destruct (compute_cost_OK self (layer_dims self) Yb AL parameters k)
    as (J & HJ); [done..|].
  destruct (L_model_backward_shapes self (layer_dims self) parameters
              AL Yb caches (D, keep_prob) k) as (grads & Hbwd & Hgrads);
    [done..|].
  destruct (update_params_shapes self (layer_dims self) parameters grads v
              (lr self)) as (p' & v' & Hupd & Hp' & Hv'); [done..|].
  unfold train_batch.
  rewrite (index_OK _ _ _ Hb), OK_bind, Hkp, OK_bind.
  rewrite (has_shape_ncols n0 k Xb) by done.
  rewrite Hdrop, OK_bind, Hfwd, OK_bind, HJ, OK_bind, Hbwd, OK_bind.
  rewrite Hupd, OK_bind. by exists p', v', J, s'.
Qed.

(** The loop over the first [j] mini-batches *)
Lemma train_batches_OK (g : Globals F) (ω : Entropy F) (self : NeuralNet F)
    mini_batches parameters v (cost : option F) (s : RandomState)
    (n0 j : nat) (keep_prob : list F) :
  2 ≤ length (layer_dims self) →
  last (layer_dims self) = Some 1 →
  layer_dims self !! 0 = Some n0 →
  g_keep_prob g = Some keep_prob →
  length (layer_dims self) ≤ length keep_prob →
  Forall (λ batch, ∃ k, 0 < k ∧ has_shape n0 k batch.1 ∧
                        has_shape 1 k batch.2) mini_batches →
  well_shaped (layer_dims self) parameters →
  gradients_shaped (layer_dims self) v →
  j ≤ length mini_batches →
  ∃ parameters' v' cost' s',
    for_each (seq 0 j) (train_batch g ω self mini_batches)
      (parameters, v, cost, s) = OK (parameters', v', cost', s') ∧
    well_shaped (layer_dims self) parameters' ∧
    gradients_shaped (layer_dims self) v' ∧
    (is_Some cost ∨ 0 < j → is_Some cost') ∧
    randn_calls s' = randn_calls s ∧
    rand_calls s' = rand_calls s + j * length (layer_dims self) ∧
    permutation_calls s' = permutation_calls s.
Proof.
  intros Hlen Hlast H0 Hkp Hkplen Hbatches Hp Hv.
  induction j as [|j IH]; intros Hj.
  - exists parameters, v, cost, s. split; [done|].
    split_and!; try done; try lia. intros [?|?]; [done|lia].
  - destruct IH as (pj & vj & cj & sj & Hrun & Hpj & Hvj & Hcj & Hrn & Hr
                    & Hperm); [lia|].
    destruct (lookup_lt_is_Some_2 mini_batches j) as [[Xb Yb] Hb]; [lia|].
    rewrite Forall_forall in Hbatches.
    destruct (Hbatches (Xb, Yb)) as (k & Hk & SX & SY);
      [by eapply list_elem_of_lookup_2|].
    destruct (train_batch_OK g ω self mini_batches pj vj cj sj j n0 k Xb Yb
                keep_prob)
      as (p' & v' & c & s' & Hstep & Hp' & Hv' & Hrn' & Hr' & Hperm');
      [done..|].
    rewrite seq_S, for_each_snoc, Hrun, OK_bind. simpl "+".
    rewrite Hstep. exists p', v', (Some c), s'. split; [done|].
    split_and!; try done; try lia.
Qed.

(** The loop over the first [e] epochs *)
Lemma train_epochs_OK (g : Globals F) (ω : Entropy F) (self : NeuralNet F)
    mini_batches parameters v (s : RandomState)
    (n0 e : nat) (keep_prob : list F) :
  2 ≤ length (layer_dims self) →
  last (layer_dims self) = Some 1 →
  layer_dims self !! 0 = Some n0 →
  g_keep_prob g = Some keep_prob →
  length (layer_dims self) ≤ length keep_prob →
  Forall (λ batch, ∃ k, 0 < k ∧ has_shape n0 k batch.1 ∧
                        has_shape 1 k batch.2) mini_batches →
  0 < length mini_batches →
  well_shaped (layer_dims self) parameters →
  gradients_shaped (layer_dims self) v →
  ∃ parameters' v' cost' costs' s',
    for_each (seq 0 e) (train_epoch g ω self mini_batches)
      (parameters, v, None, [], s)
    = OK (parameters', v', cost', costs', s') ∧
    well_shaped (layer_dims self) parameters' ∧
    gradients_shaped (layer_dims self) v' ∧
    randn_calls s' = randn_calls s ∧
    rand_calls s'
    = rand_calls s + e * (length mini_batches * length (layer_dims self)) ∧
    permutation_calls s' = permutation_calls s.
Proof.
  intros Hlen Hlast H0 Hkp Hkplen Hbatches Hnb Hp Hv.
  induction e as [|e IH].
  - exists parameters, v, None, [], s. split; [done|].
    split_and!; try done; try lia.
  - destruct IH as (pe & ve & ce & costs & se & Hrun & Hpe & Hve & Hrn & Hr
                    & Hperm).
    destruct (train_batches_OK g ω self mini_batches pe ve ce se n0
                (length mini_batches) keep_prob)
      as (p' & v' & c' & s' & Hstep & Hp' & Hv' & Hc' & Hrn' & Hr' & Hperm');
      [done..|].
    destruct Hc' as [c Hc]; [by right|]. subst c'.
    rewrite seq_S, for_each_snoc, Hrun, OK_bind. simpl "+".
    unfold train_epoch. rewrite Hstep, OK_bind.
    destruct (print_cost self && bool_decide (e `mod` 10 = 0));
      eexists _, _, _, _, _; (split; [done|]); split_and!; try done; lia.
Qed.

Lemma gradients_shaped_zeros (dims : list nat) v :
  (∀ l nl nl1, 1 ≤ l < length dims → dims !! l = Some nl →
     dims !! (l - 1) = Some nl1 →
     v !! key "dW" l = Some (zeros nl nl1) ∧
     v !! key "db" l = Some (zeros nl 1)) →
  gradients_shaped dims v.
Proof.
  intros Hv l Hl.
  destruct (lookup_lt_is_Some_2 dims l) as [nl Hnl]; [lia|].
  destruct (lookup_lt_is_Some_2 dims (l - 1)) as [nl1 Hnl1]; [lia|].
  destruct (Hv l nl nl1) as [HW Hb]; [done..|].
  exists (zeros nl nl1), (zeros nl 1), nl, nl1.
  split_and!; try done; apply has_shape_zeros.
Qed.

(** Training on well-formed inputs returns, with parameters laid out as
    [layer_dims] prescribes. *)
Lemma fit_OK (g : Globals F) (ω : Entropy F) (self : NeuralNet F)
    (X : DataFrame F) (Y : Series F) (mb_size n0 : nat) (s : RandomState)
    (keep_prob : list F) :
  2 ≤ length (layer_dims self) →
  Forall (λ d, 0 < d) (layer_dims self) →
  last (layer_dims self) = Some 1 →
  layer_dims self !! 0 = Some n0 →
  g_keep_prob g = Some keep_prob → g_plt g = true →
  length (layer_dims self) ≤ length keep_prob →
  permutes ω →
  NoDup (columns X) →
  s_index Y = columns X →
  length (s_values Y) = length (columns X) →
  has_shape n0 (length (columns X)) (values X) →
  0 < length (columns X) → 0 < mb_size →
  ∃ parameters self' s',
    fit g ω self X Y mb_size s = OK (parameters, self', s') ∧
    well_shaped (layer_dims self) parameters ∧
    layer_dims self' = layer_dims self ∧
    trained_params self' = parameters ∧ fitted self' = true ∧
    randn_calls s' = randn_calls s + (length (layer_dims self) - 1) ∧
    rand_calls s'
    = rand_calls s
      + num_epochs self
        * (num_mini_batches (length (columns X)) mb_size
           * length (layer_dims self)) ∧
    permutation_calls s' = S (permutation_calls s).
Proof.
  intros Hlen Hpos Hlast H0 Hkp Hplt Hkplen Hω Hnd Hidx Hylen HX Hm Hmb.
  destruct (init_params_OK ω (layer_dims self) s Hpos)
    as (p0 & s1 & Hinit & Hp0 & Hrn1 & Hr1 & Hperm1 & _).
  destruct (init_v_OK (F:=F) (layer_dims self)) as (v0 & Hv0 & _ & Hv0z).
  pose proof (gradients_shaped_zeros _ _ Hv0z) as Hv0s.
  destruct (init_mini_batches_OK ω X Y mb_size n0 s1)
    as (bs & s2 & Hbs & Hnb & Hshapes & Hrn2 & Hr2 & Hperm2); [done..|].
  assert (0 < length bs) as Hbs_pos.
  { rewrite Hnb. unfold num_mini_batches.
    destruct (decide (length (columns X) `mod` mb_size = 0)) as [Hmod|];
      [|lia].
    assert (mb_size ≤ length (columns X)).
    { apply Nat.Div0.mod_divides in Hmod as [c Hc]. destruct c; nia. }
    pose proof (Nat.div_str_pos (length (columns X)) mb_size). lia. }
  destruct (train_epochs_OK g ω self bs p0 v0 s2 n0 (num_epochs self)
              keep_prob)
    as (p & v & c & costs & s3 & Hrun & Hp & Hv & Hrn3 & Hr3 & Hperm3);
    [done..|].
  rewrite fit_unfold, Hinit, OK_bind, Hv0, OK_bind, Hbs, OK_bind.
  rewrite Hrun, OK_bind, Hplt.
  eexists _, _, _. split; [done|]. simpl.
  split_and!; try done; try lia.
Qed.
End Fit.


(** ** Inputs that forward and backward propagation reject *)

Section Rejected.
Context {F : Type} `{Scalar F}.
Implicit Types parameters : gmap string (ndarray F).
Implicit Types dropout_params : gmap string (ndarray bool) * list F.

Lemma activation_forward_dot_mismatch (A_prev W b : ndarray F)
    (activation : string) :
  ncols W ≠ nrows A_prev →
  activation_forward A_prev A_prev W b activation = Raise ValueError.
Proof.
  intros Hne. unfold activation_forward, linear_forward, dot.
  by rewrite decide_False.
Qed.

Lemma for_each_first_raises {A S} (x : A) (xs : list A)
    (body : S → A → result S) (acc : S) (e : exception) :
  body acc x = Raise e → for_each (x :: xs) body acc = Raise e.
Proof. intros Hx. simpl. by rewrite Hx. Qed.

(** An input whose number of rows is not the number of input units *)
Lemma L_model_forward_wrong_features (dims : list nat) parameters
    dropout_params (mode : string) (X : ndarray F) (n0 n m : nat) :
  well_shaped dims parameters → 2 ≤ length dims →
  dims !! 0 = Some n0 → has_shape n m X → n ≠ n0 →
  L_model_forward X parameters dropout_params mode = Raise ValueError.
Proof.
  intros Hwf Hlen H0 SX Hne.
  pose proof Hwf as (Hsize & Hpos & _).
  destruct (well_shaped_layer dims parameters 1 Hwf)
    as (W & b & nl & nl1 & Hnl & Hnl1 & Hposl & Hpos1 & HW & Hb & SW & Sb);
    [lia|].
  simpl in Hnl1. assert (nl1 = n0) as -> by congruence.
  assert (ncols W ≠ nrows X) as Hmis.
  { rewrite (has_shape_ncols nl n0 W), (has_shape_nrows n m X) by done.
    done. }
  unfold L_model_forward. rewrite Hsize.
  destruct (decide (length dims = 2)) as [Hlen2|Hlen2].
  - rewrite Hlen2. simpl. rewrite HW, OK_bind, Hb, OK_bind.
    by rewrite activation_forward_dot_mismatch.
  - replace (length dims - 1 - 1) with (S (length dims - 3)) by lia.
    simpl seq. erewrite for_each_first_raises; [done|].
    unfold hidden_layer_forward. rewrite HW, OK_bind, Hb, OK_bind.
    by rewrite activation_forward_dot_mismatch.
Qed.

(** A network whose output layer has [k] units, k not 1 *)
Lemma L_model_forward_wide_output (dims : list nat) parameters
    dropout_params (mode : string) (X : ndarray F) (n0 m k : nat) :
  well_shaped dims parameters →
  (mode = "train" → masks_shaped dims m dropout_params) →
  2 ≤ length dims → last dims = Some k → k ≠ 1 →
  dims !! 0 = Some n0 → has_shape n0 m X →
  L_model_forward X parameters dropout_params mode = Raise AssertionError.
Proof.
  intros Hwf Hmasks Hlen Hlast Hk H0 SX.
  pose proof Hwf as (Hsize & Hpos & _).
  destruct (hidden_layers_forward_shapes dims parameters dropout_params mode
              X n0 m (length dims - 1 - 1))
    as (A & caches & nk & Hrun & Hnk & SA & Hclen & Hc);
    [done | done | lia | done..|].
  destruct (well_shaped_layer dims parameters (length dims - 1) Hwf)
    as (W & b & nl & nl1 & Hnl & Hnl1 & Hposl & Hpos1 & HW & Hb & SW & Sb);
    [lia|].
  rewrite last_lookup in Hlast.
  replace (pred (length dims)) with (length dims - 1) in Hlast by lia.
  assert (nl = k) as -> by congruence.
  assert (nl1 = nk) as -> by congruence.
  destruct (activation_forward_cache A W b "Sigmoid" k nk m)
    as (AL & Z & HAL & SAL & SZ & HALZ); [by right | done..|].
  destruct (apply_dropout_shape dims dropout_params mode m
              (length dims - 1) k AL) as (AL' & HAL' & SAL'); [done..|].
  unfold L_model_forward. rewrite Hsize, Hrun, OK_bind.
  rewrite HW, OK_bind, Hb, OK_bind, HAL, OK_bind, HAL', OK_bind.
  rewrite (has_shape_shape k m AL') by done.
  rewrite bool_decide_eq_false_2; [done|]. intros [=]. done.
Qed.

Lemma predict_raises (self : NeuralNet F) (X : ndarray F) (e : exception) :
  L_model_forward X (trained_params self) (∅, []) "test" = Raise e →
  predict self X = Raise e.
Proof. intros Hfwd. unfold predict. by rewrite Hfwd. Qed.

Lemma for_each_ext_in {A S} (xs : list A) (body body' : S → A → result S)
    (acc : S) :
  (∀ a x, x ∈ xs → body a x = body' a x) →
  for_each xs body acc = for_each xs body' acc.
Proof.
  revert acc. induction xs as [|x xs IH]; intros acc Hext; [done|].
  simpl. rewrite Hext by apply list_elem_of_here.
  destruct (body' acc x) as [acc'|]; [|done]. simpl.
  apply IH. intros a y Hy. apply Hext. by apply list_elem_of_further.
Qed.

Lemma bind_ext {A B} (m : result A) (f g : A → result B) :
  (∀ a, f a = g a) → m ≫= f = m ≫= g.
Proof. intros Hfg. destruct m; simpl; [apply Hfg | done]. Qed.

Lemma getitem_insert_ne {V} (d : gmap string V) (k k' : string) (x : V) :
  k ≠ k' → getitem (<[k := x]> d) k' = getitem d k'.
Proof. intros Hne. unfold getitem. by rewrite lookup_insert_ne. Qed.

Lemma index_insert_ne {A} (l : list A) (i j : nat) (x : A) :
  i ≠ j → index (<[i := x]> l) j = index l j.
Proof. intros Hne. unfold index. by rewrite list_lookup_insert_ne. Qed.
End Rejected.


(** ** The cost, the update and the probabilities over the reals *)

Section CostOverReals.
Implicit Types parameters grads v : gmap string (ndarray R).

Lemma of_nat_INR (n : nat) : of_nat (F:=R) n = INR n.
Proof. unfold of_nat. simpl. symmetry. apply INR_IZR_INZ. Qed.

Lemma of_nat_pos (n : nat) : 0 < n → (0 < of_nat (F:=R) n)%R.
Proof. intros Hn. rewrite of_nat_INR. by apply lt_0_INR. Qed.

Lemma entry_Forall (P : R → Prop) (r c : nat) (M : ndarray R) (i j : nat) :
  Forall (Forall P) M → has_shape r c M → i < r → j < c →
  P (entry M i j).
Proof.
  intros HP [Hr Hc] Hi Hj. unfold entry.
  destruct (lookup_lt_is_Some_2 M i) as [row Hrow]; [lia|].
  rewrite Forall_forall in HP, Hc.
  pose proof (HP row (list_elem_of_lookup_2 _ _ _ Hrow)) as HProw.
  pose proof (Hc row (list_elem_of_lookup_2 _ _ _ Hrow)) as Hlen.
  destruct (lookup_lt_is_Some_2 row j) as [x Hx]; [lia|].
  rewrite (nth_lookup_Some _ _ _ _ Hrow), (nth_lookup_Some _ _ _ _ Hx).
  rewrite Forall_forall in HProw. apply HProw.
  by eapply list_elem_of_lookup_2.
Qed.

Lemma big_sum_nonpos (f : nat → R) (n : nat) :
  (∀ l, l < n → (f l <= 0)%R) → (big_sum f n <= 0)%R.
Proof.
  induction n as [|n IH]; intros Hf; simpl.
  - unfold fzero. simpl. lra.
  - pose proof (Hf n ltac:(lia)). specialize (IH ltac:(intros; apply Hf; lia)).
    lra.
Qed.

Lemma big_sum_const (c : R) (n : nat) :
  big_sum (λ _, c) n = (INR n * c)%R.
Proof.
  induction n as [|n IH]; [simpl; unfold fzero; simpl; lra|].
  rewrite S_INR. simpl big_sum. rewrite IH. simpl. lra.
Qed.

Lemma ln_neg (p : R) : (0 < p < 1)%R → (ln p < 0)%R.
Proof. intros [H0 H1]. rewrite <- ln_1. by apply ln_increasing. Qed.

Lemma cross_entropy_nonneg (Y P : ndarray R) (m : nat) :
  0 < m → has_shape 1 m Y → has_shape 1 m P →
  Forall (Forall (λ y, 0 <= y <= 1)%R) Y →
  Forall (Forall (λ p, 0 < p < 1)%R) P →
  (0 <= cross_entropy_formula Y P m)%R.
Proof.
  intros Hm SY SP HY HP. unfold cross_entropy_formula.
  pose proof (of_nat_pos m Hm) as Hmpos.
  assert (big_sum (λ j,
            fadd (fmul (entry Y 0 j) (flog (entry P 0 j)))
              (fmul (fsub fone (entry Y 0 j))
                 (flog (fsub fone (entry P 0 j))))) m <= 0)%R as Hsum.
  { apply big_sum_nonpos. intros j Hj.
    pose proof (entry_Forall _ 1 m Y 0 j HY SY ltac:(lia) Hj) as Hy.
    pose proof (entry_Forall _ 1 m P 0 j HP SP ltac:(lia) Hj) as Hp.
    cbv beta in Hy, Hp.
    set (y := entry Y 0 j) in *. set (p := entry P 0 j) in *.
    simpl. unfold fone. simpl.
    pose proof (ln_neg p Hp).
    pose proof (ln_neg (1 - p) ltac:(lra)).
    nra. }
  revert Hsum. set (S := big_sum _ m). intros Hsum.
  unfold of_nat, fone in *. simpl in *.
  assert (0 < 1 / IZR (Z.of_nat m))%R by (apply Rdiv_lt_0_compat; lra).
  nra.
Qed.

Lemma L2_formula_nonneg (lambda : R) (m : nat) parameters :
  0 < m → (0 <= lambda)%R → (0 <= L2_formula lambda m parameters)%R.
Proof.
  intros Hm Hl. unfold L2_formula.
  pose proof (of_nat_pos (2 * m) ltac:(lia)) as Hmpos.
  assert (0 <= big_sum (λ l, frobenius_sq (weights parameters (l + 1)))
                 (size parameters / 2))%R as Hsum.
  { apply big_sum_nonneg. intros l _. apply frobenius_sq_nonneg. }
  simpl. apply Rmult_le_pos; [|done].
  apply Rmult_le_pos; [done|]. apply Rlt_le, Rinv_0_lt_compat. exact Hmpos.
Qed.

Lemma cross_entropy_at_half (Y P : ndarray R) (m : nat) :
  0 < m → has_shape 1 m P →
  Forall (Forall (λ p, p = (1 / 2)%R)) P →
  cross_entropy_formula Y P m = ln 2.
Proof.
  intros Hm SP HP. unfold cross_entropy_formula.
  rewrite (big_sum_ext _ (λ _, ln (1 / 2))); last first.
  { intros j Hj.
    pose proof (entry_Forall _ 1 m P 0 j HP SP ltac:(lia) Hj) as Hp.
    cbv beta in Hp. rewrite Hp. simpl. unfold fone. simpl.
    replace (1 - 1 / 2)%R with (1 / 2)%R by lra. lra. }
  rewrite big_sum_const.
  replace (1 / 2)%R with (/ 2)%R by lra. rewrite ln_Rinv by lra.
  rewrite of_nat_INR. simpl. unfold fone. simpl.
  pose proof (lt_0_INR m Hm). field. lra.
Qed.

Lemma L2_formula_zero (m : nat) parameters :
  L2_formula 0%R m parameters = 0%R.
Proof. unfold L2_formula. simpl. lra. Qed.

(** Without momentum the new momentum is the gradient. *)
Lemma momentum_formula_zero (r c : nat) (V G : ndarray R) :
  has_shape r c V → has_shape r c G → momentum_formula 0%R V G = G.
Proof.
  intros [HVr HVc] [HGr HGc]. unfold momentum_formula, elementwise.
  revert r G HVr HGr HGc.
  induction HVc as [|x V Hx _ IH]; intros r [|y G] HVr HGr HGc;
    simpl in *; try done; try lia.
  apply Forall_cons in HGc as [Hy HGc].
  rewrite (IH (pred r)) by (done || lia). f_equal.
  clear -Hx Hy. revert y Hy. subst c.
  induction x as [|a x IH]; intros [|b y] Hy; simpl in *; try done.
  rewrite IH by lia. f_equal. unfold fone. simpl. lra.
Qed.
End CostOverReals.


(** ** Errors of the mini-batch partition and of [fit] *)

Lemma positions_from_present (start : nat) (labels : list nat) (q : nat) :
  q ∈ labels → positions_from start labels q ≠ [].
Proof.
  revert start. induction labels as [|x labels IH]; intros start Hq.
  - by apply elem_of_nil in Hq.
  - simpl. destruct (decide (x = q)) as [->|Hne]; [done|].
    apply IH. apply elem_of_cons in Hq as [->|Hq]; done.
Qed.

(** Selecting a label that the index does not hold *)
Lemma get_indexer_missing (labels wanted : list nat) :
  ¬ (wanted ⊆ labels) →
  ∃ q, q ∈ wanted ∧ (q ∉ labels) ∧
       get_indexer labels wanted = Raise (KeyError (pretty q)).
Proof.
  induction wanted as [|q qs IH]; intros Hsub.
  - destruct Hsub. intros x Hx. by apply elem_of_nil in Hx.
  - destruct (decide (q ∈ labels)) as [Hq|Hq].
    + destruct IH as (q' & Hq' & Hq'n & Hrun).
      { intros Hqs. apply Hsub. intros x [->|Hx]%elem_of_cons; [done|].
        by apply Hqs. }
      exists q'. split; [by apply list_elem_of_further|]. split; [done|].
      simpl. unfold positions.
      pose proof (positions_from_present 0 labels q Hq) as Hne.
      destruct (positions_from 0 labels q); [done|]. by rewrite Hrun.
    + exists q. split; [apply list_elem_of_here|]. split; [done|].
      simpl. unfold positions. by rewrite positions_from_absent.
Qed.

Lemma mapM_nil_index {A} (M : ndarray A) :
  mapM (λ row : list A, mapM (index row) []) M = OK (map (λ _, []) M).
Proof.
  induction M as [|row M IH]; [done|].
  rewrite mapM_result_cons, IH. done.
Qed.

Section FitErrors.
Context {F : Type} `{Scalar F}.
Implicit Types parameters v : gmap string (ndarray F).

(** The partition of no examples is no batch. *)
Lemma init_mini_batches_empty (ω : Entropy F) (X : DataFrame F)
    (y : Series F) (mb_size : nat) (s : RandomState) :
  permutes ω → columns X = [] → 0 < mb_size →
  init_mini_batches ω X y mb_size s
  = OK ([], {| randn_calls := randn_calls s;
               rand_calls := rand_calls s;
               permutation_calls := S (permutation_calls s) |}).
Proof.
  intros Hω Hcols Hmb.
  assert (permutation_sample ω (permutation_calls s) [] = []) as Hperm.
  { apply Permutation_nil_r. apply Hω. }
  unfold init_mini_batches, permutation. rewrite Hcols, Hperm.
  unfold loc_columns, series_getitem. simpl get_indexer.
  rewrite !OK_bind. unfold take_cols. rewrite mapM_nil_index, OK_bind.
  simpl mapM. rewrite OK_bind. unfold reshape. simpl.
  rewrite decide_False by lia. rewrite Nat.Div0.div_0_l.
  rewrite decide_False; [done|]. rewrite Nat.Div0.mod_0_l. lia.
Qed.


End FitErrors.

(** Entries of a tabulated array *)
Lemma nth_tabulate {A B} (g : A → B) (r c : nat) (f : nat → nat → A)
    (i j : nat) (d : B) :
  i < r → j < c →
  nth j (nth i (map (map g) (tabulate r c f)) []) d = g (f i j).
Proof.
  intros Hi Hj. unfold tabulate.
  assert (map (map g) (map (λ i, map (f i) (seq 0 c)) (seq 0 r)) !! i
          = Some (map g (map (f i) (seq 0 c)))) as Hrow.
  { rewrite !list_lookup_fmap, lookup_seq_lt by done. done. }
  rewrite (nth_lookup_Some _ _ [] _ Hrow).
  assert (map g (map (f i) (seq 0 c)) !! j = Some (g (f i j))) as Hx.
  { rewrite !list_lookup_fmap, lookup_seq_lt by done. done. }
  by rewrite (nth_lookup_Some _ _ d _ Hx).
Qed.


(** ** The sample network and prediction on well-shaped parameters *)

Section SampleLayouts.
Context {F : Type} `{Scalar F}.

Lemma tiny_dropout_masks_shaped (d0 d1 d2 : bool) (k0 k1 k2 : F) :
  masks_shaped [1; 1; 1] 1 (tiny_dropout d0 d1 d2 k0 k1 k2).
Proof.
  split; [simpl; lia|]. intros l nl Hl.
  destruct l as [|[|[|l]]]; simpl in Hl; simplify_eq;
    (eexists; split; [vm_compute; reflexivity | apply has_shape_1_1]).
Qed.

Lemma tiny_caches_shaped (x w1 b1 z1 a1 w2 b2 z2 : F) :
  caches_shaped [1; 1; 1] (tiny_parameters w1 b1 w2 b2) 1
    (tiny_caches x w1 b1 z1 a1 w2 b2 z2).
Proof.
  split; [done|]. intros l Hl. simpl in Hl.
  assert (l = 1 ∨ l = 2) as [-> | ->] by lia.
  - exists [[x]], [[w1]], [[b1]], [[z1]], 1, 1.
    split_and!; try apply has_shape_1_1; vm_compute; reflexivity.
  - exists [[a1]], [[w2]], [[b2]], [[z2]], 1, 1.
    split_and!; try apply has_shape_1_1; vm_compute; reflexivity.
Qed.

Lemma tiny_grads_shaped (g : F) : gradients_shaped [1; 1; 1] (tiny_grads g).
Proof.
  intros l Hl. simpl in Hl.
  assert (l = 1 ∨ l = 2) as [-> | ->] by lia;
    exists [[g]], [[g]], 1, 1;
    split_and!; try apply has_shape_1_1; vm_compute; reflexivity.
Qed.

Lemma tiny_parameters_lookup_W1 (w1 b1 w2 b2 : F) :
  tiny_parameters w1 b1 w2 b2 !! key "W" 1 = Some [[w1]].
Proof. vm_compute. reflexivity. Qed.
Lemma tiny_parameters_lookup_b1 (w1 b1 w2 b2 : F) :
  tiny_parameters w1 b1 w2 b2 !! key "b" 1 = Some [[b1]].
Proof. vm_compute. reflexivity. Qed.
Lemma tiny_grads_lookup_dW1 (g : F) :
  tiny_grads g !! key "dW" 1 = Some [[g]].
Proof. vm_compute. reflexivity. Qed.
Lemma tiny_grads_lookup_db1 (g : F) :
  tiny_grads g !! key "db" 1 = Some [[g]].
Proof. vm_compute. reflexivity. Qed.

Lemma wide_parameters_well_shaped : well_shaped [1; 2] (wide_parameters (F:=F)).
Proof.
  split; [vm_compute; reflexivity|]. split; [repeat constructor|].
  intros l Hl. simpl in Hl. assert (l = 1) as -> by lia.
  exists [[fone]; [fone]], [[fzero]; [fzero]], 2, 1.
  split_and!; try (vm_compute; reflexivity);
    (split; [reflexivity | by repeat constructor]).
Qed.

Lemma has_shape_2_1 {A} (a b : A) : has_shape 2 1 [[a]; [b]].
Proof. split; [reflexivity | by repeat constructor]. Qed.

Lemma sample_X_columns : NoDup (columns (sample_X (F:=F))).
Proof. apply (bool_decide_unpack _). reflexivity. Qed.

Lemma sample_X_shape :
  has_shape 1 (length (columns (sample_X (F:=F)))) (values (sample_X (F:=F))).
Proof. split; [reflexivity | by repeat constructor]. Qed.

Lemma sample_labels_missing :
  ¬ (columns (sample_X (F:=F)) ⊆ s_index (short_Y (F:=F))).
Proof.
  intros Hsub. specialize (Hsub 2). simpl in Hsub.
  assert (2 ∈ [0; 1]) as Hin.
  { apply Hsub. apply list_elem_of_further, list_elem_of_further,
      list_elem_of_here. }
  apply elem_of_cons in Hin as [|Hin]; [lia|].
  apply elem_of_cons in Hin as [|Hin]; [lia|].
  by apply elem_of_nil in Hin.
Qed.

(** Prediction on well-shaped parameters with one output unit *)
Lemma predict_shapes (self : NeuralNet F) (X : ndarray F) (dims : list nat)
    (n0 m : nat) :
  well_shaped dims (trained_params self) → 2 ≤ length dims →
  last dims = Some 1 → dims !! 0 = Some n0 → has_shape n0 m X →
  ∃ y probas caches,
    L_model_forward X (trained_params self) (∅, []) "test"
    = OK (probas, caches) ∧
    predict self X = OK (y, probas) ∧
    has_shape 1 m y ∧ has_shape 1 m probas ∧
    ∃ Z, has_shape 1 m Z ∧ probas = sigmoid Z.
Proof.
  intros Hwf Hlen Hlast H0 SX.
  destruct (L_model_forward_shapes dims (trained_params self) (∅, [])
              "test" X n0 m)
    as (AL & caches & Hfwd & SAL & _ & HZ); [done..|].
  destruct HZ as (Z & SZ & HALZ); [done|].
  pose proof SAL as [Hr Hc].
  destruct AL as [|row [|??]]; simpl in Hr; try lia.
  apply Forall_cons in Hc as [Hrow _].
  pose proof Hwf as (_ & Hpos & _).
  pose proof (dims_positive _ _ _ Hpos H0) as Hn0.
  rewrite (predict_OK self X row caches Hfwd)
    by (by rewrite (has_shape_ncols n0 m X)).
  eexists _, _, _. split; [exact Hfwd|]. split; [done|]. split_and!.
  - split; [done|]. repeat constructor. by rewrite length_map.
  - done.
  - by exists Z.
Qed.
End SampleLayouts.


(** ** Properties of the initialisation *)

(** X6 ([init_params]).  For layer sizes that are all positive,
    [init_params] returns parameters laid out as the sizes prescribe: for
    each layer l a weight matrix of shape (n[l], n[l-1]) whose entries
    are 0.001 times the samples of the l-th call of [randn], and a zero
    bias of shape (n[l], 1); the dictionary has exactly two entries per
    layer, and one normal sample array is drawn per layer. *)
Theorem init_params_lays_out_layers {F : Type} `{Scalar F}
    (ω : Entropy F) (n : list nat) (s : RandomState) :
  Forall (λ d, 0 < d) n →
  ∃ parameters s',
    init_params ω n s = OK (parameters, s') ∧
    well_shaped n parameters ∧
    randn_calls s' = randn_calls s + (length n - 1) ∧
    rand_calls s' = rand_calls s ∧
    permutation_calls s' = permutation_calls s ∧
    (∀ l nl nl1, 1 ≤ l < length n → n !! l = Some nl →
       n !! (l - 1) = Some nl1 →
       parameters !! key "W" l
       = Some (amap (λ g, fmul g lit_0_001)
                 (tabulate nl nl1 (randn_sample ω (randn_calls s + (l - 1))))) ∧
       parameters !! key "b" l = Some (zeros nl 1)).
Proof. apply init_params_OK. Qed.

Lemma init_params_lays_out_layers_witness :
  Forall (λ d, 0 < d) [2; 3; 1] ∧
  ∃ parameters s',
    init_params (F:=R) sample_entropy [2; 3; 1] fresh_state
    = OK (parameters, s') ∧
    well_shaped [2; 3; 1] parameters ∧
    randn_calls s' = 2.
Proof.
  assert (Forall (λ d, 0 < d) [2; 3; 1]) as Hpos by (repeat constructor; lia).
  split; [exact Hpos|].
  destruct (init_params_lays_out_layers (F:=R) sample_entropy [2; 3; 1]
              fresh_state Hpos)
    as (p & s' & Hrun & Hwf & Hrn & _).
  exists p, s'. split; [exact Hrun|]. split; [exact Hwf | exact Hrn].
Defined.

(** X7 ([init_v]).  [init_v] never raises, whatever the list of layer
    sizes: it returns a dictionary with exactly two entries per layer,
    zero arrays of shape (n[l], n[l-1]) under ['dW' + str(l)] and of shape
    (n[l], 1) under ['db' + str(l)], that is, of the shapes of the
    parameters and of their gradients. *)
Theorem init_v_zero_momentum {F : Type} `{Scalar F} (n : list nat) :
  ∃ v,
    init_v (F:=F) n = OK v ∧ size v = 2 * (length n - 1) ∧
    gradients_shaped n v ∧
    (∀ l nl nl1, 1 ≤ l < length n → n !! l = Some nl →
       n !! (l - 1) = Some nl1 →
       v !! key "dW" l = Some (zeros nl nl1) ∧
       v !! key "db" l = Some (zeros nl 1)).
Proof.
  destruct (init_v_OK (F:=F) n) as (v & Hrun & Hsize & Hz).
  exists v. split_and!; try done. by apply gradients_shaped_zeros.
Qed.

(** X8 ([init_dropout]).  For positive layer sizes and a keep
    probability for every entry of [layer_dims], [init_dropout] returns
    the keep probabilities unchanged and one mask per entry of
    [layer_dims], the input layer included: the mask of layer l has shape
    (layer_dims[l], m) and its entry (i, j) is true exactly when the
    uniform sample drawn for it is below keep_prob[l].  One uniform array
    is drawn per entry of [layer_dims]. *)
Theorem init_dropout_masks {F : Type} `{Scalar F} (ω : Entropy F)
    (self : NeuralNet F) (keep_prob : list F) (m : nat) (s : RandomState) :
  Forall (λ d, 0 < d) (layer_dims self) →
  length (layer_dims self) ≤ length keep_prob →
  ∃ D s',
    init_dropout ω self keep_prob m s = OK ((D, keep_prob), s') ∧
    masks_shaped (layer_dims self) m (D, keep_prob) ∧
    randn_calls s' = randn_calls s ∧
    rand_calls s' = rand_calls s + length (layer_dims self) ∧
    permutation_calls s' = permutation_calls s ∧
    ∀ l nl kp, layer_dims self !! l = Some nl → keep_prob !! l = Some kp →
      ∃ Dl, D !! pretty l = Some Dl ∧ has_shape nl m Dl ∧
            ∀ i j, i < nl → j < m →
              nth j (nth i Dl []) false
              = flt (rand_sample ω (rand_calls s + l) i j) kp.
Proof.
  intros Hpos Hlen.
  destruct (init_dropout_OK ω self keep_prob m s Hpos Hlen)
    as (D & s' & Hrun & Hrn & Hr & Hperm & HD).
  exists D, s'. split_and!; try done.
  - by eapply masks_shaped_init.
  - intros l nl kp Hnl Hkp. eexists. split; [by apply HD|]. split.
    + eapply has_shape_map; [|apply has_shape_tabulate].
      intros row Hrow. by rewrite length_map.
    + intros i j Hi Hj. by apply nth_tabulate.
Qed.

Lemma init_dropout_masks_witness :
  Forall (λ d, 0 < d) (layer_dims (small_net (F:=R) 1)) ∧
  ∃ D s',
    init_dropout sample_entropy (small_net (F:=R) 1) [1%R; 1%R; 1%R] 4
      fresh_state = OK ((D, [1%R; 1%R; 1%R]), s') ∧
    masks_shaped (layer_dims (small_net (F:=R) 1)) 4 (D, [1%R; 1%R; 1%R]) ∧
    rand_calls s' = 3.
Proof.
  assert (Forall (λ d, 0 < d) (layer_dims (small_net (F:=R) 1))) as Hpos
    by (repeat constructor; lia).
  split; [exact Hpos|].
  destruct (init_dropout_masks sample_entropy (small_net (F:=R) 1)
              [1%R; 1%R; 1%R] 4 fresh_state Hpos)
    as (D & s' & Hrun & Hmasks & _ & Hr & _); [simpl; lia|].
  exists D, s'. split; [exact Hrun|]. split; [exact Hmasks | exact Hr].
Defined.

(** X9 ([init_dropout]).  With fewer keep probabilities than entries of
    [layer_dims], [init_dropout] raises IndexError (at line 178, after it
    has drawn the samples of the first layer without a probability). *)
Theorem init_dropout_short_keep_prob_raises {F : Type} `{Scalar F}
    (ω : Entropy F) (self : NeuralNet F) (keep_prob : list F) (m : nat)
    (s : RandomState) :
  Forall (λ d, 0 < d) (layer_dims self) →
  length keep_prob < length (layer_dims self) →
  init_dropout ω self keep_prob m s = Raise IndexError.
Proof.
  intros Hpos Hlen.
  destruct (init_dropout_loop_shapes ω self keep_prob m (length keep_prob) s)
    as (D & s' & Hrun & _); [done|lia|done|].
  unfold init_dropout.
  replace (length (layer_dims self))
    with (length keep_prob + S (length (layer_dims self) - length keep_prob - 1))
    by lia.
  rewrite seq_app. simpl seq.
  erewrite for_each_raise; [done|exact Hrun|].
  destruct (lookup_lt_is_Some_2 (layer_dims self) (length keep_prob))
    as [nl Hnl]; [lia|].
  unfold init_dropout_layer, rand.
  rewrite (index_OK _ _ _ Hnl), OK_bind. unfold index.
  by rewrite lookup_ge_None_2.
Qed.

Lemma init_dropout_short_keep_prob_raises_witness :
  length [1%R; 1%R] < length (layer_dims (small_net (F:=R) 1)) ∧
  init_dropout sample_entropy (small_net (F:=R) 1) [1%R; 1%R] 4 fresh_state
  = Raise IndexError.
Proof.
  split; [simpl; lia|].
  apply (init_dropout_short_keep_prob_raises sample_entropy
           (small_net (F:=R) 1) [1%R; 1%R] 4 fresh_state).
  - repeat constructor; lia.
  - simpl; lia.
Defined.

(** ** Properties of forward propagation *)

(** X10 ([linear_forward]).  For weights of shape (n, k), a bias of shape
    (n, 1) and an input of shape (k, m) with positive n and k, the linear
    step returns Z of shape (n, m) with
    Z[i, j] = sum over t of W[i, t]·A_prev[t, j], plus b[i, 0]: the bias
    is added to every example; the cache is the triple of its arguments. *)
Theorem linear_forward_is_affine {F : Type} `{Scalar F}
    (A_prev W b : ndarray F) (n k m : nat) :
  0 < n → 0 < k →
  has_shape n k W → has_shape n 1 b → has_shape k m A_prev →
  ∃ Z, linear_forward A_prev A_prev W b = OK (Z, (A_prev, W, b)) ∧
       has_shape n m Z ∧
       ∀ i j, i < n → j < m →
         entry Z i j
         = fadd (big_sum (λ t, fmul (entry W i t) (entry A_prev t j)) k)
             (entry b i 0).
Proof. apply linear_forward_OK. Qed.

Lemma linear_forward_is_affine_witness :
  0 < 2 ∧ 0 < 1 ∧ has_shape 2 1 [[1%R]; [2%R]] ∧
  ∃ Z, linear_forward [[1%R]] [[1%R]] [[1%R]; [2%R]] [[0%R]; [1%R]]
       = OK (Z, ([[1%R]], [[1%R]; [2%R]], [[0%R]; [1%R]])) ∧
       has_shape 2 1 Z.
Proof.
  split; [lia|]. split; [lia|]. split; [apply has_shape_2_1|].
  destruct (linear_forward_is_affine [[1%R]] [[1%R]; [2%R]] [[0%R]; [1%R]]
              2 1 1) as (Z & HZ & SZ & _);
    [lia | lia | apply has_shape_2_1 | apply has_shape_2_1
     | apply has_shape_1_1 |].
  exists Z. split; [exact HZ | exact SZ].
Defined.

(** X12 ([predict], [L_model_forward]).  When the trained parameters are
    laid out for dims[0] input units and the input array has another
    number of rows, [predict] raises ValueError (the matrix product of
    the first layer, line 245). *)
Theorem predict_rejects_wrong_feature_count {F : Type} `{Scalar F}
    (self : NeuralNet F) (X : ndarray F) (dims : list nat) (n0 n m : nat) :
  well_shaped dims (trained_params self) → 2 ≤ length dims →
  dims !! 0 = Some n0 → has_shape n m X → n ≠ n0 →
  predict self X = Raise ValueError.
Proof.
  intros Hwf Hlen H0 SX Hne. apply predict_raises.
  by apply (L_model_forward_wrong_features dims _ _ _ X n0 n m).
Qed.

Lemma predict_rejects_wrong_feature_count_witness :
  well_shaped [1; 1; 1]
    (trained_params (trained_net (tiny_parameters 0%R 0%R 0%R 0%R))) ∧
  has_shape 2 1 [[1%R]; [1%R]] ∧ 2 ≠ 1 ∧
  predict (trained_net (tiny_parameters 0%R 0%R 0%R 0%R)) [[1%R]; [1%R]]
  = Raise ValueError.
Proof.
  split; [apply tiny_parameters_well_shaped|].
  split; [apply has_shape_2_1|]. split; [lia|].
  apply (predict_rejects_wrong_feature_count
           (trained_net (tiny_parameters 0%R 0%R 0%R 0%R)) [[1%R]; [1%R]]
           [1; 1; 1] 1 2 1).
  - apply tiny_parameters_well_shaped.
  - simpl; lia.
  - reflexivity.
  - apply has_shape_2_1.
  - lia.
Defined.

(** X13 ([predict], [L_model_forward]).  When the trained parameters are
    laid out for an output layer of k units and k is not 1, [predict]
    raises AssertionError on every input of the right height: the
    assertion of line 320 admits one output unit only. *)
Theorem predict_rejects_wide_output {F : Type} `{Scalar F}
    (self : NeuralNet F) (X : ndarray F) (dims : list nat) (n0 m k : nat) :
  well_shaped dims (trained_params self) → 2 ≤ length dims →
  last dims = Some k → k ≠ 1 →
  dims !! 0 = Some n0 → has_shape n0 m X →
  predict self X = Raise AssertionError.
Proof.
  intros Hwf Hlen Hlast Hk H0 SX. apply predict_raises.
  by apply (L_model_forward_wide_output dims _ _ _ X n0 m k).
Qed.

Lemma predict_rejects_wide_output_witness :
  well_shaped [1; 2] (trained_params (trained_net (wide_parameters (F:=R)))) ∧
  last [1; 2] = Some 2 ∧ 2 ≠ 1 ∧
  predict (trained_net (wide_parameters (F:=R))) [[1%R]]
  = Raise AssertionError.
Proof.
  split; [apply wide_parameters_well_shaped|].
  split; [reflexivity|]. split; [lia|].
  apply (predict_rejects_wide_output (trained_net (wide_parameters (F:=R)))
           [[1%R]] [1; 2] 1 1 2).
  - apply wide_parameters_well_shaped.
  - simpl; lia.
  - reflexivity.
  - lia.
  - reflexivity.
  - apply has_shape_1_1.
Defined.

(** X14 ([predict]).  On well-shaped trained parameters with one output
    unit, the probabilities that [predict] returns are the output of
    forward propagation on X ([L_model_forward] with the trained
    parameters, no dropout, mode "test"), every one of them lies in the
    closed interval from 0 to 1, and the labels and the probabilities
    have shape (1, m).  The bounds are closed because the program attains
    them: in double precision the sigmoid of a large pre-activation is
    exactly 1. *)
Theorem predict_probabilities_in_unit_interval (self : NeuralNet R)
    (X : ndarray R) (dims : list nat) (n0 m : nat) :
  well_shaped dims (trained_params self) → 2 ≤ length dims →
  last dims = Some 1 → dims !! 0 = Some n0 → has_shape n0 m X →
  ∃ y probas caches,
    L_model_forward X (trained_params self) (∅, []) "test"
    = OK (probas, caches) ∧
    predict self X = OK (y, probas) ∧
    has_shape 1 m y ∧ has_shape 1 m probas ∧
    Forall (Forall (λ p, 0 <= p <= 1)%R) probas.
Proof.
  intros Hwf Hlen Hlast H0 SX.
  destruct (predict_shapes self X dims n0 m)
    as (y & probas & caches & Hfwd & Hrun & Sy & Sp & Z & SZ & ->); [done..|].
  exists y, (sigmoid Z), caches.
  split; [exact Hfwd|]. split; [exact Hrun|]. split; [exact Sy|].
  split; [exact Sp|].
  apply Forall_amap. intros z.
  pose proof (sigmoid_scalar_range z) as Hs. simpl. unfold fone. simpl. lra.
Qed.

Lemma predict_probabilities_in_unit_interval_witness :
  well_shaped [1; 1; 1]
    (trained_params (trained_net (tiny_parameters 1%R 0%R 1%R 0%R))) ∧
  ∃ y probas caches,
    L_model_forward [[1%R; 2%R]]
      (trained_params (trained_net (tiny_parameters 1%R 0%R 1%R 0%R)))
      (∅, []) "test"
    = OK (probas, caches) ∧
    predict (trained_net (tiny_parameters 1%R 0%R 1%R 0%R)) [[1%R; 2%R]]
    = OK (y, probas) ∧
    has_shape 1 2 y ∧ has_shape 1 2 probas ∧
    Forall (Forall (λ p, 0 <= p <= 1)%R) probas.
Proof.
  split; [apply tiny_parameters_well_shaped|].
  apply (predict_probabilities_in_unit_interval
           (trained_net (tiny_parameters 1%R 0%R 1%R 0%R)) [[1%R; 2%R]]
           [1; 1; 1] 1 2).
  - apply tiny_parameters_well_shaped.
  - simpl; lia.
  - reflexivity.
  - reflexivity.
  - split; [reflexivity | by repeat constructor].
Defined.


(** ** Properties of backward propagation *)

(** X15 ([L_model_backward]).  Back-propagation over at least one cache
    never reads the mask stored for the last hidden layer, under
    [str(L - 1)], nor the keep probability of the input layer,
    [keep_prob[0]]: replacing both leaves the result, or the exception,
    unchanged. *)
Theorem L_model_backward_unused_mask {F : Type} `{Scalar F}
    (self : NeuralNet F) (AL Y : ndarray F)
    (caches : list (ndarray F * ndarray F * ndarray F * ndarray F))
    (D : gmap string (ndarray bool)) (keep_prob : list F)
    (M : ndarray bool) (p : F) :
  1 ≤ length caches →
  L_model_backward self AL Y caches
    (<[pretty (length caches - 1) := M]> D, <[0 := p]> keep_prob)
  = L_model_backward self AL Y caches (D, keep_prob).
Proof.
  intros Hlen. unfold L_model_backward.
  rewrite (index_insert_ne keep_prob 0 (length caches)) by lia.
  rewrite (getitem_insert_ne D (pretty (length caches - 1))
             (pretty (length caches)))
    by (intros ?%(inj pretty); lia).
  do 8 (apply bind_ext; intros ?).
  apply bind_ext. intros [[dA_prev dW] db].
  apply for_each_ext_in. intros grads l Hl.
  apply list_elem_of_In, in_rev, list_elem_of_In, elem_of_seq in Hl.
  unfold hidden_layer_backward.
  rewrite (index_insert_ne keep_prob 0 (l + 1)) by lia.
  rewrite (getitem_insert_ne D (pretty (length caches - 1)) (pretty l))
    by (intros ?%(inj pretty); lia).
  done.
Qed.

Lemma L_model_backward_unused_mask_witness :
  1 ≤ length (tiny_caches 1%R 1%R 0%R 1%R 1%R 1%R 0%R 1%R) ∧
  L_model_backward (small_net 1) [[(1 / 2)%R]] [[1%R]]
    (tiny_caches 1%R 1%R 0%R 1%R 1%R 1%R 0%R 1%R)
    (<[pretty (length (tiny_caches 1%R 1%R 0%R 1%R 1%R 1%R 0%R 1%R) - 1)
       := [[false]]]> (tiny_dropout true true true 1%R 1%R 1%R).1,
     <[0 := 0%R]> (tiny_dropout true true true 1%R 1%R 1%R).2)
  = L_model_backward (small_net 1) [[(1 / 2)%R]] [[1%R]]
      (tiny_caches 1%R 1%R 0%R 1%R 1%R 1%R 0%R 1%R)
      ((tiny_dropout true true true 1%R 1%R 1%R).1,
       (tiny_dropout true true true 1%R 1%R 1%R).2).
Proof.
  split; [simpl; lia|].
  apply (L_model_backward_unused_mask (small_net 1) [[(1 / 2)%R]] [[1%R]]
           (tiny_caches 1%R 1%R 0%R 1%R 1%R 1%R 0%R 1%R)).
  simpl; lia.
Defined.

(** X16 ([L_model_backward]).  On the caches that forward propagation
    leaves for a batch of m > 0 examples, with masks of the layers'
    shapes, a keep probability per layer, and predictions and labels of
    shape (1, m), back-propagation returns, and for every layer l the
    gradients ['dW' + str(l)] and ['db' + str(l)] have the shapes of the
    layer's weights and bias. *)
Theorem L_model_backward_gradient_shapes {F : Type} `{Scalar F}
    (self : NeuralNet F) (dims : list nat)
    (parameters : gmap string (ndarray F)) (AL Y : ndarray F)
    (caches : list (ndarray F * ndarray F * ndarray F * ndarray F))
    (dropout_params : gmap string (ndarray bool) * list F) (m : nat) :
  2 ≤ length dims → Forall (λ d, 0 < d) dims → last dims = Some 1 →
  0 < m →
  caches_shaped dims parameters m caches →
  masks_shaped dims m dropout_params →
  has_shape 1 m AL → has_shape 1 m Y →
  ∃ grads,
    L_model_backward self AL Y caches dropout_params = OK grads ∧
    gradients_shaped dims grads.
Proof. apply L_model_backward_shapes. Qed.

Lemma L_model_backward_gradient_shapes_witness :
  caches_shaped [1; 1; 1] (tiny_parameters 1%R 0%R 1%R 0%R) 1
    (tiny_caches 1%R 1%R 0%R 1%R 1%R 1%R 0%R 1%R) ∧
  masks_shaped [1; 1; 1] 1 (tiny_dropout true true true 1%R 1%R 1%R) ∧
  ∃ grads,
    L_model_backward (small_net 1) [[(1 / 2)%R]] [[1%R]]
      (tiny_caches 1%R 1%R 0%R 1%R 1%R 1%R 0%R 1%R)
      (tiny_dropout true true true 1%R 1%R 1%R) = OK grads ∧
    gradients_shaped [1; 1; 1] grads.
Proof.
  split; [apply tiny_caches_shaped|].
  split; [apply tiny_dropout_masks_shaped|].
  apply (L_model_backward_gradient_shapes (small_net 1) [1; 1; 1]
           (tiny_parameters 1%R 0%R 1%R 0%R) [[(1 / 2)%R]] [[1%R]]
           (tiny_caches 1%R 1%R 0%R 1%R 1%R 1%R 0%R 1%R)
           (tiny_dropout true true true 1%R 1%R 1%R) 1).
  - simpl; lia.
  - repeat constructor; lia.
  - reflexivity.
  - lia.
  - apply tiny_caches_shaped.
  - apply tiny_dropout_masks_shaped.
  - apply has_shape_1_1.
  - apply has_shape_1_1.
Defined.

(** X17 ([L_model_backward]).  Called with an empty list of caches,
    back-propagation never returns: whatever the other arguments are, it
    raises (at the latest IndexError, from [caches[-1]]). *)
Theorem L_model_backward_needs_a_cache {F : Type} `{Scalar F}
    (self : NeuralNet F) (AL Y : ndarray F)
    (dropout_params : gmap string (ndarray bool) * list F) :
  succeeds (L_model_backward self AL Y [] dropout_params) = false.
Proof.
  unfold L_model_backward. destruct dropout_params as [D keep_prob].
  repeat match goal with
         | |- succeeds (?m ≫= _) = false =>
             destruct m; simpl; [|done]
         end.
  done.
Qed.

(** ** Properties of the parameter update *)

(** X18 ([update_params]).  With beta = 0 the update is plain gradient
    descent: for stores of matching shapes, the new momentum of every
    layer is the gradient itself and the new weights and biases are
    parameter − learningRate·gradient, whatever the old momentum was. *)
Theorem update_params_without_momentum (self : NeuralNet R)
    (parameters grads v : gmap string (ndarray R)) (lr : R) :
  beta self = 0%R →
  stores_match (size parameters / 2) parameters grads v →
  ∃ parameters' v',
    update_params self parameters grads v lr = OK (parameters', v') ∧
    ∀ l W b gW gb, 1 ≤ l ≤ size parameters / 2 →
      parameters !! key "W" l = Some W → parameters !! key "b" l = Some b →
      grads !! key "dW" l = Some gW → grads !! key "db" l = Some gb →
      v' !! key "dW" l = Some gW ∧ v' !! key "db" l = Some gb ∧
      parameters' !! key "W" l = Some (descent_formula lr W gW) ∧
      parameters' !! key "b" l = Some (descent_formula lr b gb).
Proof.
  intros Hbeta Hstores.
  destruct (update_loop self parameters grads v lr (size parameters / 2)
              (size parameters / 2) Hstores)
    as (p' & v' & Hrun & Hlayers & _); [lia|].
  exists p', v'. split; [exact Hrun|].
  intros l W b gW gb Hl HW Hb HgW Hgb.
  destruct (Hstores l Hl)
    as (W0 & b0 & gW0 & gb0 & vW & vb & r & c & HW0 & Hb0 & HgW0 & Hgb0
        & HvW & Hvb & SW & SgW & SvW & Sb & Sgb & Svb).
  simplify_eq.
  destruct (Hlayers l Hl W b gW gb vW vb) as (H1 & H2 & H3 & H4); [done..|].
  rewrite Hbeta in H1, H2, H3, H4.
  rewrite (momentum_formula_zero r c) in H1, H3 by done.
  rewrite (momentum_formula_zero r 1) in H2, H4 by done.
  done.
Qed.

Lemma update_params_without_momentum_witness :
  beta (plain_net (F:=R)) = 0%R ∧
  stores_match 2 (tiny_parameters 1%R 0%R 1%R 0%R)
    (tiny_grads 1%R) (tiny_grads 5%R) ∧
  ∃ parameters' v',
    update_params plain_net (tiny_parameters 1%R 0%R 1%R 0%R)
      (tiny_grads 1%R) (tiny_grads 5%R) (lr (plain_net (F:=R)))
    = OK (parameters', v') ∧
    v' !! key "dW" 1 = Some [[1%R]].
Proof.
  split; [reflexivity|]. split; [apply tiny_stores_match|].
  destruct (update_params_without_momentum plain_net
              (tiny_parameters 1%R 0%R 1%R 0%R) (tiny_grads 1%R)
              (tiny_grads 5%R) (lr (plain_net (F:=R))))
    as (p' & v' & Hrun & Hlayers).
  - reflexivity.
  - rewrite tiny_parameters_size. apply tiny_stores_match.
  - exists p', v'. split; [exact Hrun|].
    destruct (Hlayers 1 [[1%R]] [[0%R]] [[1%R]] [[1%R]]) as (Hv & _).
    + rewrite tiny_parameters_size. lia.
    + apply (tiny_parameters_lookup_W1 (F:=R)).
    + apply (tiny_parameters_lookup_b1 (F:=R)).
    + apply (tiny_grads_lookup_dW1 (F:=R)).
    + apply (tiny_grads_lookup_db1 (F:=R)).
    + exact Hv.
Defined.


(** X19 ([update_params]).  The update keeps the layout of the stores:
    from parameters, gradients and momentum laid out as [dims] prescribes
    it returns parameters and momentum with the same layout, for every
    learning rate and beta. *)
Theorem update_params_keeps_layout {F : Type} `{Scalar F}
    (self : NeuralNet F) (dims : list nat)
    (parameters grads v : gmap string (ndarray F)) (lr : F) :
  well_shaped dims parameters → gradients_shaped dims grads →
  gradients_shaped dims v →
  ∃ parameters' v',
    update_params self parameters grads v lr = OK (parameters', v') ∧
    well_shaped dims parameters' ∧ gradients_shaped dims v'.
Proof. apply update_params_shapes. Qed.

Lemma update_params_keeps_layout_witness :
  well_shaped [1; 1; 1] (tiny_parameters 1%R 0%R 1%R 0%R) ∧
  gradients_shaped [1; 1; 1] (tiny_grads 1%R) ∧
  ∃ parameters' v',
    update_params (small_net 1) (tiny_parameters 1%R 0%R 1%R 0%R)
      (tiny_grads 1%R) (tiny_grads 0%R) (lr (small_net (F:=R) 1))
    = OK (parameters', v') ∧
    well_shaped [1; 1; 1] parameters' ∧ gradients_shaped [1; 1; 1] v'.
Proof.
  split; [apply tiny_parameters_well_shaped|].
  split; [apply tiny_grads_shaped|].
  apply (update_params_keeps_layout (small_net 1) [1; 1; 1]
           (tiny_parameters 1%R 0%R 1%R 0%R) (tiny_grads 1%R)
           (tiny_grads 0%R) (lr (small_net (F:=R) 1))).
  - apply tiny_parameters_well_shaped.
  - apply tiny_grads_shaped.
  - apply tiny_grads_shaped.
Defined.

(** ** Properties of the cost *)

(** X20 ([compute_cost]).  For labels in [0, 1], predictions strictly
    between 0 and 1, both of shape (1, m) with m > 0, and a non-negative
    lambda, the cost is defined and is not negative. *)
Theorem compute_cost_nonneg (self : NeuralNet R) (Y_true Y_pred : ndarray R)
    (parameters : gmap string (ndarray R)) (m : nat) :
  0 < m → has_shape 1 m Y_true → has_shape 1 m Y_pred →
  (∀ l, 1 ≤ l ≤ size parameters / 2 → is_Some (parameters !! key "W" l)) →
  Forall (Forall (λ y, 0 <= y <= 1)%R) Y_true →
  Forall (Forall (λ p, 0 < p < 1)%R) Y_pred →
  (0 <= lambd self)%R →
  ∃ J, compute_cost self Y_true Y_pred parameters = OK J ∧ (0 <= J)%R.
Proof.
  intros Hm SY SP HW HY HP Hl.
  rewrite (compute_cost_formula self Y_true Y_pred parameters m) by done.
  eexists. split; [done|].
  pose proof (cross_entropy_nonneg Y_true Y_pred m Hm SY SP HY HP).
  pose proof (L2_formula_nonneg (lambd self) m parameters Hm Hl).
  lra.
Qed.

Lemma compute_cost_nonneg_witness :
  0 < 2 ∧ has_shape 1 2 [[1%R; 0%R]] ∧
  Forall (Forall (λ p, 0 < p < 1)%R) [[(1 / 2)%R; (1 / 4)%R]] ∧
  ∃ J, compute_cost (small_net 1) [[1%R; 0%R]] [[(1 / 2)%R; (1 / 4)%R]]
         (tiny_parameters 1%R 0%R 1%R 0%R) = OK J ∧ (0 <= J)%R.
Proof.
  assert (∀ a b : R, has_shape 1 2 [[a; b]]) as Hs.
  { intros a b. split; [reflexivity | by repeat constructor]. }
  assert (Forall (Forall (λ p, 0 < p < 1)%R) [[(1 / 2)%R; (1 / 4)%R]]) as HP.
  { repeat constructor; lra. }
  split; [lia|]. split; [apply Hs|]. split; [exact HP|].
  apply (compute_cost_nonneg (small_net 1) [[1%R; 0%R]]
           [[(1 / 2)%R; (1 / 4)%R]] (tiny_parameters 1%R 0%R 1%R 0%R) 2).
  - lia.
  - apply Hs.
  - apply Hs.
  - intros l Hl. apply tiny_parameters_weights.
    rewrite tiny_parameters_size in Hl. exact Hl.
  - repeat constructor; lra.
  - exact HP.
  - simpl. unfold fzero. simpl. lra.
Defined.

(** X21 ([compute_cost]).  When every prediction is 1/2 and lambda is 0,
    the cost is ln 2, whatever the labels and the parameters are. *)
Theorem compute_cost_at_even_odds (self : NeuralNet R)
    (Y_true Y_pred : ndarray R) (parameters : gmap string (ndarray R))
    (m : nat) :
  0 < m → has_shape 1 m Y_true → has_shape 1 m Y_pred →
  (∀ l, 1 ≤ l ≤ size parameters / 2 → is_Some (parameters !! key "W" l)) →
  Forall (Forall (λ p, p = (1 / 2)%R)) Y_pred →
  lambd self = 0%R →
  compute_cost self Y_true Y_pred parameters = OK (ln 2).
Proof.
  intros Hm SY SP HW HP Hl.
  rewrite (compute_cost_formula self Y_true Y_pred parameters m) by done.
  rewrite (cross_entropy_at_half Y_true Y_pred m) by done.
  rewrite Hl, L2_formula_zero. f_equal. lra.
Qed.

Lemma compute_cost_at_even_odds_witness :
  0 < 2 ∧ lambd (small_net (F:=R) 1) = 0%R ∧
  compute_cost (small_net 1) [[1%R; 0%R]] [[(1 / 2)%R; (1 / 2)%R]]
    (tiny_parameters 1%R 0%R 1%R 0%R) = OK (ln 2).
Proof.
  assert (∀ a b : R, has_shape 1 2 [[a; b]]) as Hs.
  { intros a b. split; [reflexivity | by repeat constructor]. }
  split; [lia|]. split; [reflexivity|].
  apply (compute_cost_at_even_odds (small_net 1) [[1%R; 0%R]]
           [[(1 / 2)%R; (1 / 2)%R]] (tiny_parameters 1%R 0%R 1%R 0%R) 2).
  - lia.
  - apply Hs.
  - apply Hs.
  - intros l Hl. apply tiny_parameters_weights.
    rewrite tiny_parameters_size in Hl. exact Hl.
  - by repeat constructor.
  - reflexivity.
Defined.

(** ** Errors of the mini-batch partition *)

(** X22 ([init_mini_batches]).  With a batch size of 0 the partition
    raises ZeroDivisionError, after the permutation has been drawn and
    the data shuffled: for a data frame with distinct column labels that
    the series shares, no list of batches is returned. *)
Theorem init_mini_batches_zero_batch_size {F : Type} `{Scalar F}
    (ω : Entropy F) (X : DataFrame F) (y : Series F) (r : nat)
    (s : RandomState) :
  permutes ω →
  NoDup (columns X) →
  s_index y = columns X →
  length (s_values y) = length (columns X) →
  has_shape r (length (columns X)) (values X) →
  init_mini_batches ω X y 0 s = Raise ZeroDivisionError.
Proof.
  intros Hω Hnd Hidx Hylen HX.
  destruct (init_mini_batches_unfold ω X y r s) as (SX & ys & _ & _ & Hrun);
    [done..|].
  by rewrite (Hrun 0).
Qed.

Lemma init_mini_batches_zero_batch_size_witness :
  permutes (sample_entropy (F:=R)) ∧
  NoDup (columns (sample_X (F:=R))) ∧
  init_mini_batches (F:=R) sample_entropy sample_X sample_Y 0 fresh_state
  = Raise ZeroDivisionError.
Proof.
  split; [apply sample_entropy_permutes|].
  split; [apply sample_X_columns|].
  apply (init_mini_batches_zero_batch_size sample_entropy sample_X sample_Y 1
           fresh_state).
  - apply sample_entropy_permutes.
  - apply sample_X_columns.
  - reflexivity.
  - reflexivity.
  - apply sample_X_shape.
Defined.

(** X23 ([init_mini_batches]).  When some column label of the data frame
    is missing from the index of the label series, the partition raises
    KeyError for such a label, whatever the batch size is. *)
Theorem init_mini_batches_missing_label_raises {F : Type} `{Scalar F}
    (ω : Entropy F) (X : DataFrame F) (y : Series F) (mb_size r : nat)
    (s : RandomState) :
  permutes ω → NoDup (columns X) →
  has_shape r (length (columns X)) (values X) →
  ¬ (columns X ⊆ s_index y) →
  ∃ q, q ∈ columns X ∧ (q ∉ s_index y) ∧
       init_mini_batches ω X y mb_size s = Raise (KeyError (pretty q)).
Proof.
  intros Hω Hnd HX Hsub.
  set (perm := permutation_sample ω (permutation_calls s) (columns X)).
  assert (perm ≡ₚ columns X) as Hperm by apply Hω.
  destruct (get_indexer_unique (columns X) perm) as (π & Hget & Hπ);
    [done | by intros q; rewrite Hperm |].
  pose proof (indexer_is_permutation _ _ _ Hnd Hperm Hπ) as Hπperm.
  assert (Forall (λ i, i < length (columns X)) π) as Hbound.
  { rewrite Hπperm. apply Forall_forall. intros i Hi%elem_of_seq. lia. }
  destruct (take_cols_OK r (length (columns X)) (values X) π)
    as (SX & HSX & _); [done..|].
  destruct (get_indexer_missing (s_index y) perm) as (q & Hq & Hqn & Hrun).
  { intros Hall. apply Hsub. intros x Hx. apply Hall. by rewrite Hperm. }
  exists q. split; [by rewrite <- Hperm|]. split; [done|].
  unfold init_mini_batches, permutation. fold perm.
  unfold loc_columns, series_getitem. rewrite Hget, OK_bind, HSX, OK_bind.
  by rewrite Hrun.
Qed.

Lemma init_mini_batches_missing_label_raises_witness :
  ¬ (columns (sample_X (F:=R)) ⊆ s_index (short_Y (F:=R))) ∧
  ∃ q, q ∈ columns (sample_X (F:=R)) ∧ (q ∉ s_index (short_Y (F:=R))) ∧
       init_mini_batches (F:=R) sample_entropy sample_X short_Y 2 fresh_state
       = Raise (KeyError (pretty q)).
Proof.
  split; [apply sample_labels_missing|].
  apply (init_mini_batches_missing_label_raises sample_entropy sample_X
           short_Y 2 1 fresh_state).
  - apply sample_entropy_permutes.
  - apply sample_X_columns.
  - apply sample_X_shape.
  - apply sample_labels_missing.
Defined.

(** ** Properties of training *)

(** X24 ([fit], [predict]).  On well-formed inputs [fit] returns: for a
    network with at least one layer, positive layer sizes and one output
    unit, a bound plotting module and a keep probability for every entry
    of [layer_dims], a non-empty training frame with distinct column
    labels whose height is the number of input units, labels indexed like
    the columns, and a positive batch size.  The parameters it returns
    and stores in the object are laid out as [layer_dims] prescribes, the
    object is marked fitted, and [predict] then returns labels and
    probabilities of shape (1, m') for every input of shape
    (layer_dims[0], m'). *)
Theorem fit_trains_a_usable_network {F : Type} `{Scalar F}
    (g : Globals F) (ω : Entropy F) (self : NeuralNet F)
    (X : DataFrame F) (Y : Series F) (mb_size n0 : nat) (s : RandomState)
    (keep_prob : list F) :
  2 ≤ length (layer_dims self) →
  Forall (λ d, 0 < d) (layer_dims self) →
  last (layer_dims self) = Some 1 →
  layer_dims self !! 0 = Some n0 →
  g_keep_prob g = Some keep_prob → g_plt g = true →
  length (layer_dims self) ≤ length keep_prob →
  permutes ω →
  NoDup (columns X) →
  s_index Y = columns X →
  length (s_values Y) = length (columns X) →
  has_shape n0 (length (columns X)) (values X) →
  0 < length (columns X) → 0 < mb_size →
  ∃ parameters self' s',
    fit g ω self X Y mb_size s = OK (parameters, self', s') ∧
    well_shaped (layer_dims self) parameters ∧
    trained_params self' = parameters ∧ fitted self' = true ∧
    ∀ (X' : ndarray F) (m' : nat), has_shape n0 m' X' →
      ∃ y probas,
        predict self' X' = OK (y, probas) ∧
        has_shape 1 m' y ∧ has_shape 1 m' probas.
Proof.
  intros Hlen Hpos Hlast H0 Hkp Hplt Hkplen Hω Hnd Hidx Hylen HX Hm Hmb.
  destruct (fit_OK g ω self X Y mb_size n0 s keep_prob)
    as (p & self' & s' & Hrun & Hwf & Hdims & Htp & Hfit & _); [done..|].
  exists p, self', s'. split_and!; try done.
  intros X' m' SX'.
  destruct (predict_shapes self' X' (layer_dims self) n0 m')
    as (y & probas & _ & _ & Hpred & Sy & Sp & _); [by rewrite Htp | done..|].
  by exists y, probas.
Qed.

Lemma fit_trains_a_usable_network_witness :
  permutes (sample_entropy (F:=R)) ∧
  NoDup (columns (sample_X (F:=R))) ∧
  0 < length (columns (sample_X (F:=R))) ∧
  ∃ parameters self' s',
    fit (F:=R) sample_globals sample_entropy (small_net 3)
      sample_X sample_Y 2 fresh_state = OK (parameters, self', s') ∧
    well_shaped (layer_dims (small_net (F:=R) 3)) parameters ∧
    trained_params self' = parameters ∧ fitted self' = true ∧
    ∀ (X' : ndarray R) (m' : nat), has_shape 1 m' X' →
      ∃ y probas,
        predict self' X' = OK (y, probas) ∧
        has_shape 1 m' y ∧ has_shape 1 m' probas.
Proof.
  split; [apply sample_entropy_permutes|].
  split; [apply sample_X_columns|]. split; [simpl; lia|].
  apply (fit_trains_a_usable_network sample_globals sample_entropy
           (small_net 3) sample_X sample_Y 2 1 fresh_state
           [fone; fone; fone]).
  - simpl; lia.
  - repeat constructor; lia.
  - reflexivity.
  - reflexivity.
  - reflexivity.
  - reflexivity.
  - simpl; lia.
  - apply sample_entropy_permutes.
  - apply sample_X_columns.
  - reflexivity.
  - reflexivity.
  - apply sample_X_shape.
  - simpl; lia.
  - lia.
Defined.

(** X25 ([fit], [init_dropout], [init_params], [init_mini_batches]).  On
    the same well-formed inputs, a run of [fit] draws one array of normal
    samples per layer, one permutation, and fresh dropout masks for every
    mini-batch of every epoch: numEpochs × (number of mini-batches) ×
    len(layer_dims) arrays of uniform samples, where m examples give
    floor(m / mb_size) batches and one more if m is not a multiple of
    mb_size. *)
Theorem fit_random_draws {F : Type} `{Scalar F}
    (g : Globals F) (ω : Entropy F) (self : NeuralNet F)
    (X : DataFrame F) (Y : Series F) (mb_size n0 : nat) (s : RandomState)
    (keep_prob : list F) :
  2 ≤ length (layer_dims self) →
  Forall (λ d, 0 < d) (layer_dims self) →
  last (layer_dims self) = Some 1 →
  layer_dims self !! 0 = Some n0 →
  g_keep_prob g = Some keep_prob → g_plt g = true →
  length (layer_dims self) ≤ length keep_prob →
  permutes ω →
  NoDup (columns X) →
  s_index Y = columns X →
  length (s_values Y) = length (columns X) →
  has_shape n0 (length (columns X)) (values X) →
  0 < length (columns X) → 0 < mb_size →
  ∃ parameters self' s',
    fit g ω self X Y mb_size s = OK (parameters, self', s') ∧
    randn_calls s' = randn_calls s + (length (layer_dims self) - 1) ∧
    rand_calls s'
    = rand_calls s
      + num_epochs self
        * (num_mini_batches (length (columns X)) mb_size
           * length (layer_dims self)) ∧
    permutation_calls s' = S (permutation_calls s).
Proof.
  intros Hlen Hpos Hlast H0 Hkp Hplt Hkplen Hω Hnd Hidx Hylen HX Hm Hmb.
  destruct (fit_OK g ω self X Y mb_size n0 s keep_prob)
    as (p & self' & s' & Hrun & _ & _ & _ & _ & Hrn & Hr & Hperm); [done..|].
  by exists p, self', s'.
Qed.

Lemma fit_random_draws_witness :
  permutes (sample_entropy (F:=R)) ∧
  num_mini_batches 3 2 = 2 ∧
  ∃ parameters self' s',
    fit (F:=R) sample_globals sample_entropy (small_net 3)
      sample_X sample_Y 2 fresh_state = OK (parameters, self', s') ∧
    randn_calls s' = 2 ∧ rand_calls s' = 18 ∧ permutation_calls s' = 1.
Proof.
  split; [apply sample_entropy_permutes|]. split; [reflexivity|].
  apply (fit_random_draws sample_globals sample_entropy
           (small_net 3) sample_X sample_Y 2 1 fresh_state
           [fone; fone; fone]).
  - simpl; lia.
  - repeat constructor; lia.
  - reflexivity.
  - reflexivity.
  - reflexivity.
  - reflexivity.
  - simpl; lia.
  - apply sample_entropy_permutes.
  - apply sample_X_columns.
  - reflexivity.
  - reflexivity.
  - apply sample_X_shape.
  - simpl; lia.
  - lia.
Defined.



(** X27 ([fit]).  On a training frame without examples, with positive
    layer sizes and batch size, [print_cost] set and at least one epoch,
    [fit] raises UnboundLocalError for [cost]: no batch is processed, so
    the first epoch reaches the print statement of line 474 before [cost]
    has been assigned. *)
Theorem fit_empty_training_set_raises {F : Type} `{Scalar F}
    (g : Globals F) (ω : Entropy F) (self : NeuralNet F)
    (X : DataFrame F) (Y : Series F) (mb_size : nat) (s : RandomState) :
  Forall (λ d, 0 < d) (layer_dims self) → permutes ω →
  columns X = [] → 0 < mb_size →
  0 < num_epochs self → print_cost self = true →
  fit g ω self X Y mb_size s = Raise (UnboundLocalError "cost").
Proof.
  intros Hpos Hω Hcols Hmb He Hprint.
  destruct (init_params_OK ω (layer_dims self) s Hpos)
    as (p0 & s1 & Hinit & _).
  destruct (init_v_OK (F:=F) (layer_dims self)) as (v0 & Hv0 & _).
  rewrite fit_unfold, Hinit, OK_bind, Hv0, OK_bind.
  rewrite (init_mini_batches_empty ω X Y mb_size s1) by done.
  rewrite OK_bind.
  destruct (num_epochs self) as [|e]; [lia|].
  simpl seq. erewrite for_each_first_raises; [done|].
  unfold train_epoch. simpl. by rewrite Hprint.
Qed.

Lemma fit_empty_training_set_raises_witness :
  columns (empty_X (F:=R)) = [] ∧ print_cost (small_net (F:=R) 1) = true ∧
  fit (F:=R) sample_globals sample_entropy (small_net 1) empty_X empty_Y 2
    fresh_state = Raise (UnboundLocalError "cost").
Proof.
  split; [reflexivity|]. split; [reflexivity|].
  apply (fit_empty_training_set_raises sample_globals sample_entropy
           (small_net 1) empty_X empty_Y 2 fresh_state).
  - repeat constructor; lia.
  - apply sample_entropy_permutes.
  - reflexivity.
  - lia.
  - simpl; lia.
  - reflexivity.
Defined.


(** ** Inference treats the examples of a batch one by one *)

Lemma take_1_drop {A} (l : list A) (j : nat) (x : A) :
  l !! j = Some x → take 1 (drop j l) = [x].
Proof. intros Hj. by rewrite (drop_S _ _ _ Hj). Qed.

Lemma nth_0_take_1_drop {A} (l : list A) (j : nat) (d : A) :
  nth 0 (take 1 (drop j l)) d = nth j l d.
Proof.
  revert j. induction l as [|x l IH]; intros [|j]; simpl; done.
Qed.

Section OneExample.
Context {F : Type} `{Scalar F}.
Implicit Types parameters : gmap string (ndarray F).
Implicit Types dropout_params : gmap string (ndarray bool) * list F.

Lemma example_rows (j : nat) (M : ndarray F) :
  example j M = map (λ row, take 1 (drop j row)) M.
Proof.
  unfold example, slice_cols. by replace (j + 1 - j) with 1 by lia.
Qed.

Lemma has_shape_example (r c j : nat) (M : ndarray F) :
  has_shape r c M → j < c → has_shape r 1 (example j M).
Proof.
  intros SM Hj. rewrite example_rows. eapply has_shape_map; [|exact SM].
  intros row Hrow. rewrite length_take, length_drop. lia.
Qed.

Lemma example_amap (f : F → F) (j : nat) (M : ndarray F) :
  example j (amap f M) = amap f (example j M).
Proof.
  rewrite !example_rows. unfold amap. rewrite !List.map_map.
  apply List.map_ext. intros row.
  change (map f row) with (f <$> row).
  by rewrite <- fmap_drop, <- fmap_take.
Qed.

Lemma column_example (j : nat) (M : ndarray F) :
  column 0 (example j M) = column j M.
Proof.
  rewrite example_rows. unfold column. rewrite List.map_map.
  apply List.map_ext. intros row. apply nth_0_take_1_drop.
Qed.

(** The linear step in closed form *)
Lemma linear_forward_closed (A_prev W b : ndarray F) (nl nl1 m : nat) :
  0 < nl → 0 < nl1 →
  has_shape nl nl1 W → has_shape nl 1 b → has_shape nl1 m A_prev →
  linear_forward A_prev A_prev W b
  = OK (affine W A_prev b, (A_prev, W, b)) ∧
  has_shape nl m (affine W A_prev b).
Proof.
  intros Hnl Hnl1 SW Sb SA.
  destruct (linear_forward_OK A_prev W b nl nl1 m) as (Z & HZ & SZ & _);
    [done..|].
  assert (Z = affine W A_prev b) as <-; [|done].
  revert HZ. unfold linear_forward, dot.
  rewrite decide_True; last first.
  { by rewrite (has_shape_ncols nl nl1 W), (has_shape_nrows nl1 m A_prev). }
  rewrite OK_bind. set (WA := map _ W).
  assert (has_shape nl m WA) as SWA.
  { eapply has_shape_map; [|exact SW]. intros row _.
    rewrite length_map. unfold transpose.
    by rewrite length_map, length_seq, (has_shape_ncols nl1 m A_prev). }
  unfold broadcast2.
  rewrite (has_shape_nrows nl m WA), (has_shape_nrows nl 1 b) by done.
  rewrite (has_shape_ncols nl m WA), (has_shape_ncols nl 1 b) by done.
  rewrite broadcast_dim_same, OK_bind.
  assert (broadcast_dim m 1 = OK m) as ->.
  { unfold broadcast_dim. repeat case_decide; (done || by subst || lia). }
  rewrite OK_bind.
  destruct SWA as [HMr HMc], Sb as [HNr HNc].
  rewrite !stretch_id by done.
  assert (zip_with (λ x y, zip_with fadd (stretch m x) (stretch m y)) WA b
          = affine W A_prev b) as ->.
  { unfold affine. fold WA.
    apply zip_with_ext_Forall with (P := λ x, length x = m)
                                   (Q := λ y : list F, length y = 1);
      [|done..].
    intros x y Hx Hy. rewrite (stretch_id m x) by done.
    destruct y as [|y0 [|??]]; simpl in Hy; try lia. simpl.
    subst m. clear. induction x as [|a x IH]; [done|]. simpl. by f_equal. }
  rewrite OK_bind. intros HZ. apply bind_OK in HZ as (? & _ & HZ).
  by simplify_eq.
Qed.

Lemma affine_example (A_prev W b : ndarray F) (nl nl1 m j : nat) :
  0 < nl → 0 < nl1 →
  has_shape nl nl1 W → has_shape nl 1 b → has_shape nl1 m A_prev →
  j < m →
  affine W (example j A_prev) b = example j (affine W A_prev b).
Proof.
  intros Hnl Hnl1 SW Sb SA Hj. unfold affine.
  pose proof (has_shape_example nl1 m j A_prev SA Hj) as SA'.
  assert (transpose (example j A_prev) = [column j A_prev]) as ->.
  { unfold transpose. rewrite (has_shape_ncols nl1 1) by done. simpl.
    by rewrite column_example. }
  assert (∀ row : list F,
            take 1 (drop j (map (vdot row) (transpose A_prev)))
            = [vdot row (column j A_prev)]) as Hrow.
  { intros row. apply take_1_drop. unfold transpose.
    rewrite (has_shape_ncols nl1 m A_prev) by done.
    rewrite !list_lookup_fmap, lookup_seq_lt by done. done. }
  rewrite example_rows.
  destruct SW as [HWr _], Sb as [Hbr _].
  clear SA SA'. revert nl b HWr Hbr Hnl.
  induction W as [|row W IH]; intros nl [|y b] HWr Hbr Hnl;
    simpl in *; try done.
  f_equal.
  - change (map ?f ?l) with (f <$> l).
    rewrite <- fmap_drop, <- fmap_take.
    change (?f <$> ?l) with (map f l). by rewrite Hrow.
  - destruct W as [|row' W]; [by destruct b|].
    apply (IH (pred nl)); simpl in *; lia.
Qed.

Lemma activation_forward_closed (W b : ndarray F) (activation : string)
    (nl nl1 : nat) :
  activation = "Leaky ReLU" ∨ activation = "Sigmoid" →
  0 < nl → 0 < nl1 → has_shape nl nl1 W → has_shape nl 1 b →
  ∃ f : F → F, ∀ (A_prev : ndarray F) (m : nat),
    has_shape nl1 m A_prev →
    activation_forward A_prev A_prev W b activation
    = OK (amap f (affine W A_prev b),
          ((A_prev, W, b), affine W A_prev b)) ∧
    has_shape nl m (affine W A_prev b).
Proof.
  intros Hact Hnl Hnl1 SW Sb.
  exists (if decide (activation = "Sigmoid")
          then λ z, fdiv fone (fadd fone (fexp (fneg z)))
          else λ z, if fle fzero z then z else fmul z lit_0_01).
  intros A_prev m SA.
  destruct (linear_forward_closed A_prev W b nl nl1 m) as [Hlin SZ];
    [done..|].
  split; [|done].
  unfold activation_forward. rewrite Hlin, OK_bind.
  assert (∀ g, shape (amap g (affine W A_prev b))
               = (nrows W, ncols A_prev)) as Hshape.
  { intros g. rewrite (has_shape_shape nl m), (has_shape_nrows nl nl1 W),
      (has_shape_ncols nl1 m A_prev) by (done || by apply has_shape_amap).
    done. }
  destruct Hact as [-> | ->].
  - rewrite decide_False, decide_False, decide_True by done.
    rewrite leaky_relu_eq, OK_bind, (decide_False (P := _ = "Sigmoid"))
      by done.
    by rewrite (py_assert_true _ (Hshape _)).
  - rewrite decide_False, decide_True by done.
    rewrite OK_bind, (decide_True (P := "Sigmoid" = "Sigmoid")) by done.
    unfold sigmoid. by rewrite (py_assert_true _ (Hshape _)).
Qed.

(** The loop over the hidden layers on a batch and on one of its
    examples *)
Lemma hidden_layers_forward_example (dims : list nat) parameters
    dropout_params (X : ndarray F) (n0 m j k : nat) :
  well_shaped dims parameters → k < length dims →
  dims !! 0 = Some n0 → has_shape n0 m X → j < m →
  ∃ A caches caches' nk,
    for_each (seq 1 k) (hidden_layer_forward parameters dropout_params "test")
      (X, []) = OK (A, caches) ∧
    for_each (seq 1 k) (hidden_layer_forward parameters dropout_params "test")
      (example j X, []) = OK (example j A, caches') ∧
    dims !! k = Some nk ∧ has_shape nk m A.
Proof.
  intros Hwf Hk H0 SX Hj. induction k as [|k IH].
  - exists X, [], [], n0. done.
  - destruct IH as (A & caches & caches' & nk & Hrun & Hrun' & Hnk & SA);
      [lia|].
    destruct (well_shaped_layer dims parameters (S k) Hwf)
      as (W & b & nl & nl1 & Hnl & Hnl1 & Hpos & Hpos1 & HW & Hb & SW & Sb);
      [lia|].
    replace (S k - 1) with k in Hnl1 by lia.
    assert (nl1 = nk) as -> by congruence.
    destruct (activation_forward_closed W b "Leaky ReLU" nl nk)
      as (f & Hf); [by left | done..|].
    destruct (Hf A m SA) as [HA SZ].
    destruct (Hf (example j A) 1) as [HA' _];
      [by apply (has_shape_example nk m)|].
    rewrite !seq_S, !for_each_snoc, Hrun, Hrun', !OK_bind. simpl "+".
    unfold hidden_layer_forward.
    rewrite HW, !OK_bind, Hb, !OK_bind, HA, HA', !OK_bind.
    rewrite !apply_dropout_test, !OK_bind.
    rewrite (affine_example A W b nl nk m j) by done.
    rewrite <- example_amap.
    eexists _, _, _, nl. split; [done|]. split; [done|]. split; [done|].
    by apply has_shape_amap.
Qed.

Lemma L_model_forward_example (dims : list nat) parameters dropout_params
    (X : ndarray F) (n0 m j : nat) :
  well_shaped dims parameters → 2 ≤ length dims →
  last dims = Some 1 → dims !! 0 = Some n0 → has_shape n0 m X → j < m →
  ∃ row caches caches',
    length row = m ∧
    L_model_forward X parameters dropout_params "test"
    = OK ([row], caches) ∧
    L_model_forward (example j X) parameters dropout_params "test"
    = OK ([take 1 (drop j row)], caches').
Proof.
  intros Hwf Hlen Hlast H0 SX Hj.
  pose proof Hwf as (Hsize & Hpos & _).
  pose proof (dims_positive _ _ _ Hpos H0) as Hn0.
  destruct (hidden_layers_forward_example dims parameters dropout_params
              X n0 m j (length dims - 1 - 1))
    as (A & caches & caches' & nk & Hrun & Hrun' & Hnk & SA);
    [done | lia | done..|].
  destruct (well_shaped_layer dims parameters (length dims - 1) Hwf)
    as (W & b & nl & nl1 & Hnl & Hnl1 & Hposl & Hpos1 & HW & Hb & SW & Sb);
    [lia|].
  rewrite last_lookup in Hlast.
  replace (pred (length dims)) with (length dims - 1) in Hlast by lia.
  assert (nl = 1) as -> by congruence.
  assert (nl1 = nk) as -> by congruence.
  destruct (activation_forward_closed W b "Sigmoid" 1 nk)
    as (f & Hf); [by right | done..|].
  destruct (Hf A m SA) as [HA SZ].
  destruct (Hf (example j A) 1) as [HA' _];
    [by apply (has_shape_example nk m)|].
  pose proof (has_shape_amap f 1 m _ SZ) as SAL.
  pose proof SAL as [Hr Hc].
  destruct (amap f (affine W A b)) as [|row [|??]] eqn:HAL;
    simpl in Hr; try lia.
  apply Forall_cons in Hc as [Hrow _].
  exists row. eexists _, _. split; [done|].
  unfold L_model_forward. rewrite Hsize, Hrun, Hrun', !OK_bind.
  rewrite HW, !OK_bind, Hb, !OK_bind, HA, HA', !OK_bind.
  rewrite !apply_dropout_test, !OK_bind.
  rewrite (affine_example A W b 1 nk m j) by done.
  rewrite <- example_amap, HAL. rewrite example_rows. simpl map.
  rewrite (py_assert_true (shape [row] = (1, ncols X))); last first.
  { unfold shape. simpl. by rewrite Hrow, (has_shape_ncols n0 m X). }
  rewrite (py_assert_true
             (shape [take 1 (drop j row)] = (1, ncols (example j X))));
    last first.
  { unfold shape. simpl.
    rewrite (has_shape_ncols n0 1 (example j X))
      by (done || by apply (has_shape_example n0 m)).
    rewrite length_take, length_drop. f_equal. lia. }
  done.
Qed.
End OneExample.


(** ** Further properties of forward propagation *)

Lemma entry_zip_with_mask {F : Type} `{Scalar F} (f : F → bool → F)
    (r c : nat) (A : ndarray F) (D : ndarray bool) (i j : nat) :
  has_shape r c A → has_shape r c D → i < r → j < c →
  entry (zip_with (zip_with f) A D) i j
  = f (entry A i j) (nth j (nth i D []) false).
Proof.
  intros [HAr HAc] [HDr HDc] Hi Hj. unfold entry.
  destruct (lookup_lt_is_Some_2 A i) as [x Hx]; [lia|].
  destruct (lookup_lt_is_Some_2 D i) as [y Hy]; [lia|].
  rewrite Forall_forall in HAc. rewrite Forall_forall in HDc.
  pose proof (HAc x (list_elem_of_lookup_2 _ _ _ Hx)) as Hlx.
  pose proof (HDc y (list_elem_of_lookup_2 _ _ _ Hy)) as Hly.
  destruct (lookup_lt_is_Some_2 x j) as [a Ha]; [lia|].
  destruct (lookup_lt_is_Some_2 y j) as [d Hd]; [lia|].
  assert (zip_with (zip_with f) A D !! i = Some (zip_with f x y)) as HP.
  { rewrite lookup_zip_with, Hx. simpl. rewrite Hy. done. }
  assert (zip_with f x y !! j = Some (f a d)) as Hg.
  { rewrite lookup_zip_with, Ha. simpl. rewrite Hd. done. }
  rewrite (nth_lookup_Some _ _ [] _ HP), (nth_lookup_Some _ _ fzero _ Hg).
  rewrite (nth_lookup_Some _ _ [] _ Hx), (nth_lookup_Some _ _ fzero _ Ha).
  by rewrite (nth_lookup_Some _ _ [] _ Hy), (nth_lookup_Some _ _ false _ Hd).
Qed.

(** X28 ([predict], [L_model_forward]).  Inference treats the examples of
    a batch one by one: on well-shaped trained parameters with one output
    unit, the label and the probability that [predict] returns for the
    j-th column of X are those it returns when it is given that column
    alone. *)
Theorem predict_one_example_at_a_time {F : Type} `{Scalar F}
    (self : NeuralNet F) (X : ndarray F) (dims : list nat) (n0 m j : nat) :
  well_shaped dims (trained_params self) → 2 ≤ length dims →
  last dims = Some 1 → dims !! 0 = Some n0 → has_shape n0 m X → j < m →
  ∃ y probas,
    predict self X = OK (y, probas) ∧
    has_shape 1 m y ∧ has_shape 1 m probas ∧
    predict self (example j X) = OK (example j y, example j probas).
Proof.
  intros Hwf Hlen Hlast H0 SX Hj.
  pose proof Hwf as (_ & Hpos & _).
  pose proof (dims_positive _ _ _ Hpos H0) as Hn0.
  destruct (L_model_forward_example dims (trained_params self) (∅, []) X
              n0 m j) as (row & caches & caches' & Hrow & Hfwd & Hfwd');
    [done..|].
  rewrite (predict_OK self X row caches Hfwd)
    by (by rewrite (has_shape_ncols n0 m X)).
  rewrite (predict_OK self (example j X) _ caches' Hfwd'); last first.
  { rewrite (has_shape_ncols n0 1 (example j X))
      by (done || by apply (has_shape_example n0 m)).
    rewrite length_take, length_drop. lia. }
  eexists _, _. split; [done|]. split_and!.
  - split; [done|]. repeat constructor. by rewrite length_map.
  - split; [done|]. by repeat constructor.
  - rewrite !example_rows. simpl map. do 3 f_equal.
    change (map ?f ?l) with (f <$> l).
    by rewrite <- fmap_drop, <- fmap_take.
Qed.

Lemma predict_one_example_at_a_time_witness :
  well_shaped [1; 1; 1]
    (trained_params (trained_net (tiny_parameters 1%R 0%R 1%R 0%R))) ∧
  1 < 2 ∧
  ∃ y probas,
    predict (trained_net (tiny_parameters 1%R 0%R 1%R 0%R)) [[1%R; 2%R]]
    = OK (y, probas) ∧
    has_shape 1 2 y ∧ has_shape 1 2 probas ∧
    predict (trained_net (tiny_parameters 1%R 0%R 1%R 0%R))
      (example 1 [[1%R; 2%R]])
    = OK (example 1 y, example 1 probas).
Proof.
  split; [apply tiny_parameters_well_shaped|]. split; [lia|].
  apply (predict_one_example_at_a_time
           (trained_net (tiny_parameters 1%R 0%R 1%R 0%R)) [[1%R; 2%R]]
           [1; 1; 1] 1 2 1).
  - apply tiny_parameters_well_shaped.
  - simpl; lia.
  - reflexivity.
  - reflexivity.
  - split; [reflexivity | by repeat constructor].
  - lia.
Defined.

(** X29 ([L_model_forward]).  Inverted dropout in training mode: for an
    activation and a mask of one shape, the step
    [A = multiply(A, D[str(l)]); A /= keep_prob[l]] returns an array of
    that shape whose entry is the activation divided by keep_prob[l]
    where the mask is True and, for a keep probability other than 0, 0
    where it is False.  (The source does not guard keep_prob[l] = 0,
    where the division gives nan and inf; the statement leaves that case
    out.) *)
Theorem apply_dropout_zeroes_or_rescales (A : ndarray R)
    (D : gmap string (ndarray bool)) (keep_prob : list R) (l r c : nat)
    (Dl : ndarray bool) (kp : R) :
  D !! pretty l = Some Dl → keep_prob !! l = Some kp → kp ≠ 0%R →
  has_shape r c A → has_shape r c Dl →
  ∃ A',
    apply_dropout "train" (D, keep_prob) l A = OK A' ∧ has_shape r c A' ∧
    ∀ i j, i < r → j < c →
      entry A' i j
      = if nth j (nth i Dl []) false then (entry A i j / kp)%R else 0%R.
Proof.
  intros HDl Hkp Hkp0 SA SD. unfold apply_dropout.
  rewrite decide_True by done.
  rewrite (getitem_OK _ _ _ HDl), OK_bind. unfold multiply_mask.
  rewrite (broadcast2_same_shape _ r c) by done.
  rewrite OK_bind, (index_OK _ _ _ Hkp), OK_bind.
  eexists. split; [done|].
  assert (has_shape r c
            (zip_with (zip_with (λ (x : R) (b : bool), fmul x (of_bool b)))
               A Dl)) as SM by (by apply has_shape_zip_with).
  split; [by apply has_shape_amap|].
  intros i j Hi Hj.
  rewrite (entry_amap _ r c) by done.
  rewrite (entry_zip_with_mask _ r c) by done.
  destruct (nth j (nth i Dl []) false); simpl; unfold fone, fzero; simpl.
  - f_equal. lra.
  - by field.
Qed.

Lemma apply_dropout_zeroes_or_rescales_witness :
  (1 / 2)%R ≠ 0%R ∧
  has_shape 1 2 [[3%R; 4%R]] ∧ has_shape 1 2 [[true; false]] ∧
  ∃ A',
    apply_dropout "train" (<[pretty 1 := [[true; false]]]> ∅, [1%R; (1 / 2)%R])
      1 [[3%R; 4%R]] = OK A' ∧ has_shape 1 2 A' ∧
    ∀ i j, i < 1 → j < 2 →
      entry A' i j
      = if nth j (nth i [[true; false]] []) false
        then (entry [[3%R; 4%R]] i j / (1 / 2))%R else 0%R.
Proof.
  assert (∀ {T} (a b : T), has_shape 1 2 [[a; b]]) as Hs.
  { intros T a b. split; [reflexivity | by repeat constructor]. }
  split; [lra|]. split; [apply Hs|]. split; [apply Hs|].
  apply (apply_dropout_zeroes_or_rescales [[3%R; 4%R]]
           (<[pretty 1 := [[true; false]]]> ∅) [1%R; (1 / 2)%R] 1 1 2
           [[true; false]] (1 / 2)%R).
  - apply lookup_insert_eq.
  - reflexivity.
  - lra.
  - apply Hs.
  - apply Hs.
Defined.

(** X30 ([activation_forward], [activation_back]).  The two dispatchers
    have no branch for an unknown activation name: for a name other than
    'ReLU', 'Sigmoid' and 'Leaky ReLU', [activation_forward] never
    returns, raising UnboundLocalError for [A] whenever its linear step
    succeeds, and [activation_back] raises UnboundLocalError for [dZ]. *)
Theorem unknown_activation_is_unbound {F : Type} `{Scalar F}
    (self : NeuralNet F) (A_prev W b dA : ndarray F)
    (c : ndarray F * ndarray F * ndarray F * ndarray F)
    (activation : string) :
  activation ≠ "ReLU" → activation ≠ "Sigmoid" →
  activation ≠ "Leaky ReLU" →
  succeeds (activation_forward A_prev A_prev W b activation) = false ∧
  (succeeds (linear_forward A_prev A_prev W b) = true →
   activation_forward A_prev A_prev W b activation
   = Raise (UnboundLocalError "A")) ∧
  activation_back self dA c activation = Raise (UnboundLocalError "dZ").
Proof.
  intros H1 H2 H3. unfold activation_forward, activation_back.
  destruct c as [lin_cache Z].
  rewrite !(decide_False (P := activation = "ReLU")) by done.
  rewrite !(decide_False (P := activation = "Sigmoid")) by done.
  rewrite !(decide_False (P := activation = "Leaky ReLU")) by done.
  destruct (linear_forward A_prev A_prev W b) as [[Z' lc]|e]; simpl;
    [|done].
  rewrite !(decide_False (P := activation = "ReLU")) by done.
  rewrite !(decide_False (P := activation = "Sigmoid")) by done.
  rewrite !(decide_False (P := activation = "Leaky ReLU")) by done.
  done.
Qed.

Lemma unknown_activation_is_unbound_witness :
  "Tanh" ≠ "ReLU" ∧
  activation_back (small_net 1) [[1%R]] (([[1%R]], [[1%R]], [[0%R]]), [[1%R]])
    "Tanh" = Raise (UnboundLocalError "dZ").
Proof.
  split; [done|].
  apply (unknown_activation_is_unbound (small_net 1) [[1%R]] [[1%R]] [[0%R]]
           [[1%R]] (([[1%R]], [[1%R]], [[0%R]]), [[1%R]]) "Tanh"); done.
Defined.


(** ** Forward propagation computes its closed form *)

Section ForwardClosedForm.
Context {F : Type} `{Scalar F}.
Implicit Types parameters : gmap string (ndarray F).
Implicit Types dropout_params : gmap string (ndarray bool) * list F.

Lemma biases_lookup parameters (l : nat) (b : ndarray F) :
  parameters !! key "b" l = Some b → biases parameters l = b.
Proof. unfold biases, ndarray. by intros ->. Qed.

Lemma getitem_inv {V} (d : gmap string V) (k : string) (x : V) :
  getitem d k = OK x → d !! k = Some x.
Proof. unfold getitem. destruct (d !! k); [|done]. by intros [= ->]. Qed.

(** The caches of the closed form, position by position *)
Lemma hidden_trace_caches_length parameters dropout_params (mode : string)
    (X : ndarray F) (k : nat) :
  length (hidden_trace parameters dropout_params mode X k).2 = k.
Proof.
  induction k as [|k IH]; [done|]. simpl.
  destruct (hidden_trace parameters dropout_params mode X k) as [A cs].
  simpl in *. rewrite length_app. simpl. lia.
Qed.

Lemma hidden_trace_lookup parameters dropout_params (mode : string)
    (X : ndarray F) (k l : nat) :
  l < k →
  (hidden_trace parameters dropout_params mode X k).2 !! l
  = Some (((hidden_trace parameters dropout_params mode X l).1,
           weights parameters (S l), biases parameters (S l)),
          affine (weights parameters (S l))
            (hidden_trace parameters dropout_params mode X l).1
            (biases parameters (S l))).
Proof.
  induction k as [|k IH]; intros Hl; [lia|].
  pose proof (hidden_trace_caches_length parameters dropout_params mode X k)
    as Hlen.
  destruct (decide (l = k)) as [->|Hne].
  - simpl.
    destruct (hidden_trace parameters dropout_params mode X k) as [A cs].
    simpl in *. rewrite lookup_app_r by lia.
    by rewrite Hlen, Nat.sub_diag.
  - assert (l < k) as Hlk by lia. specialize (IH Hlk). simpl.
    destruct (hidden_trace parameters dropout_params mode X k) as [A cs].
    simpl in *. by rewrite lookup_app_l by lia.
Qed.

Lemma forward_trace_lookup parameters dropout_params (mode : string)
    (X : ndarray F) (L l : nat) :
  1 ≤ L → l < L →
  (forward_trace parameters dropout_params mode X L).2 !! l
  = Some (((hidden_trace parameters dropout_params mode X l).1,
           weights parameters (S l), biases parameters (S l)),
          affine (weights parameters (S l))
            (hidden_trace parameters dropout_params mode X l).1
            (biases parameters (S l))).
Proof.
  intros HL Hl. unfold forward_trace.
  pose proof (hidden_trace_caches_length parameters dropout_params mode X
                (L - 1)) as Hlen.
  destruct (decide (l = L - 1)) as [->|Hne].
  - replace (S (L - 1)) with L by lia.
    destruct (hidden_trace parameters dropout_params mode X (L - 1))
      as [A cs].
    simpl in *. rewrite lookup_app_r by lia.
    by rewrite Hlen, Nat.sub_diag.
  - assert (l < L - 1) as Hlk by lia.
    pose proof (hidden_trace_lookup parameters dropout_params mode X
                  (L - 1) l Hlk) as Hlookup.
    destruct (hidden_trace parameters dropout_params mode X (L - 1))
      as [A cs].
    simpl in *. by rewrite lookup_app_l by lia.
Qed.

Lemma forward_trace_cache parameters dropout_params (mode : string)
    (X : ndarray F) (L l : nat) (A_prev W b Z : ndarray F) :
  1 ≤ L → l < L →
  (forward_trace parameters dropout_params mode X L).2 !! l
  = Some ((A_prev, W, b), Z) →
  A_prev = (hidden_trace parameters dropout_params mode X l).1 ∧
  Z = affine W A_prev b.
Proof.
  intros HL Hl Hc. rewrite forward_trace_lookup in Hc by done.
  by injection Hc as <- <- <- <-.
Qed.

(** The output of the closed form is the sigmoid of the last cached
    pre-activation, after dropout *)
Lemma forward_trace_output parameters dropout_params (mode : string)
    (X : ndarray F) (L : nat) :
  ∃ A_prev W b Z,
    last (forward_trace parameters dropout_params mode X L).2
    = Some ((A_prev, W, b), Z) ∧
    (forward_trace parameters dropout_params mode X L).1
    = dropout_formula mode dropout_params L (sigmoid Z).
Proof.
  unfold forward_trace.
  destruct (hidden_trace parameters dropout_params mode X (L - 1))
    as [A cs].
  eexists _, _, _, _. simpl. by rewrite last_snoc.
Qed.

(** The entries of W·A + b *)
Lemma affine_entry (A_prev W b : ndarray F) (nl nl1 m i j : nat) :
  0 < nl → 0 < nl1 →
  has_shape nl nl1 W → has_shape nl 1 b → has_shape nl1 m A_prev →
  i < nl → j < m →
  entry (affine W A_prev b) i j
  = fadd (big_sum (λ t, fmul (entry W i t) (entry A_prev t j)) nl1)
      (entry b i 0).
Proof.
  intros Hnl Hnl1 SW Sb SA Hi Hj.
  destruct (linear_forward_OK A_prev W b nl nl1 m) as (Z & HZ & _ & HeZ);
    [done..|].
  destruct (linear_forward_closed A_prev W b nl nl1 m) as [Hlin _];
    [done..|].
  rewrite Hlin in HZ. injection HZ as <-. by apply HeZ.
Qed.

Lemma activation_forward_explicit (A_prev W b : ndarray F)
    (activation : string) (nl nl1 m : nat) :
  activation = "Leaky ReLU" ∨ activation = "Sigmoid" →
  0 < nl → 0 < nl1 → has_shape nl nl1 W → has_shape nl 1 b →
  has_shape nl1 m A_prev →
  activation_forward A_prev A_prev W b activation
  = OK (amap (if decide (activation = "Sigmoid") then sigmoid_scalar
              else leaky_relu_scalar) (affine W A_prev b),
        ((A_prev, W, b), affine W A_prev b)) ∧
  has_shape nl m (affine W A_prev b).
Proof.
  intros Hact Hnl Hnl1 SW Sb SA.
  destruct (linear_forward_closed A_prev W b nl nl1 m) as [Hlin SZ];
    [done..|].
  split; [|done].
  unfold activation_forward. rewrite Hlin, OK_bind.
  assert (∀ g, shape (amap g (affine W A_prev b))
               = (nrows W, ncols A_prev)) as Hshape.
  { intros g. rewrite (has_shape_shape nl m), (has_shape_nrows nl nl1 W),
      (has_shape_ncols nl1 m A_prev) by (done || by apply has_shape_amap).
    done. }
  destruct Hact as [-> | ->].
  - rewrite decide_False, decide_False, decide_True by done.
    rewrite leaky_relu_eq, OK_bind, (decide_False (P := _ = "Sigmoid"))
      by done.
    unfold leaky_relu_scalar. by rewrite (py_assert_true _ (Hshape _)).
  - rewrite decide_False, decide_True by done.
    rewrite OK_bind, !(decide_True (P := "Sigmoid" = "Sigmoid")) by done.
    unfold sigmoid, sigmoid_scalar.
    by rewrite (py_assert_true _ (Hshape _)).
Qed.

Lemma apply_dropout_closed (dims : list nat) dropout_params (mode : string)
    (m l nl : nat) (A : ndarray F) :
  (mode = "train" → masks_shaped dims m dropout_params) →
  dims !! l = Some nl → has_shape nl m A →
  apply_dropout mode dropout_params l A
  = OK (dropout_formula mode dropout_params l A) ∧
  has_shape nl m (dropout_formula mode dropout_params l A).
Proof.
  intros Hmasks Hnl SA. unfold apply_dropout, dropout_formula.
  destruct (decide (mode = "train")) as [Hmode|Hmode]; [|done].
  destruct dropout_params as [D keep_prob].
  destruct (Hmasks Hmode) as [Hlen HD]. simpl in *.
  destruct (HD l nl Hnl) as (Dl & HDl & SDl).
  destruct (lookup_lt_is_Some_2 keep_prob l) as [kp Hkp].
  { apply lookup_lt_Some in Hnl. lia. }
  rewrite (getitem_OK _ _ _ HDl), OK_bind. unfold multiply_mask.
  rewrite (broadcast2_same_shape _ nl m A Dl) by done.
  rewrite OK_bind, (index_OK _ _ _ Hkp), OK_bind.
  unfold ndarray in *.
  rewrite HDl, (nth_lookup_Some _ _ fzero _ Hkp). simpl.
  split; [done|]. by apply has_shape_amap, has_shape_zip_with.
Qed.

(** The loop over the hidden layers 1..k *)
Lemma hidden_layers_forward_trace (dims : list nat) parameters
    dropout_params (mode : string) (X : ndarray F) (n0 m k : nat) :
  well_shaped dims parameters →
  (mode = "train" → masks_shaped dims m dropout_params) →
  k < length dims → dims !! 0 = Some n0 → has_shape n0 m X →
  ∃ nk,
    for_each (seq 1 k) (hidden_layer_forward parameters dropout_params mode)
      (X, [])
    = OK (hidden_trace parameters dropout_params mode X k) ∧
    dims !! k = Some nk ∧
    has_shape nk m (hidden_trace parameters dropout_params mode X k).1.
Proof.
  intros Hwf Hmasks Hk H0 SX. induction k as [|k IH].
  - exists n0. done.
  - destruct IH as (nk & Hrun & Hnk & SA); [lia|].
    destruct (hidden_trace parameters dropout_params mode X k)
      as [A caches] eqn:Htrace.
    simpl in SA.
    destruct (well_shaped_layer dims parameters (S k) Hwf)
      as (W & b & nl & nl1 & Hnl & Hnl1 & Hpos & Hpos1 & HW & Hb & SW & Sb);
      [lia|].
    replace (S k - 1) with k in Hnl1 by lia.
    assert (nl1 = nk) as -> by congruence.
    destruct (activation_forward_explicit A W b "Leaky ReLU" nl nk m)
      as [HA SZ]; [by left | done..|].
    rewrite decide_False in HA by done.
    destruct (apply_dropout_closed dims dropout_params mode m (S k) nl
                (amap leaky_relu_scalar (affine W A b)))
      as [HA' SA']; [done | done | by apply has_shape_amap |].
    rewrite seq_S, for_each_snoc, Hrun, OK_bind. simpl "+".
    unfold hidden_layer_forward.
    rewrite HW, OK_bind, Hb, OK_bind, HA, OK_bind, HA', OK_bind.
    exists nl. simpl hidden_trace. rewrite Htrace.
    rewrite (weights_lookup _ _ _ (getitem_inv _ _ _ HW)).
    rewrite (biases_lookup _ _ _ (getitem_inv _ _ _ Hb)).
    done.
Qed.

Lemma L_model_forward_is_forward_trace (dims : list nat) parameters
    dropout_params (mode : string) (X : ndarray F) (n0 m : nat) :
  well_shaped dims parameters →
  (mode = "train" → masks_shaped dims m dropout_params) →
  2 ≤ length dims → last dims = Some 1 →
  dims !! 0 = Some n0 → has_shape n0 m X →
  L_model_forward X parameters dropout_params mode
  = OK (forward_trace parameters dropout_params mode X (length dims - 1)).
Proof.
  intros Hwf Hmasks Hlen Hlast H0 SX.
  pose proof Hwf as (Hsize & Hpos & _).
  destruct (hidden_layers_forward_trace dims parameters dropout_params mode
              X n0 m (length dims - 1 - 1))
    as (nk & Hrun & Hnk & SA); [done | done | lia | done..|].
  unfold forward_trace.
  destruct (hidden_trace parameters dropout_params mode X
              (length dims - 1 - 1)) as [A caches] eqn:Htrace.
  simpl in SA.
  destruct (well_shaped_layer dims parameters (length dims - 1) Hwf)
    as (W & b & nl & nl1 & Hnl & Hnl1 & Hposl & Hpos1 & HW & Hb & SW & Sb);
    [lia|].
  rewrite last_lookup in Hlast.
  replace (pred (length dims)) with (length dims - 1) in Hlast by lia.
  assert (nl = 1) as -> by congruence.
  assert (nl1 = nk) as -> by congruence.
  destruct (activation_forward_explicit A W b "Sigmoid" 1 nk m)
    as [HAL SZ]; [by right | done..|].
  rewrite decide_True in HAL by done.
  destruct (apply_dropout_closed dims dropout_params mode m
              (length dims - 1) 1 (amap sigmoid_scalar (affine W A b)))
    as [HAL' SAL']; [done | done | by apply has_shape_amap |].
  unfold L_model_forward. rewrite Hsize, Hrun, OK_bind.
  rewrite HW, OK_bind, Hb, OK_bind, HAL, OK_bind, HAL', OK_bind.
  rewrite py_assert_true; last first.
  { rewrite (has_shape_shape 1 m) by (done || lia). f_equal.
    symmetry. apply (has_shape_ncols n0 m); [done|].
    by eapply dims_positive. }
  rewrite OK_bind.
  rewrite (weights_lookup _ _ _ (getitem_inv _ _ _ HW)).
  rewrite (biases_lookup _ _ _ (getitem_inv _ _ _ Hb)).
  done.
Qed.
End ForwardClosedForm.


(** ** What forward propagation returns *)

(** X11 ([L_model_forward]).  On parameters laid out as [dims]
    prescribes, with one output unit, and an input X of shape
    (dims[0], m), forward propagation returns in either mode (in training
    mode given a mask of shape (dims[l], m) and a keep probability for
    every layer), and what it returns is the closed form [forward_trace]:
    the output has shape (1, m) and there is one cache per layer.  The
    cache of layer l holds the activation that the layers below hand up
    (X itself for l = 1, else the leaky ReLU of the previous
    pre-activation after dropout), the layer's own W and b from the
    parameters, and the pre-activation Z with
    Z[i, j] = Σ_t W[i, t]·A_prev[t, j] + b[i, 0].  The output is the
    sigmoid of the pre-activation in the last cache, after dropout in
    training mode and as it is in any other mode. *)
Theorem L_model_forward_shapes_and_caches {F : Type} `{Scalar F}
    (dims : list nat) (parameters : gmap string (ndarray F))
    (dropout_params : gmap string (ndarray bool) * list F)
    (mode : string) (X : ndarray F) (n0 m : nat) :
  well_shaped dims parameters →
  (mode = "train" → masks_shaped dims m dropout_params) →
  2 ≤ length dims → last dims = Some 1 →
  dims !! 0 = Some n0 → has_shape n0 m X →
  ∃ AL caches,
    L_model_forward X parameters dropout_params mode = OK (AL, caches) ∧
    (AL, caches)
    = forward_trace parameters dropout_params mode X (length dims - 1) ∧
    has_shape 1 m AL ∧ caches_shaped dims parameters m caches ∧
    (∀ l, 1 ≤ l < length dims →
       ∃ A_prev W b Z nl nl1,
         dims !! l = Some nl ∧ dims !! (l - 1) = Some nl1 ∧
         caches !! (l - 1) = Some ((A_prev, W, b), Z) ∧
         parameters !! key "W" l = Some W ∧
         parameters !! key "b" l = Some b ∧
         A_prev = (hidden_trace parameters dropout_params mode X (l - 1)).1 ∧
         ∀ i j, i < nl → j < m →
           entry Z i j
           = fadd (big_sum (λ t, fmul (entry W i t) (entry A_prev t j)) nl1)
               (entry b i 0)) ∧
    ∃ A_prev W b Z,
      last caches = Some ((A_prev, W, b), Z) ∧
      AL = dropout_formula mode dropout_params (length dims - 1) (sigmoid Z) ∧
      (mode ≠ "train" → AL = sigmoid Z).
Proof.
  intros Hwf Hmasks Hlen Hlast H0 SX.
  destruct (L_model_forward_shapes dims parameters dropout_params mode X n0 m)
    as (AL & caches & Hrun & SAL & Hcaches & _); [done..|].
  pose proof (L_model_forward_is_forward_trace dims parameters dropout_params
                mode X n0 m Hwf Hmasks Hlen Hlast H0 SX) as Htrace.
  rewrite Hrun in Htrace. injection Htrace as Htrace.
  exists AL, caches. split; [done|]. split; [done|]. split; [done|].
  split; [done|]. split.
  - intros l Hl. pose proof Hcaches as [_ Hlayers].
    destruct (Hlayers l Hl)
      as (A_prev & W & b & Z & nl & nl1 & Hnl & Hnl1 & Hc & HW & Hb
          & SA & SW & Sb & SZ).
    pose proof Hwf as (_ & Hpos & _).
    destruct (forward_trace_cache parameters dropout_params mode X
                (length dims - 1) (l - 1) A_prev W b Z) as [HA HZ];
      [lia | lia | by rewrite <- Htrace |].
    exists A_prev, W, b, Z, nl, nl1.
    split; [done|]. split; [done|]. split; [done|]. split; [done|].
    split; [done|]. split; [done|].
    intros i j Hi Hj. rewrite HZ.
    apply (affine_entry A_prev W b nl nl1 m); try done.
    + by eapply dims_positive.
    + by eapply dims_positive.
  - destruct (forward_trace_output parameters dropout_params mode X
                (length dims - 1)) as (A_prev & W & b & Z & Hlast' & HAL).
    rewrite <- Htrace in Hlast', HAL. simpl in Hlast', HAL.
    exists A_prev, W, b, Z. split; [done|]. split; [done|].
    intros Hmode. rewrite HAL. unfold dropout_formula.
    by rewrite decide_False.
Qed.

Lemma L_model_forward_shapes_and_caches_witness :
  well_shaped [1; 1; 1] (tiny_parameters 1%R 0%R 1%R 0%R) ∧
  masks_shaped [1; 1; 1] 1 (tiny_dropout true false true 1%R (1 / 2)%R 1%R) ∧
  ∃ AL caches,
    L_model_forward [[1%R]] (tiny_parameters 1%R 0%R 1%R 0%R)
      (tiny_dropout true false true 1%R (1 / 2)%R 1%R) "train"
    = OK (AL, caches) ∧
    (AL, caches)
    = forward_trace (tiny_parameters 1%R 0%R 1%R 0%R)
        (tiny_dropout true false true 1%R (1 / 2)%R 1%R) "train" [[1%R]] 2 ∧
    has_shape 1 1 AL ∧
    caches_shaped [1; 1; 1] (tiny_parameters 1%R 0%R 1%R 0%R) 1 caches.
Proof.
  split; [apply tiny_parameters_well_shaped|].
  split; [apply tiny_dropout_masks_shaped|].
  destruct (L_model_forward_shapes_and_caches [1; 1; 1]
              (tiny_parameters 1%R 0%R 1%R 0%R)
              (tiny_dropout true false true 1%R (1 / 2)%R 1%R) "train"
              [[1%R]] 1 1)
    as (AL & caches & Hrun & Htrace & SAL & Hcaches & _).
  - apply tiny_parameters_well_shaped.
  - intros _. apply tiny_dropout_masks_shaped.
  - simpl; lia.
  - reflexivity.
  - reflexivity.
  - apply has_shape_1_1.
  - exists AL, caches. split; [exact Hrun|]. split; [exact Htrace|].
    split; [exact SAL|]. exact Hcaches.
Defined.
